(** * cnn_mnist: a shallow embedding of the MNIST custom-estimator script

    The script [cnn_mnist.py] assembles a convolutional classifier out of
    TensorFlow 1.x layer calls and drives it through an [Estimator]:
    load, train, evaluate, predict, export.

    Conventions of the embedding
    - a tensor of floats is a shape together with its row-major values;
      activations inside the network are kept as nested lists
      ([batch][height][width][channel] or [batch][unit]);
    - float32 arithmetic is read as arithmetic over the real numbers
      ([R]): rounding, overflow and NaN are outside the model, and the
      theorems about values are kept to what rounding leaves in place
      (which function is computed, and the order and the bounds that
      rounding to nearest preserves);
    - trainable variables are total functions from indices to [R]: the
      layers create them with the right shape, so no shape check on them
      can fail;
    - an operation that the framework rejects with an exception returns
      [None] (inside the model function) or [Raise] (inside the driver);
    - the pseudo-random draws of the framework (dropout noise, shuffle
      queue picks, thread interleaving of the queue runner) are explicit
      oracle arguments. *)

From Stdlib Require Import String DecimalString.
From Stdlib Require Import Reals ZArith Lia Lra Bool Arith.
From Stdlib Require Import List Permutation.
Import ListNotations.

Open Scope R_scope.

(** ** Tensors and [tf.reshape] *)

Definition Rsum (l : list R) : R := fold_right Rplus 0 l.

(** [mapi f l] is [[f 0 x0; f 1 x1; ...]]. *)
Definition mapi {A B : Type} (f : nat -> A -> B) (l : list A) : list B :=
  map (fun p => f (fst p) (snd p)) (combine (seq 0 (length l)) l).

(** Dot product of a vector with a weight column given as a function. *)
Definition dot (x : list R) (w : nat -> R) : R :=
  Rsum (mapi (fun k v => v * w k) x).

(** Row-major regrouping of a flat list into consecutive blocks of [n]. *)
Definition chunks {A : Type} (n : nat) (l : list A) : list (list A) :=
  map (fun i => firstn n (skipn (i * n) l)) (seq 0 (length l / n)).

Record tensor : Type := Tensor { shape : list nat; values : list R }.

Definition numel (s : list nat) : nat := fold_right Nat.mul 1%nat s.

Definition well_formed (t : tensor) : bool :=
  (length (values t) =? numel (shape t))%nat.

(** A rank-2 tensor built from its rows (what [np.array] of equal-length
    rows is). *)
Definition of_rows (cols : nat) (rows : list (list R)) : tensor :=
  Tensor [length rows; cols] (concat rows).

(** The requested shape of a reshape: each entry is a size, or [-1] for
    the one dimension to be inferred. *)
Definition known_dims (target : list Z) : list nat :=
  map Z.to_nat (filter (fun d => (0 <=? d)%Z) target).

Definition wildcards (target : list Z) : nat :=
  length (filter (fun d => (d =? -1)%Z) target).

Definition bad_dims (target : list Z) : bool :=
  existsb (fun d => (d <? -1)%Z) target.

(** Shape inference of [tf.reshape]: sizes below [-1] and more than one
    [-1] are rejected; without a wildcard the sizes must multiply to the
    number of elements; with one, the known sizes must be non-zero and
    divide it. *)
Definition resolve_shape (total : nat) (target : list Z) : option (list nat) :=
  if bad_dims target then None
  else
    let known := numel (known_dims target) in
    match wildcards target with
    | O => if (known =? total)%nat then Some (map Z.to_nat target) else None
    | S O =>
        if (known =? 0)%nat then None
        else if (total mod known =? 0)%nat
             then Some (map (fun d => if (d =? -1)%Z then (total / known)%nat
                                      else Z.to_nat d) target)
             else None
    | _ => None
    end.

(** Nested views of a tensor. *)
Definition pixel := list R.
Definition image := list (list pixel).

Definition nhwc (t : tensor) : list image :=
  match shape t with
  | [_; h; w; c] =>
      map (fun img => map (chunks c) (chunks (w * c) img))
          (chunks (h * w * c) (values t))
  | _ => []
  end.

Definition rows_of (t : tensor) : list (list R) :=
  match shape t with
  | [_; c] => chunks c (values t)
  | _ => []
  end.

Definition flat_image (img : image) : list R := concat (map (@concat R) img).

Definition height (img : image) : nat := length img.
Definition width (img : image) : nat := length (hd [] img).
Definition channels (img : image) : nat := length (hd [] (hd [] img)).

(** The rank-4 tensor whose nested view is [x]; the static height, width
    and channel count are those of the first image. *)
Definition of_nhwc (x : list image) : tensor :=
  let i0 := hd [] x in
  Tensor [length x; height i0; width i0; channels i0]
         (concat (map flat_image x)).

(** Access with zero padding: outside the image every channel reads 0
    (an empty pixel contributes nothing to a dot product). *)
Definition px (img : image) (y x : nat) : pixel := nth x (nth y img []) [].

Definition pixel_at (img : image) (y x : Z) : pixel :=
  if ((y <? 0) || (x <? 0))%Z then [] else px img (Z.to_nat y) (Z.to_nat x).

Definition Rmax_list (l : list R) : R :=
  match l with
  | [] => 0
  | x :: t => fold_left Rmax t x
  end.

(** First index holding the largest entry, scanning left to right and
    replacing the candidate only by a strictly larger entry. *)
Fixpoint argmax_from (best_i : nat) (best : R) (i : nat) (l : list R) : nat :=
  match l with
  | [] => best_i
  | x :: t =>
      if Rlt_dec best x then argmax_from i x (S i) t
      else argmax_from best_i best (S i) t
  end.

(** Names of the trainable variables the layers create, in creation
    order: [conv2d/kernel], [conv2d/bias], [conv2d_1/kernel],
    [conv2d_1/bias], [dense1/kernel], [dense1/bias], [dense/kernel],
    [dense/bias]. *)
Inductive var_name : Type :=
| conv2d_kernel | conv2d_bias
| conv2d_1_kernel | conv2d_1_bias
| dense1_kernel | dense1_bias
| dense_kernel | dense_bias.

Definition Variables : Type := var_name -> list nat -> R.

Definition kernel4 (vs : Variables) (n : var_name) : nat -> nat -> nat -> nat -> R :=
  fun di dj c f => vs n [di; dj; c; f].
Definition kernel2 (vs : Variables) (n : var_name) : nat -> nat -> R :=
  fun k u => vs n [k; u].
Definition bias1 (vs : Variables) (n : var_name) : nat -> R :=
  fun u => vs n [u].

Inductive padding : Type := same | valid.

Module tf.

Definition reshape (t : tensor) (target : list Z) : option tensor :=
  match resolve_shape (length (values t)) target with
  | Some s => Some (Tensor s (values t))
  | None => None
  end.

(** [tf.argmax(input, axis=1)] on a rank-2 tensor. *)
Definition argmax_row (l : list R) : nat :=
  match l with
  | [] => 0%nat
  | x :: t => argmax_from 0 x 1 t
  end.

Definition argmax (input : list (list R)) : list nat := map argmax_row input.

(** [tf.cast(x, tf.int32)] on an integer tensor: reduction into the
    signed 32-bit range. *)
Definition cast_int32 (z : Z) : Z :=
  ((z + 2147483648) mod 4294967296 - 2147483648)%Z.

(** [tf.one_hot(indices, depth)] with the default on and off values 1
    and 0. *)
Definition one_hot_row (depth : nat) (i : Z) : list R :=
  map (fun k => if (i =? Z.of_nat k)%Z then 1 else 0) (seq 0 depth).

Definition one_hot (indices : list Z) (depth : nat) : list (list R) :=
  map (one_hot_row depth) indices.

Module nn.

Definition relu (x : R) : R := Rmax x 0.

(** [softmax = exp(logits) / reduce_sum(exp(logits), axis=-1)]. *)
Definition softmax_row (l : list R) : list R :=
  map (fun x => exp x / Rsum (map exp l)) l.

Definition softmax (logits : list (list R)) : list (list R) :=
  map softmax_row logits.

Definition log_softmax_row (l : list R) : list R :=
  map (fun x => x - ln (Rsum (map exp l))) l.

(** Per-example loss [- sum_k labels[k] * log_softmax(logits)[k]]. *)
Definition softmax_cross_entropy_with_logits_row
           (labels logits : list R) : R :=
  - Rsum (map (fun p => fst p * snd p)
              (combine labels (log_softmax_row logits))).

(** [x / keep_prob * floor(keep_prob + u)] with [u] the uniform draw
    for that entry. *)
Definition dropout (x : list (list R)) (keep_prob : R)
           (noise : nat -> nat -> R) : list (list R) :=
  mapi (fun b row =>
          mapi (fun k v => v / keep_prob
                           * IZR (Int_part (keep_prob + noise b k))) row) x.

End nn.

Module layers.

Definition pad_before (p : padding) (k : nat) : Z :=
  match p with
  | same => Z.of_nat ((k - 1) / 2)
  | valid => 0%Z
  end.

(** Output extent of a stride-1 convolution. *)
Definition conv_out (p : padding) (n k : nat) : nat :=
  match p with
  | same => n
  | valid => (n + 1 - k)%nat
  end.

Definition conv_at (img : image) (kh kw : nat) (p : padding)
           (kernel : nat -> nat -> nat -> nat -> R)
           (f i j : nat) : R :=
  Rsum (map (fun di =>
    Rsum (map (fun dj =>
      dot (pixel_at img (Z.of_nat i + Z.of_nat di - pad_before p kh)
                        (Z.of_nat j + Z.of_nat dj - pad_before p kw))
          (fun c => kernel di dj c f))
      (seq 0 kw)))
    (seq 0 kh)).

(** [tf.layers.conv2d] with stride 1 and a bias, on one image. *)
Definition conv2d_image (img : image) (filters : nat)
           (kernel_size : nat * nat) (p : padding)
           (activation : R -> R)
           (kernel : nat -> nat -> nat -> nat -> R) (bias : nat -> R)
  : image :=
  let (kh, kw) := kernel_size in
  map (fun i =>
    map (fun j =>
      map (fun f => activation (conv_at img kh kw p kernel f i j + bias f))
          (seq 0 filters))
      (seq 0 (conv_out p (width img) kw)))
    (seq 0 (conv_out p (height img) kh)).

Definition conv2d (inputs : list image) (filters : nat)
           (kernel_size : nat * nat) (p : padding)
           (activation : R -> R)
           (kernel : nat -> nat -> nat -> nat -> R) (bias : nat -> R)
  : list image :=
  map (fun img => conv2d_image img filters kernel_size p activation
                               kernel bias)
      inputs.

(** Output extent of a pooling window without padding. *)
Definition pool_out (n k s : nat) : nat :=
  if (n <? k)%nat then 0%nat else ((n - k) / s + 1)%nat.

Definition window (img : image) (ph pw s i j c : nat) : list R :=
  flat_map (fun di =>
    map (fun dj => nth c (px img (i * s + di) (j * s + dj)) 0) (seq 0 pw))
    (seq 0 ph).

(** [tf.layers.max_pooling2d] with the default padding (none), on one
    image. *)
Definition max_pooling2d_image (img : image) (pool_size : nat * nat)
           (strides : nat) : image :=
  let (ph, pw) := pool_size in
  map (fun i =>
    map (fun j =>
      map (fun c => Rmax_list (window img ph pw strides i j c))
          (seq 0 (channels img)))
      (seq 0 (pool_out (width img) pw strides)))
    (seq 0 (pool_out (height img) ph strides)).

Definition max_pooling2d (inputs : list image) (pool_size : nat * nat)
           (strides : nat) : list image :=
  map (fun img => max_pooling2d_image img pool_size strides) inputs.

(** [tf.layers.dense]: [activation(inputs . kernel + bias)]. *)
Definition dense_row (row : list R) (units : nat) (activation : R -> R)
           (kernel : nat -> nat -> R) (bias : nat -> R) : list R :=
  map (fun u => activation (dot row (fun k => kernel k u) + bias u))
      (seq 0 units).

Definition dense (inputs : list (list R)) (units : nat)
           (activation : R -> R)
           (kernel : nat -> nat -> R) (bias : nat -> R) : list (list R) :=
  map (fun row => dense_row row units activation kernel bias) inputs.

(** [tf.layers.dropout]: [nn.dropout] with keep probability
    [1 - rate] when [training], the identity otherwise. *)
Definition dropout (inputs : list (list R)) (rate : R) (training : bool)
           (noise : nat -> nat -> R) : list (list R) :=
  if training then nn.dropout inputs (1 - rate) noise else inputs.

End layers.

Module losses.

(** Division that answers 0 unless the denominator is positive. *)
Definition safe_div (num den : R) : R :=
  if Rlt_dec 0 den then num / den else 0.

(** [tf.losses.softmax_cross_entropy] with unit weights and the
    default reduction: the per-example losses summed and divided by
    their number.  Logits and labels of different batch sizes are
    rejected. *)
Definition softmax_cross_entropy (onehot_labels logits : list (list R))
  : option R :=
  if (length onehot_labels =? length logits)%nat then
    Some (safe_div
            (Rsum (map (fun p => nn.softmax_cross_entropy_with_logits_row
                                   (fst p) (snd p))
                       (combine onehot_labels logits)))
            (INR (length logits)))
  else None.

End losses.

Module metrics.

(** A streaming mean ([tf.metrics.mean] and its users): running the
    update operation on one batch adds [total] and [count] to the
    two accumulators; the value is their safe quotient. *)
Record mean_update : Type := MeanUpdate { total : R; count : R }.

Definition mean_value (acc : mean_update) : R :=
  losses.safe_div (total acc) (count acc).

Definition accumulate (acc u : mean_update) : mean_update :=
  MeanUpdate (total acc + total u) (count acc + count u).

Definition is_correct (label : Z) (prediction : nat) : R :=
  if (label =? Z.of_nat prediction)%Z then 1 else 0.

(** [tf.metrics.accuracy(labels, predictions)]: the mean of the 0/1
    indicator that prediction and label agree; tensors of different
    length are rejected. *)
Definition accuracy (labels : list Z) (predictions : list nat)
  : option mean_update :=
  if (length labels =? length predictions)%nat then
    Some (MeanUpdate
            (Rsum (map (fun p => is_correct (fst p) (snd p))
                       (combine labels predictions)))
            (INR (length predictions)))
  else None.

End metrics.

Module train.

(** [tf.train.AdamOptimizer]; the remaining hyper-parameters keep
    their defaults. *)
Record Optimizer : Type := AdamOptimizer { learning_rate : R }.

Definition beta1 : R := 9 / 10.
Definition beta2 : R := 999 / 1000.
Definition epsilon : R := 1 / 100000000.

(** Optimizer state: first and second moment per variable entry and
    the running powers of the two decay rates. *)
Record AdamSlots : Type :=
  { m : Variables; v : Variables; beta1_power : R; beta2_power : R }.

Definition init_slots : AdamSlots :=
  {| m := fun _ _ => 0; v := fun _ _ => 0;
     beta1_power := beta1; beta2_power := beta2 |}.

(** One application of the Adam rule for gradient [g]. *)
Definition apply_gradients (o : Optimizer) (g : Variables)
           (vs : Variables) (sl : AdamSlots) : Variables * AdamSlots :=
  let lr_t := learning_rate o * sqrt (1 - beta2_power sl)
              / (1 - beta1_power sl) in
  let m' := fun n ix => beta1 * m sl n ix + (1 - beta1) * g n ix in
  let v' := fun n ix => beta2 * v sl n ix
                        + (1 - beta2) * (g n ix * g n ix) in
  (fun n ix => vs n ix - lr_t * m' n ix / (sqrt (v' n ix) + epsilon),
   {| m := m'; v := v';
      beta1_power := beta1_power sl * beta1;
      beta2_power := beta2_power sl * beta2 |}).

(** What [optimizer.minimize(loss, global_step)] returns: running it
    once applies one update and, when a global step was given, adds
    one to it. *)
Record TrainOp : Type :=
  { optimizer : Optimizer; increments_global_step : bool }.

Definition minimize (o : Optimizer) (global_step : bool) : TrainOp :=
  {| optimizer := o; increments_global_step := global_step |}.

(** [tf.train.LoggingTensorHook(tensors, every_n_iter)]: [tensors]
    maps a tag to the name of a graph tensor. *)
Record LoggingTensorHook : Type :=
  { tensors : list (string * string); every_n_iter : nat }.

(** The hook fires on its iterations 0, N, 2N, ...: on the first one,
    and then whenever N more have passed since it last fired. *)
Definition should_trigger (h : LoggingTensorHook)
           (last_triggered : option nat) (iter_count : nat) : bool :=
  match last_triggered with
  | None => true
  | Some l => (l + every_n_iter h <=? iter_count)%nat
  end.

(** State of the shuffle queue of [tf.train.shuffle_batch] with
    [enqueue_many=True]: the indices (into the data set) waiting in
    the queue, and how many elements the single enqueuing thread has
    pushed so far.  The thread pushes the data set in order, again
    and again. *)
Record shuffle_queue : Type :=
  { waiting : list nat; enqueued : nat }.

Definition empty_queue : shuffle_queue :=
  {| waiting := []; enqueued := 0 |}.

Fixpoint enqueue_n (size : nat) (n : nat) (q : shuffle_queue)
  : shuffle_queue :=
  match n with
  | O => q
  | S n' =>
      enqueue_n size n'
        {| waiting := waiting q ++ [(enqueued q mod size)%nat];
           enqueued := S (enqueued q) |}
  end.

(** The enqueuing thread runs ahead of the reader by an amount the
    scheduler decides: before a dequeue it has filled the queue to
    some level above [min_after_dequeue] and at most [capacity]. *)
Definition fill_level (capacity min_after_dequeue : nat) (sched : nat)
  : nat :=
  (min_after_dequeue + 1
   + sched mod (capacity - min_after_dequeue))%nat.

Definition refill (size level : nat) (q : shuffle_queue) : shuffle_queue :=
  enqueue_n size (level - length (waiting q)) q.

Definition remove_nth {A : Type} (k : nat) (l : list A) : list A :=
  firstn k l ++ skipn (S k) l.

(** Dequeue of one element: a uniformly drawn position of the queue. *)
Definition dequeue_one (size capacity min_after_dequeue : nat)
           (sched pick : nat) (q : shuffle_queue) : nat * shuffle_queue :=
  let q1 := refill size (fill_level capacity min_after_dequeue sched) q in
  let k := (pick mod length (waiting q1))%nat in
  (nth k (waiting q1) 0%nat,
   {| waiting := remove_nth k (waiting q1); enqueued := enqueued q1 |}).

(** Source of the scheduling and random decisions, one pair per
    dequeued element. *)
Definition queue_oracle : Type := nat -> nat * nat.

Fixpoint dequeue_many (size capacity min_after_dequeue : nat)
         (o : queue_oracle) (drawn : nat) (n : nat) (q : shuffle_queue)
  : list nat * shuffle_queue :=
  match n with
  | O => ([], q)
  | S n' =>
      let (i, q1) := dequeue_one size capacity min_after_dequeue
                                 (fst (o drawn)) (snd (o drawn)) q in
      let (rest, q2) := dequeue_many size capacity min_after_dequeue
                                     o (S drawn) n' q1 in
      (i :: rest, q2)
  end.

End train.

Module estimator.

Module ModeKeys.
Inductive t : Type := TRAIN | EVAL | PREDICT.

Definition eqb (a b : t) : bool :=
  match a, b with
  | TRAIN, TRAIN | EVAL, EVAL | PREDICT, PREDICT => true
  | _, _ => false
  end.
End ModeKeys.

(** The dictionary with keys ["classes"] and ["probabilities"]. *)
Record Predictions : Type :=
  { classes : list nat; probabilities : list (list R) }.

Module export.
Record PredictOutput : Type := { outputs : Predictions }.

(** A placeholder: element type float32 and a static shape whose
    unknown sizes are [None]. *)
Record placeholder : Type := { static_shape : list (option nat) }.

Record ServingInputReceiver : Type :=
  { features : list (string * placeholder);
    receiver_tensors : list (string * placeholder) }.
End export.

Record EstimatorSpec : Type :=
  { mode : ModeKeys.t;
    predictions : option Predictions;
    loss : option R;
    train_op : option train.TrainOp;
    eval_metric_ops : list (string * metrics.mean_update);
    export_outputs : list (string * export.PredictOutput) }.

(** What a call of the model function leaves in the graph besides
    its result: the tensors it named and the summaries it added. *)
Record Graph : Type :=
  { named : list (string * list (list R));
    names_in_use : list string;
    summaries : list string }.

End estimator.

End tf.

Import tf.estimator.

(** Graph names are made unique the way the framework does: the first
    use of a name keeps it, the next ones get the suffixes [_1], [_2],
    ... *)
Definition uses_of (name : string) (used : list string) : nat :=
  length (filter (String.eqb name) used).

Definition decimal (n : nat) : string :=
  NilEmpty.string_of_uint (Nat.to_uint n).

Definition unique_name (used : list string) (name : string) : string :=
  match uses_of name used with
  | O => name
  | n => (name ++ "_" ++ decimal n)%string
  end.

Definition empty_graph : Graph :=
  {| named := []; names_in_use := []; summaries := [] |}.

Definition name_tensor (g : Graph) (name : string) (value : list (list R))
  : Graph :=
  {| named := named g ++ [(unique_name (names_in_use g) name, value)];
     names_in_use := names_in_use g ++ [name];
     summaries := summaries g |}.

(** A layer opens a name scope under the name it was given or under its
    default name; the name is in use from then on. *)
Definition name_scope (g : Graph) (name : string) : Graph :=
  {| named := named g; names_in_use := names_in_use g ++ [name];
     summaries := summaries g |}.

(** A summary opens a name scope under its name and is filed under the
    name that scope gets: its own, or a unique one when that name is in
    use already. *)
Definition add_summary (g : Graph) (tag : string) : Graph :=
  {| named := named g; names_in_use := names_in_use g ++ [tag];
     summaries := summaries g ++ [unique_name (names_in_use g) tag] |}.

Fixpoint lookup {A : Type} (k : string) (d : list (string * A)) : option A :=
  match d with
  | [] => None
  | (k', a) :: d' => if String.eqb k k' then Some a else lookup k d'
  end.

Notation "x <- e ;; k" :=
  (match e with Some x => k | None => None end)
    (at level 61, e at next level, right associativity, only parsing).

(** ** The model function *)

Definition DEFAULT_SERVING_SIGNATURE_DEF_KEY : string := "serving_default".

Definition BATCH_SIZE : nat := 100.

Definition linear (x : R) : R := x.

(** [cnn_model_fn(features, labels, mode)].  The variables the layers
    read and the uniform noise the dropout layer draws are passed in. *)
Definition cnn_model_fn (vs : Variables) (noise : nat -> nat -> R)
           (features : string -> option tensor) (labels : option (list Z))
           (mode : ModeKeys.t) : option (EstimatorSpec * Graph) :=
  x <- features "x"%string ;;
  input_layer <- tf.reshape x [-1; 28; 28; 1]%Z ;;
  let conv1 :=
    tf.layers.conv2d (nhwc input_layer) 32 (5, 5)%nat same tf.nn.relu
                     (kernel4 vs conv2d_kernel) (bias1 vs conv2d_bias) in
  let g := name_scope empty_graph "conv2d" in
  let pool1 := tf.layers.max_pooling2d conv1 (2, 2)%nat 2 in
  let g := name_scope g "max_pooling2d" in
  let conv2 :=
    tf.layers.conv2d pool1 64 (5, 5)%nat same tf.nn.relu
                     (kernel4 vs conv2d_1_kernel) (bias1 vs conv2d_1_bias) in
  let g := name_scope g "conv2d" in
  let pool2 := tf.layers.max_pooling2d conv2 (2, 2)%nat 2 in
  let g := name_scope g "max_pooling2d" in
  pool2_flat <- tf.reshape (of_nhwc pool2) [-1; 7 * 7 * 64]%Z ;;
  let dense :=
    tf.layers.dense (rows_of pool2_flat) 1024 tf.nn.relu
                    (kernel2 vs dense1_kernel) (bias1 vs dense1_bias) in
  let g := name_scope g "dense1" in
  let dropout :=
    tf.layers.dropout dense (4 / 10) (ModeKeys.eqb mode ModeKeys.TRAIN)
                      noise in
  let g := name_scope g "dropout" in
  let logits :=
    tf.layers.dense dropout 10 linear
                    (kernel2 vs dense_kernel) (bias1 vs dense_bias) in
  let g := name_scope g "dense" in
  let predictions :=
    {| classes := tf.argmax logits;
       probabilities := tf.nn.softmax logits |} in
  let g := name_tensor g "softmax_tensor" (tf.nn.softmax logits) in
  let prediction_output :=
    {| export.outputs :=
         {| classes := tf.argmax logits;
            probabilities := tf.nn.softmax logits |} |} in
  let g := name_tensor g "softmax_tensor" (tf.nn.softmax logits) in
  match mode with
  | ModeKeys.PREDICT =>
      Some ({| mode := mode; predictions := Some predictions;
               loss := None; train_op := None; eval_metric_ops := [];
               export_outputs :=
                 [(DEFAULT_SERVING_SIGNATURE_DEF_KEY, prediction_output)] |},
            g)
  | _ =>
      labels <- labels ;;
      let onehot_labels := tf.one_hot (map tf.cast_int32 labels) 10 in
      loss <- tf.losses.softmax_cross_entropy onehot_labels logits ;;
      let g := add_summary g "loss" in
      let g := add_summary g "conv1" in
      let g := add_summary g "dense" in
      match mode with
      | ModeKeys.TRAIN =>
          let optimizer := tf.train.AdamOptimizer (1 / 10000) in
          let train_op := tf.train.minimize optimizer true in
          Some ({| mode := mode; predictions := None; loss := Some loss;
                   train_op := Some train_op; eval_metric_ops := [];
                   export_outputs := [] |}, g)
      | _ =>
          accuracy <- tf.metrics.accuracy labels (classes predictions) ;;
          let eval_metric_ops := [("accuracy"%string, accuracy)] in
          Some ({| mode := mode; predictions := None; loss := Some loss;
                   train_op := None; eval_metric_ops := eval_metric_ops;
                   export_outputs := [] |}, g)
      end
  end.

(** ** The world outside the script *)

Record DataSet : Type := { images : list (list R); labels : list Z }.

Record Datasets : Type :=
  { train : DataSet; validation : DataSet; test : DataSet }.

Definition num_examples (d : DataSet) : nat := length (images d).

Record Checkpoint : Type :=
  { global_step : nat; variables : Variables; slots : tf.train.AdamSlots }.

(** The exported bundle: the declared inputs, the signature it answers
    to and the variables frozen into it. *)
Record SavedModel : Type :=
  { inputs : list (string * export.placeholder);
    signatures : list string;
    frozen : Variables }.

Inductive exn : Type :=
| ValueError (msg : string)
| InvalidArgumentError (msg : string)
| IOError (msg : string)
| ZeroDivisionError (msg : string).

(** Outcome of a call into the framework: a value, an uncaught exception,
    or a call that never returns. *)
Inductive result (A : Type) : Type :=
| Ok (a : A)
| Raise (e : exn)
| Diverge.
Arguments Ok {A} a.
Arguments Raise {A} e.
Arguments Diverge {A}.

Inductive stage : Type := Load | Train | Evaluate | Predict | Export.

(** What an observer of the process sees, oldest first: a call into a
    stage and its normal return; one run of the train operation, on the
    examples with the given indices of the split and with the given
    optimizer; a tensor logged by a hook; one run of the evaluation
    graph on a batch; the two kinds of [print] of the script. *)
Inductive event : Type :=
| Enter (s : stage)
| Leave (s : stage)
| RunStep (iter : nat) (batch : list nat) (o : tf.train.Optimizer)
| LogTensor (iter : nat) (tag : string) (value : list (list R))
| RunEval (batch : list nat)
| PrintResults (d : list (string * R))
| PrintPrediction (class : nat) (probs : list R).

(** Everything the script does not decide: the files under the data
    directory, what the model directory holds at start, the initial
    values of the variables, automatic differentiation, the random
    draws, the scheduling of the queue thread and whether the disk takes
    the export. *)
Record World : Type :=
  { read_files : string -> option Datasets;
    found_checkpoint : string -> option Checkpoint;
    initial_value : Variables;
    gradients : (Variables -> R) -> Variables -> Variables;
    random_uniform : nat -> nat -> nat -> R;
    scheduler : tf.train.queue_oracle;
    np_shuffle : nat -> nat -> nat -> nat;
    queue_order : nat -> nat -> nat;
    can_write : string -> bool }.

Record Process : Type :=
  { checkpoint : option Checkpoint;
    exported : option SavedModel;
    console : list event }.

Definition IO (A : Type) : Type := Process -> result A * Process.

Definition ret {A : Type} (a : A) : IO A := fun p => (Ok a, p).

Definition bind {A B : Type} (c : IO A) (k : A -> IO B) : IO B :=
  fun p =>
    match c p with
    | (Ok a, p') => k a p'
    | (Raise e, p') => (Raise e, p')
    | (Diverge, p') => (Diverge, p')
    end.

Definition raise {A : Type} (e : exn) : IO A := fun p => (Raise e, p).

Definition diverge {A : Type} : IO A := fun p => (Diverge, p).

Definition emit (e : event) : IO unit :=
  fun p => (Ok tt, {| checkpoint := checkpoint p; exported := exported p;
                      console := console p ++ [e] |}).

Definition get_checkpoint : IO (option Checkpoint) :=
  fun p => (Ok (checkpoint p), p).

Definition save_checkpoint (c : Checkpoint) : IO unit :=
  fun p => (Ok tt, {| checkpoint := Some c; exported := exported p;
                      console := console p |}).

Definition write_export (m : SavedModel) : IO unit :=
  fun p => (Ok tt, {| checkpoint := checkpoint p; exported := Some m;
                      console := console p |}).

Notation "x <-- c ;;; k" := (bind c (fun x => k))
  (at level 61, c at next level, right associativity, only parsing).
Notation "c ;;; k" := (bind c (fun _ => k))
  (at level 61, right associativity, only parsing).

Fixpoint emit_all (es : list event) : IO unit :=
  match es with
  | [] => ret tt
  | e :: es' => emit e ;;; emit_all es'
  end.

(** ** Input pipelines *)

(** The two input functions of the script, as the state of the reader
    they create. *)
Inductive input_pipeline : Type :=
| ShuffleBatch (dataset : DataSet)
               (batch_size capacity min_after_dequeue : nat)
               (q : tf.train.shuffle_queue) (drawn : nat)
| NumpyInput (x : list (list R)) (y : list Z)
             (batch_size num_epochs : nat) (shuffle : bool) (pos : nat).

Inductive next_result : Type :=
| Batch (indices : list nat) (features : string -> option tensor)
        (batch_labels : list Z) (rest : input_pipeline)
| OutOfRange
| Blocked
| Invalid (e : exn).

Definition feature_dict (cols : nat) (rows : list (list R))
  : string -> option tensor :=
  fun key => if String.eqb key "x" then Some (of_rows cols rows) else None.

Definition gather {A : Type} (d : A) (l : list A) (indices : list nat)
  : list A :=
  map (fun i => nth i l d) indices.

Definition row_length (rows : list (list R)) : nat := length (hd [] rows).

(** An array or a constant asked for with the element type int32: values
    outside the type wrap around. *)
Definition as_int32 (l : list Z) : list Z := map tf.cast_int32 l.

(** The two constants of [_input_fn]: [tf.constant(dataset.images)] and
    [tf.constant(dataset.labels, dtype=tf.int32)]. *)
Definition constants (dataset : DataSet) : DataSet :=
  let X := images dataset in
  let Y := as_int32 (labels dataset) in
  {| images := X; labels := Y |}.

(** [generate_input_fn(dataset, batch_size)]: the closure [_input_fn],
    as the reader it sets up when called. *)
Definition generate_input_fn (dataset : DataSet) (batch_size : nat)
  : input_pipeline :=
  ShuffleBatch (constants dataset) batch_size
               (8 * batch_size) (4 * batch_size) tf.train.empty_queue 0.

(** [tf.estimator.inputs.numpy_input_fn(x, y, num_epochs, shuffle)] with
    the default batch size. *)
Definition numpy_input_fn (x : list (list R)) (y : list Z)
           (num_epochs : nat) (shuffle : bool) : input_pipeline :=
  NumpyInput x y 128 num_epochs shuffle 0.

(** What setting up the reader raises, if anything.  [shuffle_batch]
    wants a capacity above [min_after_dequeue] and, to enqueue many,
    tensors that agree in their first dimension; [numpy_input_fn] wants
    arrays of one length, and divides by that length. *)
Definition build_error (p : input_pipeline) : option exn :=
  match p with
  | ShuffleBatch ds _ cap mad _ _ =>
      if (cap <=? mad)%nat
      then Some (ValueError "capacity must be bigger than min_after_dequeue")
      else if negb (length (images ds) =? length (labels ds))%nat
      then Some (ValueError "Shapes must be equal in the first dimension")
      else None
  | NumpyInput x y _ _ _ _ =>
      if negb (length x =? length y)%nat
      then Some (ValueError "Length of tensors in x and y is mismatched")
      else if (length x =? 0)%nat
      then Some (ZeroDivisionError "integer division or modulo by zero")
      else None
  end.

Definition next_batch (w : World) (p : input_pipeline) : next_result :=
  match build_error p with
  | Some e => Invalid e
  | None =>
      match p with
      | ShuffleBatch ds bs cap mad q drawn =>
          if (num_examples ds =? 0)%nat then Blocked
          else
            let (idx, q') :=
              tf.train.dequeue_many (num_examples ds) cap mad (scheduler w)
                                    drawn bs q in
            Batch idx
                  (feature_dict (row_length (images ds))
                                (gather [] (images ds) idx))
                  (gather 0%Z (labels ds) idx)
                  (ShuffleBatch ds bs cap mad q' (drawn + bs))
      | NumpyInput x y bs ne sh pos =>
          let total := (ne * length x)%nat in
          if (total <=? pos)%nat then OutOfRange
          else
            let served := seq pos (Nat.min bs (total - pos)) in
            let idx :=
              map (fun k => if sh then queue_order w total k
                            else (k mod length x)%nat) served in
            Batch idx
                  (feature_dict (row_length x) (gather [] x idx))
                  (gather 0%Z y idx)
                  (NumpyInput x y bs ne sh (pos + bs))
      end
  end.

(** Number of batches a finite reader still has to give; [None] for a
    reader that never runs out. *)
Definition remaining (p : input_pipeline) : option nat :=
  match p with
  | ShuffleBatch _ _ _ _ _ _ => None
  | NumpyInput x _ bs ne _ pos =>
      Some ((ne * length x - pos + (bs - 1)) / bs)%nat
  end.

(** ** The estimator *)

Definition model_fn_t : Type :=
  Variables -> (nat -> nat -> R) -> (string -> option tensor) ->
  option (list Z) -> ModeKeys.t -> option (EstimatorSpec * Graph).

Record Estimator : Type := { model_fn : model_fn_t; model_dir : string }.

(** Constructor of the logging hook: the period must be positive. *)
Definition LoggingTensorHook (tensors : list (string * string))
           (every_n_iter : Z) : IO tf.train.LoggingTensorHook :=
  if (every_n_iter <=? 0)%Z then raise (ValueError "invalid every_n_iter")
  else ret {| tf.train.tensors := tensors;
              tf.train.every_n_iter := Z.to_nat every_n_iter |}.

Fixpoint fetch (g : Graph) (iter : nat) (tensors : list (string * string))
  : option (list event) :=
  match tensors with
  | [] => Some []
  | (tag, name) :: rest =>
      value <- lookup name (named g) ;;
      evs <- fetch g iter rest ;;
      Some (LogTensor iter tag value :: evs)
  end.

(** One hook around one run: it asks for its tensors when it is due and
    logs them after the run.  [None]: a tensor it names is not in the
    graph. *)
Definition run_hook (g : Graph) (iter : nat)
           (h : tf.train.LoggingTensorHook * option nat)
  : option (list event * (tf.train.LoggingTensorHook * option nat)) :=
  if tf.train.should_trigger (fst h) (snd h) iter then
    evs <- fetch g iter (tf.train.tensors (fst h)) ;;
    Some (evs, (fst h, Some iter))
  else Some ([], h).

Fixpoint run_hooks (g : Graph) (iter : nat)
         (hs : list (tf.train.LoggingTensorHook * option nat))
  : option (list event * list (tf.train.LoggingTensorHook * option nat)) :=
  match hs with
  | [] => Some ([], [])
  | h :: hs' =>
      r <- run_hook g iter h ;;
      rs <- run_hooks g iter hs' ;;
      Some (fst r ++ fst rs, snd r :: snd rs)
  end.

Record train_state : Type :=
  { vars : Variables;
    adam : tf.train.AdamSlots;
    step : nat;
    reader : input_pipeline;
    hook_states : list (tf.train.LoggingTensorHook * option nat) }.

(** The loss of one batch as a function of the variables, which is what
    the optimizer differentiates. *)
Definition loss_of (f : model_fn_t) (noise : nat -> nat -> R)
           (features : string -> option tensor) (batch_labels : list Z)
           (vs : Variables) : R :=
  match f vs noise features (Some batch_labels) ModeKeys.TRAIN with
  | Some (spec, _) => match loss spec with Some l => l | None => 0 end
  | None => 0
  end.

(** [n] more runs of the train operation; [iter] counts the runs of this
    call of [train] from 0. *)
Fixpoint train_loop (f : model_fn_t) (w : World) (n iter : nat)
         (ts : train_state) : IO train_state :=
  match n with
  | O => ret ts
  | S n' =>
      match next_batch w (reader ts) with
      | OutOfRange => ret ts
      | Blocked => diverge
      | Invalid e => raise e
      | Batch idx features batch_labels rest =>
          let noise := random_uniform w iter in
          match f (vars ts) noise features (Some batch_labels)
                  ModeKeys.TRAIN with
          | None => raise (InvalidArgumentError "model_fn")
          | Some (spec, g) =>
              match loss spec, train_op spec with
              | Some _, Some op =>
                  match run_hooks g iter (hook_states ts) with
                  | None => raise (ValueError "tensor not found in graph")
                  | Some (logs, hs') =>
                      let grad :=
                        gradients w (loss_of f noise features batch_labels)
                                  (vars ts) in
                      let (vs', sl') :=
                        tf.train.apply_gradients (tf.train.optimizer op) grad
                                                 (vars ts) (adam ts) in
                      emit (RunStep iter idx (tf.train.optimizer op)) ;;;
                      emit_all logs ;;;
                      if tf.train.increments_global_step op then
                        train_loop f w n' (S iter)
                                   {| vars := vs'; adam := sl';
                                      step := S (step ts); reader := rest;
                                      hook_states := hs' |}
                      else diverge
                  end
              | _, _ => raise (ValueError "Missing loss or train_op")
              end
          end
      end
  end.

Definition fresh_checkpoint (w : World) : Checkpoint :=
  {| global_step := 0; variables := initial_value w;
     slots := tf.train.init_slots |}.

(** [Estimator.train(input_fn, steps, hooks)].  The step count is
    checked first; then the graph is built, which calls the input
    function; then the session is created, from the latest checkpoint
    or from the initial values, and a checkpoint of that state is
    written; then the steps run and the final state is written. *)
Definition Estimator_train (est : Estimator) (w : World)
           (input_fn : input_pipeline) (steps : Z)
           (hooks : list tf.train.LoggingTensorHook) : IO unit :=
  emit (Enter Train) ;;;
  if (steps <=? 0)%Z then raise (ValueError "Must specify steps > 0")
  else
    match build_error input_fn with
    | Some e => raise e
    | None =>
        ck <-- get_checkpoint ;;;
        let start :=
          match ck with Some c => c | None => fresh_checkpoint w end in
        save_checkpoint start ;;;
        ts <-- train_loop (model_fn est) w (Z.to_nat steps) 0
                 {| vars := variables start; adam := slots start;
                    step := global_step start; reader := input_fn;
                    hook_states := map (fun h => (h, None)) hooks |} ;;;
        save_checkpoint {| global_step := step ts; variables := vars ts;
                           slots := adam ts |} ;;;
        emit (Leave Train)
    end.

Definition zero_mean : tf.metrics.mean_update := tf.metrics.MeanUpdate 0 0.

Definition update_metrics (acc ops : list (string * tf.metrics.mean_update))
  : list (string * tf.metrics.mean_update) :=
  map (fun op =>
         (fst op,
          tf.metrics.accumulate
            (match lookup (fst op) acc with Some a => a | None => zero_mean end)
            (snd op)))
      ops.

Fixpoint eval_loop (f : model_fn_t) (w : World) (vs : Variables) (n : nat)
         (p : input_pipeline)
         (acc : list (string * tf.metrics.mean_update))
         (loss_acc : tf.metrics.mean_update)
  : IO (list (string * tf.metrics.mean_update) * tf.metrics.mean_update) :=
  match n with
  | O => ret (acc, loss_acc)
  | S n' =>
      match next_batch w p with
      | OutOfRange => ret (acc, loss_acc)
      | Blocked => diverge
      | Invalid e => raise e
      | Batch idx features batch_labels rest =>
          match f vs (random_uniform w 0) features (Some batch_labels)
                  ModeKeys.EVAL with
          | None => raise (InvalidArgumentError "model_fn")
          | Some (spec, _) =>
              match loss spec with
              | None => raise (ValueError "Missing loss")
              | Some l =>
                  emit (RunEval idx) ;;;
                  eval_loop f w vs n' rest
                            (update_metrics acc (eval_metric_ops spec))
                            (tf.metrics.accumulate
                               loss_acc (tf.metrics.MeanUpdate l 1))
              end
          end
      end
  end.

(** [Estimator.evaluate(input_fn)]: until the input is exhausted.  The
    checkpoint is looked for before the graph is built. *)
Definition Estimator_evaluate (est : Estimator) (w : World)
           (input_fn : input_pipeline) : IO (list (string * R)) :=
  emit (Enter Evaluate) ;;;
  ck <-- get_checkpoint ;;;
  match ck with
  | None => raise (ValueError "Could not find trained model in model_dir")
  | Some c =>
      match build_error input_fn with
      | Some e => raise e
      | None =>
          match remaining input_fn with
          | None => diverge
          | Some n =>
              r <-- eval_loop (model_fn est) w (variables c) n input_fn
                      [] zero_mean ;;;
              emit (Leave Evaluate) ;;;
              ret (map (fun a => (fst a, tf.metrics.mean_value (snd a)))
                       (fst r)
                   ++ [("loss"%string, tf.metrics.mean_value (snd r));
                       ("global_step"%string, INR (global_step c))])
          end
      end
  end.

Fixpoint predict_loop (f : model_fn_t) (w : World) (vs : Variables) (n : nat)
         (p : input_pipeline) (body : nat * list R -> IO unit) : IO unit :=
  match n with
  | O => ret tt
  | S n' =>
      match next_batch w p with
      | OutOfRange => ret tt
      | Blocked => diverge
      | Invalid e => raise e
      | Batch _ features _ rest =>
          match f vs (random_uniform w 0) features None ModeKeys.PREDICT with
          | None => raise (InvalidArgumentError "model_fn")
          | Some (spec, _) =>
              match predictions spec with
              | None => raise (ValueError "Missing predictions")
              | Some ps =>
                  (fix each (l : list (nat * list R)) : IO unit :=
                     match l with
                     | [] => ret tt
                     | r :: l' => body r ;;; each l'
                     end) (combine (classes ps) (probabilities ps)) ;;;
                  predict_loop f w vs n' rest body
              end
          end
      end
  end.

(** [for p in Estimator.predict(input_fn): body(p)]: the generator runs
    the model as the loop asks for records, one record per example. *)
Definition Estimator_predict (est : Estimator) (w : World)
           (input_fn : input_pipeline) (body : nat * list R -> IO unit)
  : IO unit :=
  emit (Enter Predict) ;;;
  ck <-- get_checkpoint ;;;
  match ck with
  | None => raise (ValueError "Could not find trained model in model_dir")
  | Some c =>
      match build_error input_fn with
      | Some e => raise e
      | None =>
          match remaining input_fn with
          | None => diverge
          | Some n =>
              predict_loop (model_fn est) w (variables c) n input_fn body ;;;
              emit (Leave Predict)
          end
      end
  end.

(** The tensor standing for a placeholder while the graph is built: its
    unknown sizes are read as 0. *)
Definition symbolic (ph : export.placeholder) : tensor :=
  Tensor (map (fun d => match d with Some n => n | None => 0%nat end)
              (export.static_shape ph)) [].

(** [Estimator.export_savedmodel(export_dir_base,
    serving_input_receiver_fn)]. *)
Definition Estimator_export_savedmodel (est : Estimator) (w : World)
           (export_dir_base : string)
           (serving_input_receiver_fn : unit -> export.ServingInputReceiver)
  : IO unit :=
  emit (Enter Export) ;;;
  let receiver := serving_input_receiver_fn tt in
  ck <-- get_checkpoint ;;;
  match ck with
  | None => raise (ValueError "Couldn't find trained model")
  | Some c =>
      match model_fn est (variables c) (random_uniform w 0)
                     (fun key => option_map symbolic
                                   (lookup key (export.features receiver)))
                     None ModeKeys.PREDICT with
      | None => raise (InvalidArgumentError "model_fn")
      | Some (spec, _) =>
          match export_outputs spec with
          | [] => raise (ValueError "export_outputs must be a dict")
          | outs =>
              if can_write w export_dir_base then
                write_export {| inputs := export.receiver_tensors receiver;
                                signatures := map fst outs;
                                frozen := variables c |} ;;;
                emit (Leave Export)
              else raise (IOError export_dir_base)
          end
      end
  end.

(** A tensor fits a placeholder when the ranks agree and every declared
    size is met. *)
Fixpoint fits (declared : list (option nat)) (actual : list nat) : bool :=
  match declared, actual with
  | [], [] => true
  | None :: ds, _ :: s => fits ds s
  | Some d :: ds, n :: s => (d =? n)%nat && fits ds s
  | _, _ => false
  end.

(** ** The script *)

Record Flags : Type :=
  { data_dir : string; model_dir_flag : string;
    num_steps : Z; logging_hook_iter : Z }.

(** [input_data.read_data_sets(data_dir)]; every split pairs as many
    labels as images. *)
Definition consistent (d : DataSet) : bool :=
  (length (images d) =? length (labels d))%nat.

Definition read_data_sets (w : World) (dir : string) : IO Datasets :=
  emit (Enter Load) ;;;
  match read_files w dir with
  | None => raise (IOError dir)
  | Some d =>
      if consistent (train d) && consistent (validation d)
         && consistent (test d)
      then emit (Leave Load) ;;; ret d
      else raise (ValueError "images and labels differ in length")
  end.

(** The split with its examples taken in the order of the [k]-th
    shuffle of the index array: [perm = numpy.arange(n)],
    [numpy.random.shuffle(perm)], [images[perm]], [labels[perm]]. *)
Definition shuffled (w : World) (k : nat) (d : DataSet) : DataSet :=
  let n := num_examples d in
  let perm := map (fun i => (np_shuffle w k n i mod n)%nat) (seq 0 n) in
  {| images := gather [] (images d) perm;
     labels := gather 0%Z (labels d) perm |}.

(** [DataSet.next_batch(n)] on a split nothing was read from yet: the
    split is shuffled and its first [n] examples are returned; a split
    shorter than [n] is shuffled again and read from the start. *)
Definition DataSet_next_batch (w : World) (d : DataSet) (n : nat)
  : list (list R) * list Z :=
  let s := shuffled w 0 d in
  if (n <=? num_examples d)%nat then (firstn n (images s), firstn n (labels s))
  else
    let s2 := shuffled w 1 s in
    (images s ++ firstn (n - num_examples d) (images s2),
     labels s ++ firstn (n - num_examples d) (labels s2)).

Definition serving_input_receiver_fn (_ : unit) : export.ServingInputReceiver :=
  let feature_tensor := {| export.static_shape := [None; Some 784%nat] |} in
  {| export.features := [("x"%string, feature_tensor)];
     export.receiver_tensors := [("x"%string, feature_tensor)] |}.

Definition main (FLAGS : Flags) (w : World) : IO unit :=
  mnist <-- read_data_sets w (data_dir FLAGS) ;;;
  let eval_data := images (test mnist) in
  let eval_labels := as_int32 (labels (test mnist)) in
  let predict_data_batch := DataSet_next_batch w (test mnist) 20 in
  let mnist_classifier :=
    {| model_fn := cnn_model_fn; model_dir := model_dir_flag FLAGS |} in
  let tensors_to_log := [("probabilities", "softmax_tensor")]%string in
  logging_hook <-- LoggingTensorHook tensors_to_log
                     (logging_hook_iter FLAGS) ;;;
  Estimator_train mnist_classifier w
                  (generate_input_fn (train mnist) BATCH_SIZE)
                  (num_steps FLAGS) [logging_hook] ;;;
  let eval_input_fn := numpy_input_fn eval_data eval_labels 1 false in
  eval_results <-- Estimator_evaluate mnist_classifier w eval_input_fn ;;;
  emit (PrintResults eval_results) ;;;
  let predict_input_fn :=
    numpy_input_fn (fst predict_data_batch)
                   (as_int32 (snd predict_data_batch)) 1 false in
  Estimator_predict mnist_classifier w predict_input_fn
                    (fun p => emit (PrintPrediction (fst p) (snd p))) ;;;
  Estimator_export_savedmodel mnist_classifier w (model_dir_flag FLAGS)
                              serving_input_receiver_fn.

(** The process starts with whatever the model directory holds. *)
Definition start (FLAGS : Flags) (w : World) : Process :=
  {| checkpoint := found_checkpoint w (model_dir_flag FLAGS);
     exported := None; console := [] |}.

Definition run (FLAGS : Flags) (w : World) : result unit * Process :=
  main FLAGS w (start FLAGS w).

(** ** The architecture as the specification words it

    The specification lists the network as a chain of layers.  The chain
    is written down here as data, with an interpreter, so that the model
    function can be compared with it. *)

Inductive activation_fn : Type := ReLU | Linear.

Definition activation_of (a : activation_fn) : R -> R :=
  match a with
  | ReLU => tf.nn.relu
  | Linear => linear
  end.

Inductive layer : Type :=
| Conv2D (filters : nat) (kernel_size : nat * nat) (p : padding)
         (a : activation_fn) (kernel bias : var_name)
| MaxPool2D (pool_size : nat * nat) (strides : nat)
| Flatten (length_ : Z)
| Dense (units : nat) (a : activation_fn) (kernel bias : var_name)
| Dropout (rate : R) (training : bool).

(** What flows between layers: feature maps or vectors, one per example. *)
Inductive activations : Type :=
| Maps (x : list image)
| Vectors (x : list (list R)).

Definition apply_layer (vs : Variables) (noise : nat -> nat -> R)
           (l : layer) (a : activations) : option activations :=
  match l, a with
  | Conv2D filters ks p act k b, Maps x =>
      Some (Maps (tf.layers.conv2d x filters ks p (activation_of act)
                                   (kernel4 vs k) (bias1 vs b)))
  | MaxPool2D ps s, Maps x => Some (Maps (tf.layers.max_pooling2d x ps s))
  | Flatten n, Maps x =>
      t <- tf.reshape (of_nhwc x) [-1; n]%Z ;;
      Some (Vectors (rows_of t))
  | Dense units act k b, Vectors x =>
      Some (Vectors (tf.layers.dense x units (activation_of act)
                                     (kernel2 vs k) (bias1 vs b)))
  | Dropout rate training, Vectors x =>
      Some (Vectors (tf.layers.dropout x rate training noise))
  | _, _ => None
  end.

Fixpoint run_layers (vs : Variables) (noise : nat -> nat -> R)
         (ls : list layer) (a : activations) : option activations :=
  match ls with
  | [] => Some a
  | l :: ls' =>
      a' <- apply_layer vs noise l a ;;
      run_layers vs noise ls' a'
  end.

(** conv(32, 5x5, same, ReLU), maxpool(2x2, stride 2), conv(64, 5x5,
    same, ReLU), maxpool(2x2, stride 2), flatten, dense(1024, ReLU),
    dropout(0.4, train only), dense(10, linear). *)
Definition spec_architecture (mode : ModeKeys.t) : list layer :=
  [ Conv2D 32 (5, 5)%nat same ReLU conv2d_kernel conv2d_bias;
    MaxPool2D (2, 2)%nat 2;
    Conv2D 64 (5, 5)%nat same ReLU conv2d_1_kernel conv2d_1_bias;
    MaxPool2D (2, 2)%nat 2;
    Flatten (7 * 7 * 64);
    Dense 1024 ReLU dense1_kernel dense1_bias;
    Dropout (4 / 10) (ModeKeys.eqb mode ModeKeys.TRAIN);
    Dense 10 Linear dense_kernel dense_bias ].

(** Shapes of nested values. *)
Definition shape2 (n k : nat) (x : list (list R)) : Prop :=
  length x = n /\ Forall (fun r => length r = k) x.

Definition shape3 (h w c : nat) (img : image) : Prop :=
  length img = h
  /\ Forall (fun row => length row = w /\ Forall (fun p => length p = c) row)
            img.

Definition shape4 (n h w c : nat) (x : list image) : Prop :=
  length x = n /\ Forall (shape3 h w c) x.

Definition has_shape (a : activations) (s : list nat) : Prop :=
  match a, s with
  | Maps x, [n; h; w; c] => shape4 n h w c x
  | Vectors x, [n; k] => shape2 n k x
  | _, _ => False
  end.

(** The image view of a batch of flat rows. *)
Definition image_of_row (row : list R) : image :=
  map (chunks 1) (chunks 28 row).

Definition as_images (rows : list (list R)) : list image :=
  map image_of_row rows.

(** What the network computes for one example when dropout is off, and
    the class it predicts. *)
Definition example_logits (vs : Variables) (row : list R) : list R :=
  let conv1 :=
    tf.layers.conv2d_image (image_of_row row) 32 (5, 5)%nat same tf.nn.relu
                           (kernel4 vs conv2d_kernel) (bias1 vs conv2d_bias) in
  let pool1 := tf.layers.max_pooling2d_image conv1 (2, 2)%nat 2 in
  let conv2 :=
    tf.layers.conv2d_image pool1 64 (5, 5)%nat same tf.nn.relu
                           (kernel4 vs conv2d_1_kernel)
                           (bias1 vs conv2d_1_bias) in
  let pool2 := tf.layers.max_pooling2d_image conv2 (2, 2)%nat 2 in
  let dense :=
    tf.layers.dense_row (flat_image pool2) 1024 tf.nn.relu
                        (kernel2 vs dense1_kernel) (bias1 vs dense1_bias) in
  tf.layers.dense_row dense 10 linear
                      (kernel2 vs dense_kernel) (bias1 vs dense_bias).

Definition predicted_class (vs : Variables) (row : list R) : nat :=
  tf.argmax_row (example_logits vs row).

(** How many of the examples with the given indices are classified as
    their label says. *)
Definition correct_in (vs : Variables) (x : list (list R)) (y : list Z)
           (idx : list nat) : R :=
  Rsum (map (fun i => tf.metrics.is_correct (nth i y 0%Z)
                                            (predicted_class vs (nth i x [])))
            idx).

(** A batch of flat 28x28 images. *)
Definition valid_batch (rows : list (list R)) : bool :=
  forallb (fun r => (length r =? 784)%nat) rows.

(** The values after each layer of a chain, in order. *)
Fixpoint trace_layers (vs : Variables) (noise : nat -> nat -> R)
         (ls : list layer) (a : activations) : list activations :=
  match ls with
  | [] => []
  | l :: ls' =>
      match apply_layer vs noise l a with
      | Some a' => a' :: trace_layers vs noise ls' a'
      | None => []
      end
  end.

(** Softmax for the probabilities, argmax for the class; the loss is the
    categorical cross-entropy [- sum_k y_k ln p_k] of the probabilities
    against the one-hot labels, averaged over the batch. *)
Definition spec_predictions (logits : list (list R)) : Predictions :=
  {| classes := tf.argmax logits; probabilities := tf.nn.softmax logits |}.

Definition cross_entropy (y p : list R) : R :=
  - Rsum (map (fun yp => fst yp * ln (snd yp)) (combine y p)).

Definition spec_loss (labels_ : list Z) (logits : list (list R)) : R :=
  Rsum (map (fun yl => cross_entropy (tf.one_hot_row 10 (fst yl))
                                     (tf.nn.softmax_row (snd yl)))
            (combine labels_ logits))
  / INR (length logits).

(** The graph once the layers were built: the name scopes they opened,
    in order.  The two convolutions and the two poolings ask for the same
    default name; the first dense layer was named [dense1], so that the
    last one is the first to ask for [dense]. *)
Definition layer_scopes : Graph :=
  fold_left name_scope
            ["conv2d"; "max_pooling2d"; "conv2d"; "max_pooling2d";
             "dense1"; "dropout"; "dense"]%string
            empty_graph.

(** What the model function builds on top of the logits: predictions,
    named tensors, loss, train operation and metric, by mode. *)
Definition outputs_of (logits : list (list R)) (labels_ : option (list Z))
           (mode : ModeKeys.t) : option (EstimatorSpec * Graph) :=
  let ps := spec_predictions logits in
  let g := name_tensor (name_tensor layer_scopes "softmax_tensor"
                                    (tf.nn.softmax logits))
                       "softmax_tensor" (tf.nn.softmax logits) in
  match mode with
  | ModeKeys.PREDICT =>
      Some ({| mode := mode; predictions := Some ps;
               loss := None; train_op := None; eval_metric_ops := [];
               export_outputs :=
                 [(DEFAULT_SERVING_SIGNATURE_DEF_KEY,
                   {| export.outputs := ps |})] |}, g)
  | _ =>
      l <- labels_ ;;
      loss <- tf.losses.softmax_cross_entropy
                (tf.one_hot (map tf.cast_int32 l) 10) logits ;;
      let g := add_summary (add_summary (add_summary g "loss") "conv1")
                           "dense" in
      match mode with
      | ModeKeys.TRAIN =>
          Some ({| mode := mode; predictions := None; loss := Some loss;
                   train_op :=
                     Some (tf.train.minimize
                             (tf.train.AdamOptimizer (1 / 10000)) true);
                   eval_metric_ops := []; export_outputs := [] |}, g)
      | _ =>
          accuracy <- tf.metrics.accuracy l (classes ps) ;;
          Some ({| mode := mode; predictions := None; loss := Some loss;
                   train_op := None;
                   eval_metric_ops := [("accuracy"%string, accuracy)];
                   export_outputs := [] |}, g)
      end
  end.

(** The shapes the comments of the model function announce, layer by
    layer, for a batch of [n] examples. *)
Definition announced_shapes (n : nat) : list (list nat) :=
  [ [n; 28; 28; 32]; [n; 14; 14; 32]; [n; 14; 14; 64]; [n; 7; 7; 64];
    [n; 3136]; [n; 1024]; [n; 1024]; [n; 10] ]%nat.

(** Sample inputs: a blank image, variables that are all zero, noise
    that is all zero. *)
Definition blank_image : list R := repeat 0 784.
Definition zero_variables : Variables := fun _ _ => 0.
Definition no_noise : nat -> nat -> R := fun _ _ => 0.

(** ** What a run looks like to an observer *)

Definition is_stage_event (e : event) : bool :=
  match e with
  | Enter _ | Leave _ => true
  | _ => false
  end.

Definition stage_events (es : list event) : list event :=
  filter is_stage_event es.

(** load, train, evaluate, predict, export: each entered after the
    previous one was left. *)
Definition pipeline : list event :=
  [Enter Load; Leave Load; Enter Train; Leave Train;
   Enter Evaluate; Leave Evaluate; Enter Predict; Leave Predict;
   Enter Export; Leave Export].

Definition is_ok {A : Type} (r : result A) : bool :=
  match r with
  | Ok _ => true
  | _ => false
  end.

(** The optimizer of the script. *)
Definition adam_1e_4 : tf.train.Optimizer :=
  tf.train.AdamOptimizer (1 / 10000).

(** The console of a training run in which step [i] (counted from
    [iter]) ran the train operation on the batch [fst] and, when [i] is
    a multiple of [period], logged the tensor [snd] under the tag
    ["probabilities"]. *)
Fixpoint render (period iter : nat)
         (steps : list (list nat * list (list R))) : list event :=
  match steps with
  | [] => []
  | s :: rest =>
      RunStep iter (fst s) adam_1e_4
      :: (if (iter mod period =? 0)%nat
          then [LogTensor iter "probabilities" (snd s)] else [])
      ++ render period (S iter) rest
  end.

(** The data set pushed through the queue again and again: the first
    [k] elements the enqueuing thread pushes. *)
Definition pushed (size k : nat) : list nat :=
  map (fun i => (i mod size)%nat) (seq 0 k).

(** The process after more events were written to its console. *)
Definition log_to (p : Process) (es : list event) : Process :=
  {| checkpoint := checkpoint p; exported := exported p;
     console := console p ++ es |}.

(** State of a logging hook of period [period] before iteration [iter]:
    it has not fired yet and [iter] is 0, or it last fired at a multiple
    of the period, fewer than [period] iterations ago. *)
Definition hook_inv (period iter : nat) (last : option nat) : Prop :=
  match last with
  | None => iter = 0%nat
  | Some l => (l mod period = 0 /\ l < iter <= l + period)%nat
  end.

(** A training step on a split of [size] examples: a batch of BATCH_SIZE
    examples of the split and a logged tensor that holds ten values per
    example. *)
Definition step_ok (size : nat) (s : list nat * list (list R)) : Prop :=
  length (fst s) = BATCH_SIZE
  /\ Forall (fun i => (i < size)%nat) (fst s)
  /\ shape2 BATCH_SIZE 10 (snd s).

(** The batches a shuffling reader over [size] examples serves in its
    next [n] reads of [bs] examples each. *)
Fixpoint shuffle_batches (size cap mad bs : nat) (o : tf.train.queue_oracle)
         (n drawn : nat) (q : tf.train.shuffle_queue) : list (list nat) :=
  match n with
  | O => []
  | S n' =>
      let (idx, q') := tf.train.dequeue_many size cap mad o drawn bs q in
      idx :: shuffle_batches size cap mad bs o n' (drawn + bs) q'
  end.

(** The Adam method as it is published, for one entry [theta] of a
    variable with gradient [g], moments [m] and [v], step size [alpha],
    decay rates 0.9 and 0.999 and [b1t], [b2t] the powers of the decay
    rates for the current step:
      m' = 0.9 m + 0.1 g,   v' = 0.999 v + 0.001 g^2,
      theta' = theta - alpha sqrt(1 - b2t) / (1 - b1t) m' / (sqrt v' + 1e-8). *)
Definition adam_entry (alpha b1t b2t g theta m v : R) : R * R * R :=
  let m' := 9 / 10 * m + (1 - 9 / 10) * g in
  let v' := 999 / 1000 * v + (1 - 999 / 1000) * (g * g) in
  (theta - alpha * sqrt (1 - b2t) / (1 - b1t) * m' / (sqrt v' + 1 / 100000000),
   m', v').

(** Variables and optimizer state [after] are what one Adam update with
    step size [alpha] and gradient [g] makes of [before]. *)
Definition adam_update (alpha : R) (g : Variables)
           (before after : Variables * tf.train.AdamSlots) : Prop :=
  (forall n ix,
      (fst after n ix, tf.train.m (snd after) n ix, tf.train.v (snd after) n ix)
      = adam_entry alpha
                   (tf.train.beta1_power (snd before))
                   (tf.train.beta2_power (snd before))
                   (g n ix) (fst before n ix)
                   (tf.train.m (snd before) n ix)
                   (tf.train.v (snd before) n ix))
  /\ tf.train.beta1_power (snd after)
     = tf.train.beta1_power (snd before) * (9 / 10)
  /\ tf.train.beta2_power (snd after)
     = tf.train.beta2_power (snd before) * (999 / 1000).

(** One run of the train operation, number [iter], on the batch [fst s]
    of the data set: the network is run in train mode on the examples of
    the batch with the variables [before]; the tensor [snd s] is the
    softmax of the logits; the loss is the cross-entropy of the batch;
    and [after] is one Adam update with step size 1e-4 along the
    gradient of that loss. *)
Definition training_step (w : World) (ds : DataSet) (iter : nat)
           (s : list nat * list (list R))
           (before after : Variables * tf.train.AdamSlots) : Prop :=
  let rows := gather [] (images ds) (fst s) in
  let batch_labels := gather 0%Z (labels ds) (fst s) in
  let noise := random_uniform w iter in
  let batch_loss :=
    loss_of cnn_model_fn noise (feature_dict 784 rows) batch_labels in
  exists logits,
    run_layers (fst before) noise (spec_architecture ModeKeys.TRAIN)
               (Maps (as_images rows)) = Some (Vectors logits)
    /\ snd s = tf.nn.softmax logits
    /\ batch_loss (fst before)
       = spec_loss (map tf.cast_int32 batch_labels) logits
    /\ adam_update (1 / 10000) (gradients w batch_loss (fst before))
                   before after.

(** Consecutive runs of the train operation, the first one with number
    [iter]: each starts from what the one before it left. *)
Fixpoint training_steps (w : World) (ds : DataSet) (iter : nat)
         (steps : list (list nat * list (list R)))
         (before after : Variables * tf.train.AdamSlots) : Prop :=
  match steps with
  | [] => after = before
  | s :: rest =>
      exists mid,
        training_step w ds iter s before mid
        /\ training_steps w ds (S iter) rest mid after
  end.

(** The batches a one-epoch, unshuffled reader over [n] examples serves
    in its next [k] reads from position [pos]. *)
Fixpoint numpy_batches (bs n k pos : nat) : list (list nat) :=
  match k with
  | O => []
  | S k' =>
      if (n <=? pos)%nat then []
      else seq pos (Nat.min bs (n - pos)) :: numpy_batches bs n k' (pos + bs)
  end.

Definition acc_of (acc : list (string * tf.metrics.mean_update))
  : tf.metrics.mean_update :=
  match lookup "accuracy" acc with
  | Some a => a
  | None => zero_mean
  end.

(** The accuracy accumulators after the batches were evaluated. *)
Definition acc_after (vs : Variables) (x : list (list R)) (y : list Z)
           (acc : list (string * tf.metrics.mean_update))
           (batches : list (list nat))
  : list (string * tf.metrics.mean_update) :=
  match batches with
  | [] => acc
  | _ =>
      [("accuracy"%string,
        tf.metrics.MeanUpdate
          (tf.metrics.total (acc_of acc) + correct_in vs x y (concat batches))
          (tf.metrics.count (acc_of acc) + INR (length (concat batches))))]
  end.

(** The loss of the evaluation batch with the given indices. *)
Definition eval_batch_loss (vs : Variables) (x : list (list R)) (y : list Z)
           (idx : list nat) : R :=
  match tf.losses.softmax_cross_entropy
          (tf.one_hot (map tf.cast_int32 (gather 0%Z y idx)) 10)
          (map (example_logits vs) (gather [] x idx)) with
  | Some l => l
  | None => 0
  end.

Definition loss_after (vs : Variables) (x : list (list R)) (y : list Z)
           (la : tf.metrics.mean_update) (batches : list (list nat))
  : tf.metrics.mean_update :=
  fold_left (fun a b => tf.metrics.accumulate
                          a (tf.metrics.MeanUpdate
                               (eval_batch_loss vs x y b) 1))
            batches la.

(** Ways a computation can show up in the stage events of the console:
    not at all; by leaving stage [s] exactly when it returns; by entering
    [s] and leaving it exactly when it returns. *)
Definition quiet {A : Type} (c : IO A) : Prop :=
  forall p, stage_events (console (snd (c p))) = stage_events (console p).

Definition leaves {A : Type} (s : stage) (c : IO A) : Prop :=
  forall p,
    stage_events (console (snd (c p)))
    = stage_events (console p)
      ++ (if is_ok (fst (c p)) then [Leave s] else []).

Definition staged {A : Type} (s : stage) (c : IO A) : Prop :=
  forall p,
    stage_events (console (snd (c p)))
    = stage_events (console p)
      ++ Enter s :: (if is_ok (fst (c p)) then [Leave s] else []).

Definition in_turn (ss : list stage) : list event :=
  flat_map (fun s => [Enter s; Leave s]) ss.

(** A computation that goes through the stages [ss] in turn: when it
    returns it has entered and left each of them, in order; when it does
    not, it has stopped part of the way. *)
Definition goes_through {A : Type} (ss : list stage) (c : IO A) : Prop :=
  forall p,
    (is_ok (fst (c p)) = true
     /\ stage_events (console (snd (c p)))
        = stage_events (console p) ++ in_turn ss)
    \/ (is_ok (fst (c p)) = false
        /\ exists evs rest,
             stage_events (console (snd (c p)))
             = stage_events (console p) ++ evs
             /\ evs ++ rest = in_turn ss
             /\ rest <> []).

(** The bundle the export step writes for the script. *)
Definition serving_bundle (vs : Variables) : SavedModel :=
  {| inputs := [("x"%string,
                 {| export.static_shape := [None; Some 784%nat] |})];
     signatures := [DEFAULT_SERVING_SIGNATURE_DEF_KEY];
     frozen := vs |}.

(** The iterations at which the console shows a run of the train
    operation, and those at which it shows a logged tensor. *)
Definition run_iters (es : list event) : list nat :=
  flat_map (fun e => match e with RunStep i _ _ => [i] | _ => [] end) es.

Definition logged_iters (es : list event) : list nat :=
  flat_map (fun e => match e with LogTensor i _ _ => [i] | _ => [] end) es.

(** A split of three blank images. *)
Definition sample_split : DataSet :=
  {| images := repeat blank_image 3; labels := [1; 2; 3]%Z |}.

Definition fresh_process : Process :=
  {| checkpoint := None; exported := None; console := [] |}.

(** A world whose files hold three copies of the sample split, and the
    flags of a short run. *)
Definition sample_world : World :=
  {| read_files := fun _ => Some {| train := sample_split;
                                    validation := sample_split;
                                    test := sample_split |};
     found_checkpoint := fun _ => None;
     initial_value := zero_variables;
     gradients := fun _ vs => vs;
     random_uniform := fun _ _ _ => 0;
     scheduler := fun k => (k, (7 * k)%nat);
     np_shuffle := fun _ _ i => i;
     queue_order := fun _ k => k;
     can_write := fun _ => true |}.

Definition short_run_flags : Flags :=
  {| data_dir := "/tmp/MNIST_data";
     model_dir_flag := "/tmp/tfmodels/mnist_cnn_estimator/0";
     num_steps := 2; logging_hook_iter := 1 |}.

(** The flags of a run that asks for zero training steps. *)
Definition zero_step_flags : Flags :=
  {| data_dir := "/tmp/MNIST_data";
     model_dir_flag := "/tmp/tfmodels/mnist_cnn_estimator/0";
     num_steps := 0; logging_hook_iter := 5000 |}.

(** Two examples of 392 values each: half an image per example. *)
Definition half_rows : list (list R) := [repeat 0 392; repeat 0 392].

(** The values an int32 tensor can hold. *)
Definition int32 (z : Z) : Prop := (-2147483648 <= z < 2147483648)%Z.

(** ** Notions used by the further properties *)

(** The loss of one example as the negative log-likelihood of its label
    under the predicted distribution. *)
Definition negative_log_likelihood (label : Z) (probs : list R) : R :=
  - ln (nth (Z.to_nat label) probs 0).

(** The loss of one example whose label, as an int32 value, is [c]: the
    negative log of the probability the logits give to class [c] when
    [c] is one of 0..9, and 0 otherwise. *)
Definition example_loss (c : Z) (logits_row : list R) : R :=
  if ((0 <=? c) && (c <=? 9))%Z
  then negative_log_likelihood c (tf.nn.softmax_row logits_row)
  else 0.

(** The summaries the model function adds in a mode. *)
Definition summaries_in (mode : ModeKeys.t) : list string :=
  match mode with
  | ModeKeys.PREDICT => []
  | _ => ["loss"; "conv1"; "dense_1"]%string
  end.

(** What the network predicts for one example. *)
Definition example_probabilities (vs : Variables) (row : list R) : list R :=
  tf.nn.softmax_row (example_logits vs row).

(** A reader set up by [generate_input_fn] for batches of [bs] examples
    that has served the examples [seen] so far: what it served together
    with what waits in its queue is what the enqueuing thread pushed, at
    most [8 * bs] examples wait, and once a batch was served at least
    [4 * bs] do. *)
Definition shuffle_reader (ds : DataSet) (bs : nat) (seen : list nat)
           (r : input_pipeline) : Prop :=
  exists q drawn,
    r = ShuffleBatch ds bs (8 * bs) (4 * bs) q drawn
    /\ Permutation (seen ++ tf.train.waiting q)
                   (pushed (num_examples ds) (tf.train.enqueued q))
    /\ (length (tf.train.waiting q) <= 8 * bs)%nat
    /\ (seen = [] \/ 4 * bs <= length (tf.train.waiting q))%nat.

(** The record the prediction loop of the script prints for one
    example. *)
Definition prediction_record (vs : Variables) (row : list R) : event :=
  PrintPrediction (predicted_class vs row) (example_probabilities vs row).

(** A computation that leaves a part of the process as it found it. *)
Definition keeps {A B : Type} (part : Process -> B) (c : IO A) : Prop :=
  forall p, part (snd (c p)) = part p.

(** A computation that writes an export, if at all, as the last thing
    before it returns normally. *)
Definition exports_on_success {A : Type} (c : IO A) : Prop :=
  forall p, exported (snd (c p)) = exported p \/ is_ok (fst (c p)) = true.

(** The stage an event belongs to: the runs of the train operation and
    the logged tensors to training, the runs of the evaluation graph and
    the print of the results to evaluation, the printed predictions to
    prediction. *)
Definition stage_of (e : event) : stage :=
  match e with
  | Enter s | Leave s => s
  | RunStep _ _ _ | LogTensor _ _ _ => Train
  | RunEval _ | PrintResults _ => Evaluate
  | PrintPrediction _ _ => Predict
  end.

(** A computation that only adds to the console, and only events of the
    given stages. *)
Definition only_adds {A : Type} (ss : list stage) (c : IO A) : Prop :=
  forall p,
    exists es,
      console (snd (c p)) = console p ++ es
      /\ Forall (fun e => In (stage_of e) ss) es.

(** The script from the prediction step on, and from the evaluation step
    on, once the data set is loaded. *)
Definition after_evaluation (FLAGS : Flags) (w : World) (mnist : Datasets)
  : IO unit :=
  let predict_data_batch := DataSet_next_batch w (test mnist) 20 in
  let mnist_classifier :=
    {| model_fn := cnn_model_fn; model_dir := model_dir_flag FLAGS |} in
  let predict_input_fn :=
    numpy_input_fn (fst predict_data_batch)
                   (as_int32 (snd predict_data_batch)) 1 false in
  Estimator_predict mnist_classifier w predict_input_fn
                    (fun p => emit (PrintPrediction (fst p) (snd p))) ;;;
  Estimator_export_savedmodel mnist_classifier w (model_dir_flag FLAGS)
                              serving_input_receiver_fn.

Definition after_training (FLAGS : Flags) (w : World) (mnist : Datasets)
  : IO unit :=
  let eval_data := images (test mnist) in
  let eval_labels := as_int32 (labels (test mnist)) in
  let mnist_classifier :=
    {| model_fn := cnn_model_fn; model_dir := model_dir_flag FLAGS |} in
  let eval_input_fn := numpy_input_fn eval_data eval_labels 1 false in
  eval_results <-- Estimator_evaluate mnist_classifier w eval_input_fn ;;;
  emit (PrintResults eval_results) ;;;
  after_evaluation FLAGS w mnist.

(** The batches the console shows the evaluation graph was run on, and
    the results it shows printed. *)
Definition eval_runs (es : list event) : list (list nat) :=
  flat_map (fun e => match e with RunEval b => [b] | _ => [] end) es.

Definition printed_results (es : list event) : list (list (string * R)) :=
  flat_map (fun e => match e with PrintResults r => [r] | _ => [] end) es.

(** A world like the sample world in which the queue thread fills the
    queue to the same level before every draw and the draws fall on
    every other position, and the flags of a run of one step. *)
Definition repeating_world : World :=
  {| read_files := read_files sample_world;
     found_checkpoint := found_checkpoint sample_world;
     initial_value := initial_value sample_world;
     gradients := gradients sample_world;
     random_uniform := random_uniform sample_world;
     scheduler := fun k => (0, 2 * k)%nat;
     np_shuffle := np_shuffle sample_world;
     queue_order := queue_order sample_world;
     can_write := can_write sample_world |}.

(** Files whose train split holds no example, and the sample world
    reading them. *)
Definition empty_train_files : Datasets :=
  {| train := {| images := []; labels := [] |};
     validation := sample_split; test := sample_split |}.

Definition empty_train_world : World :=
  {| read_files := fun _ => Some empty_train_files;
     found_checkpoint := found_checkpoint sample_world;
     initial_value := initial_value sample_world;
     gradients := gradients sample_world;
     random_uniform := random_uniform sample_world;
     scheduler := scheduler sample_world;
     np_shuffle := np_shuffle sample_world;
     queue_order := queue_order sample_world;
     can_write := can_write sample_world |}.

(** * Properties *)

(** ** Lists and blocks *)

Lemma mapi_length {A B : Type} (f : nat -> A -> B) (l : list A) :
  length (mapi f l) = length l.
Proof.
  unfold mapi. rewrite length_map, length_combine, length_seq.
  apply Nat.min_id.
Qed.

Lemma chunks_length {A : Type} (k : nat) (l : list A) :
  length (chunks k l) = (length l / k)%nat.
Proof. unfold chunks. now rewrite length_map, length_seq. Qed.

Lemma chunks_Forall {A : Type} (k : nat) (l : list A) :
  (0 < k)%nat -> Forall (fun c => length c = k) (chunks k l).
Proof.
  intros Hk. apply Forall_forall. intros c Hc.
  unfold chunks in Hc. apply in_map_iff in Hc.
  destruct Hc as [i [<- Hi]]. apply in_seq in Hi.
  rewrite length_firstn, length_skipn.
  assert (H1 : (S i <= length l / k)%nat) by lia.
  assert (H2 : (k * (length l / k) <= length l)%nat)
    by (apply Nat.Div0.mul_div_le).
  assert (H3 : (k * S i <= k * (length l / k))%nat)
    by (apply Nat.mul_le_mono_l; exact H1).
  nia.
Qed.

Lemma chunks_cons {A : Type} (k : nat) (r l : list A) :
  (0 < k)%nat -> length r = k -> chunks k (r ++ l) = r :: chunks k l.
Proof.
  intros Hk Hr. unfold chunks.
  rewrite length_app, Hr.
  replace (k + length l)%nat with (1 * k + length l)%nat by lia.
  rewrite Nat.div_add_l by lia.
  change (1 + length l / k)%nat with (S (length l / k)).
  rewrite <- cons_seq, <- seq_shift, map_cons, map_map.
  f_equal.
  - simpl. rewrite firstn_app, Hr, Nat.sub_diag, firstn_O, app_nil_r.
    rewrite <- Hr. apply firstn_all.
  - apply map_ext. intros i.
    replace (S i * k)%nat with (length r + i * k)%nat by (rewrite Hr; lia).
    now rewrite skipn_app, skipn_all2, Nat.add_comm, Nat.add_sub by lia.
Qed.

Lemma chunks_concat {A : Type} (k : nat) (rows : list (list A)) :
  (0 < k)%nat -> Forall (fun r => length r = k) rows ->
  chunks k (concat rows) = rows.
Proof.
  intros Hk H. induction H as [|r rows Hr _ IH]; simpl.
  - unfold chunks. simpl. now rewrite Nat.Div0.div_0_l.
  - rewrite chunks_cons by assumption. now rewrite IH.
Qed.

Lemma concat_length_uniform {A : Type} (k : nat) (rows : list (list A)) :
  Forall (fun r => length r = k) rows ->
  length (concat rows) = (length rows * k)%nat.
Proof.
  induction 1 as [|r rows Hr _ IH]; simpl; [reflexivity|].
  rewrite length_app, Hr, IH. lia.
Qed.

(** ** Softmax and argmax on one row *)

Lemma exp_sum_pos (l : list R) : l <> [] -> 0 < Rsum (map exp l).
Proof.
  destruct l as [|x t]; [congruence|]. intros _. simpl.
  assert (Hx := exp_pos x).
  assert (Ht : 0 <= Rsum (map exp t)).
  { induction t as [|y t IH]; simpl; [lra|]. assert (Hy := exp_pos y). lra. }
  lra.
Qed.

Lemma Rsum_map_scale (c : R) (f : R -> R) (l : list R) :
  Rsum (map (fun x => f x / c) l) = Rsum (map f l) / c.
Proof.
  induction l as [|x t IH]; simpl.
  - unfold Rdiv. now rewrite Rmult_0_l.
  - rewrite IH. unfold Rdiv. ring.
Qed.

Lemma softmax_row_sum (l : list R) :
  l <> [] -> Rsum (tf.nn.softmax_row l) = 1.
Proof.
  intros Hl. unfold tf.nn.softmax_row.
  rewrite Rsum_map_scale. apply Rdiv_diag.
  apply Rgt_not_eq, Rlt_gt, exp_sum_pos, Hl.
Qed.

Lemma softmax_row_length (l : list R) :
  length (tf.nn.softmax_row l) = length l.
Proof. apply length_map. Qed.

Lemma softmax_row_pos (l : list R) :
  Forall (fun p => 0 < p) (tf.nn.softmax_row l).
Proof.
  apply Forall_forall. intros p Hp.
  unfold tf.nn.softmax_row in Hp. apply in_map_iff in Hp.
  destruct Hp as [x [<- Hx]].
  apply Rdiv_lt_0_compat; [apply exp_pos|].
  apply exp_sum_pos. intros ->. contradiction.
Qed.

(** A strictly increasing map does not move the argmax. *)
Lemma argmax_from_map (f : R -> R) :
  (forall a b, a < b -> f a < f b) ->
  forall l bi b i,
    argmax_from bi (f b) i (map f l) = argmax_from bi b i l.
Proof.
  intros Hf. induction l as [|x t IH]; intros bi b i; simpl; [reflexivity|].
  destruct (Rlt_dec (f b) (f x)) as [H1|H1], (Rlt_dec b x) as [H2|H2].
  - apply IH.
  - exfalso. destruct (Rle_lt_or_eq_dec x b) as [H3|H3]; [lra| |].
    + specialize (Hf x b H3). lra.
    + subst. lra.
  - exfalso. apply H1, Hf, H2.
  - apply IH.
Qed.

Lemma argmax_softmax_row (l : list R) :
  tf.argmax_row (tf.nn.softmax_row l) = tf.argmax_row l.
Proof.
  destruct l as [|x t]; [reflexivity|].
  unfold tf.nn.softmax_row, tf.argmax_row.
  set (S := Rsum (map exp (x :: t))).
  assert (HS : 0 < S) by (apply exp_sum_pos; discriminate).
  rewrite map_cons.
  apply (argmax_from_map (fun y => exp y / S)).
  intros a b Hab. apply Rmult_lt_compat_r.
  - now apply Rinv_0_lt_compat.
  - now apply exp_increasing.
Qed.

(** The scan returns the least index that holds the largest entry. *)
Lemma argmax_from_spec :
  forall l pre bi,
    (bi < length pre)%nat ->
    (forall j, (j < length pre)%nat -> nth j pre 0 <= nth bi pre 0) ->
    (forall j, (j < bi)%nat -> nth j pre 0 < nth bi pre 0) ->
    let r := argmax_from bi (nth bi pre 0) (length pre) l in
    (r < length (pre ++ l))%nat
    /\ (forall j, (j < length (pre ++ l))%nat ->
                  nth j (pre ++ l) 0 <= nth r (pre ++ l) 0)
    /\ (forall j, (j < r)%nat -> nth j (pre ++ l) 0 < nth r (pre ++ l) 0).
Proof.
  induction l as [|x t IH]; intros pre bi Hbi Hmax Hfirst; simpl.
  - rewrite app_nil_r. auto.
  - assert (Hlen : length (pre ++ [x]) = S (length pre))
      by (rewrite length_app; simpl; lia).
    assert (Hold : forall j, (j < length pre)%nat ->
                             nth j (pre ++ [x]) 0 = nth j pre 0)
      by (intros j Hj; now rewrite app_nth1).
    assert (Hnew : nth (length pre) (pre ++ [x]) 0 = x)
      by (rewrite app_nth2, Nat.sub_diag by lia; reflexivity).
    replace (pre ++ x :: t) with ((pre ++ [x]) ++ t)
      by (now rewrite <- app_assoc).
    destruct (Rlt_dec (nth bi pre 0) x) as [Hlt|Hge].
    + specialize (IH (pre ++ [x]) (length pre)).
      rewrite Hlen, Hnew in IH. apply IH.
      * lia.
      * intros j Hj. destruct (Nat.eq_dec j (length pre)) as [->|Hne].
        -- rewrite Hnew. lra.
        -- rewrite Hold by lia. specialize (Hmax j ltac:(lia)). lra.
      * intros j Hj. rewrite Hold by lia.
        specialize (Hmax j Hj). lra.
    + specialize (IH (pre ++ [x]) bi).
      rewrite Hlen, (Hold bi Hbi) in IH. apply IH.
      * lia.
      * intros j Hj. destruct (Nat.eq_dec j (length pre)) as [->|Hne].
        -- rewrite Hnew. lra.
        -- rewrite Hold by lia. apply Hmax. lia.
      * intros j Hj. rewrite Hold by lia. now apply Hfirst.
Qed.

Lemma argmax_row_spec (l : list R) :
  l <> [] ->
  (tf.argmax_row l < length l)%nat
  /\ (forall j, (j < length l)%nat -> nth j l 0 <= nth (tf.argmax_row l) l 0)
  /\ (forall j, (j < tf.argmax_row l)%nat ->
                nth j l 0 < nth (tf.argmax_row l) l 0).
Proof.
  destruct l as [|x t]; [congruence|]. intros _.
  unfold tf.argmax_row.
  apply (argmax_from_spec t [x] 0%nat); simpl.
  - lia.
  - intros j Hj. replace j with 0%nat by lia. lra.
  - intros j Hj. lia.
Qed.

(** ** Shape inference of reshape *)

Lemma bad_dims_of_nat (dims : list nat) :
  bad_dims (map Z.of_nat dims) = false.
Proof.
  unfold bad_dims. induction dims as [|d t IH]; simpl; [reflexivity|].
  rewrite IH, orb_false_r. apply Z.ltb_ge. lia.
Qed.

Lemma known_dims_of_nat (dims : list nat) :
  known_dims (map Z.of_nat dims) = dims.
Proof.
  unfold known_dims. induction dims as [|d t IH]; simpl; [reflexivity|].
  replace (0 <=? Z.of_nat d)%Z with true by (symmetry; apply Z.leb_le; lia).
  simpl. now rewrite Nat2Z.id, IH.
Qed.

Lemma wildcards_of_nat (dims : list nat) :
  wildcards (map Z.of_nat dims) = 0%nat.
Proof.
  unfold wildcards. induction dims as [|d t IH]; simpl; [reflexivity|].
  replace (Z.of_nat d =? -1)%Z with false
    by (symmetry; apply Z.eqb_neq; lia).
  exact IH.
Qed.

Lemma fill_of_nat (q : nat) (dims : list nat) :
  map (fun d => if (d =? -1)%Z then q else Z.to_nat d) (map Z.of_nat dims)
  = dims.
Proof.
  induction dims as [|d t IH]; simpl; [reflexivity|].
  replace (Z.of_nat d =? -1)%Z with false
    by (symmetry; apply Z.eqb_neq; lia).
  now rewrite Nat2Z.id, IH.
Qed.

(** A leading wildcard is resolved exactly when the remaining sizes
    divide the number of elements. *)
Lemma resolve_shape_leading (total : nat) (dims : list nat) :
  numel dims <> 0%nat ->
  resolve_shape total ((-1)%Z :: map Z.of_nat dims)
  = if (total mod numel dims =? 0)%nat
    then Some ((total / numel dims)%nat :: dims) else None.
Proof.
  intros Hk. unfold resolve_shape.
  assert (Hb : bad_dims ((-1)%Z :: map Z.of_nat dims) = false).
  { unfold bad_dims. simpl. apply (bad_dims_of_nat dims). }
  assert (Hkn : known_dims ((-1)%Z :: map Z.of_nat dims) = dims).
  { unfold known_dims. simpl. apply (known_dims_of_nat dims). }
  assert (Hw : wildcards ((-1)%Z :: map Z.of_nat dims) = 1%nat).
  { unfold wildcards. simpl. f_equal. apply (wildcards_of_nat dims). }
  rewrite Hb, Hkn, Hw.
  destruct (numel dims =? 0)%nat eqn:E; [apply Nat.eqb_eq in E; lia|].
  destruct (total mod numel dims =? 0)%nat; [|reflexivity].
  rewrite map_cons, fill_of_nat. reflexivity.
Qed.

Lemma reshape_leading (t : tensor) (dims : list nat) :
  numel dims <> 0%nat ->
  tf.reshape t ((-1)%Z :: map Z.of_nat dims)
  = if (length (values t) mod numel dims =? 0)%nat
    then Some (Tensor ((length (values t) / numel dims)%nat :: dims)
                      (values t))
    else None.
Proof.
  intros Hk. unfold tf.reshape. rewrite resolve_shape_leading by exact Hk.
  now destruct (length (values t) mod numel dims =? 0)%nat.
Qed.

Lemma numel_image : numel [28; 28; 1]%nat = 784%nat.
Proof. reflexivity. Qed.

Lemma numel_flat : numel [3136]%nat = 3136%nat.
Proof. reflexivity. Qed.

Lemma target_image : [-1; 28; 28; 1]%Z = (-1)%Z :: map Z.of_nat [28; 28; 1]%nat.
Proof. reflexivity. Qed.

Lemma target_flat : [-1; 7 * 7 * 64]%Z = (-1)%Z :: map Z.of_nat [3136]%nat.
Proof. reflexivity. Qed.

(** The first reshape of the model function succeeds exactly on inputs
    whose number of elements is a multiple of 784. *)
Lemma reshape_input (t : tensor) :
  tf.reshape t [-1; 28; 28; 1]%Z
  = if (length (values t) mod 784 =? 0)%nat
    then Some (Tensor [(length (values t) / 784)%nat; 28; 28; 1]%nat
                      (values t))
    else None.
Proof.
  rewrite target_image, reshape_leading; rewrite numel_image;
    [reflexivity | discriminate].
Qed.

Lemma reshape_flat (t : tensor) :
  tf.reshape t [-1; 7 * 7 * 64]%Z
  = if (length (values t) mod 3136 =? 0)%nat
    then Some (Tensor [(length (values t) / 3136)%nat; 3136]%nat (values t))
    else None.
Proof.
  rewrite target_flat, reshape_leading; rewrite numel_flat;
    [reflexivity | discriminate].
Qed.

(** ** Shapes through the layers *)

Lemma shape3_width (h w c : nat) (img : image) :
  shape3 h w c img -> (0 < h)%nat -> width img = w.
Proof.
  intros [Hh Hrows] Hpos. destruct img as [|r0 rest]; simpl in *; [lia|].
  unfold width. simpl. inversion Hrows as [|? ? [Hr _] _]. exact Hr.
Qed.

Lemma shape3_channels (h w c : nat) (img : image) :
  shape3 h w c img -> (0 < h)%nat -> (0 < w)%nat -> channels img = c.
Proof.
  intros [Hh Hrows] Hh0 Hw0.
  destruct img as [|r0 rest]; simpl in *; [lia|].
  inversion Hrows as [|? ? [Hr Hp] _]. subst.
  destruct r0 as [|p0 r0]; simpl in *; [lia|].
  unfold channels. simpl. now inversion Hp.
Qed.

Lemma map_seq_shape3 (h w c : nat) (f : nat -> nat -> pixel) :
  (forall i j, length (f i j) = c) ->
  shape3 h w c (map (fun i => map (fun j => f i j) (seq 0 w)) (seq 0 h)).
Proof.
  intros Hf. split.
  - now rewrite length_map, length_seq.
  - apply Forall_forall. intros row Hrow. apply in_map_iff in Hrow.
    destruct Hrow as [i [<- _]]. split.
    + now rewrite length_map, length_seq.
    + apply Forall_forall. intros p Hp. apply in_map_iff in Hp.
      destruct Hp as [j [<- _]]. apply Hf.
Qed.

Lemma conv2d_shape (n h w c filters kh kw : nat) (act : R -> R)
      (k : nat -> nat -> nat -> nat -> R) (b : nat -> R) (x : list image) :
  shape4 n h w c x ->
  shape4 n h w filters (tf.layers.conv2d x filters (kh, kw) same act k b).
Proof.
  intros [Hn Himgs]. unfold tf.layers.conv2d, tf.layers.conv2d_image. split.
  - now rewrite length_map.
  - apply Forall_forall. intros out Hout. apply in_map_iff in Hout.
    destruct Hout as [img [<- Himg]].
    pose proof (proj1 (Forall_forall _ _) Himgs img Himg) as Hs.
    unfold tf.layers.conv_out.
    destruct (Nat.eq_dec h 0) as [Hz|Hz].
    + destruct Hs as [Hh _]. unfold height. rewrite Hh, Hz. simpl.
      split; [reflexivity | constructor].
    + rewrite (shape3_width h w c img Hs) by lia.
      destruct Hs as [Hh _]. unfold height. rewrite Hh.
      apply (map_seq_shape3 h w filters
               (fun i j => map (fun f => act (tf.layers.conv_at img kh kw same
                                                              k f i j + b f))
                               (seq 0 filters))).
      intros i j. now rewrite length_map, length_seq.
Qed.

Lemma max_pooling2d_shape (n h w c ph pw s : nat) (x : list image) :
  shape4 n h w c x -> (0 < h)%nat -> (0 < w)%nat ->
  shape4 n (tf.layers.pool_out h ph s) (tf.layers.pool_out w pw s) c
         (tf.layers.max_pooling2d x (ph, pw) s).
Proof.
  intros [Hn Himgs] Hh0 Hw0.
  unfold tf.layers.max_pooling2d, tf.layers.max_pooling2d_image. split.
  - now rewrite length_map.
  - apply Forall_forall. intros out Hout. apply in_map_iff in Hout.
    destruct Hout as [img [<- Himg]].
    pose proof (proj1 (Forall_forall _ _) Himgs img Himg) as Hs.
    rewrite (shape3_width h w c img Hs) by lia.
    rewrite (shape3_channels h w c img Hs) by lia.
    assert (Hh : height img = h) by (destruct Hs as [Hh _]; exact Hh).
    rewrite Hh.
    apply (map_seq_shape3 _ _ c
             (fun i j => map (fun ch => Rmax_list (tf.layers.window
                                                    img ph pw s i j ch))
                             (seq 0 c))).
    intros i j. now rewrite length_map, length_seq.
Qed.

Lemma flat_image_length (h w c : nat) (img : image) :
  shape3 h w c img -> length (flat_image img) = (h * (w * c))%nat.
Proof.
  intros [Hh Hrows]. unfold flat_image, image, pixel in *.
  rewrite (concat_length_uniform (w * c)).
  - now rewrite length_map, Hh.
  - apply Forall_forall. intros r Hr. apply in_map_iff in Hr.
    destruct Hr as [row [<- Hrow]].
    pose proof (proj1 (Forall_forall _ _) Hrows row Hrow) as [Hw Hp].
    rewrite (concat_length_uniform c) by exact Hp. now rewrite Hw.
Qed.

Lemma dense_shape (n units : nat) (act : R -> R) (k : nat -> nat -> R)
      (b : nat -> R) (x : list (list R)) :
  length x = n -> shape2 n units (tf.layers.dense x units act k b).
Proof.
  intros Hn. unfold tf.layers.dense, tf.layers.dense_row. split.
  - now rewrite length_map.
  - apply Forall_forall. intros r Hr. apply in_map_iff in Hr.
    destruct Hr as [row [<- _]]. now rewrite length_map, length_seq.
Qed.

Lemma mapi_Forall {A B : Type} (P : A -> Prop) (Q : B -> Prop)
      (f : nat -> A -> B) (l : list A) :
  (forall i a, P a -> Q (f i a)) -> Forall P l -> Forall Q (mapi f l).
Proof.
  intros Hf Hl. unfold mapi. apply Forall_forall. intros y Hy.
  apply in_map_iff in Hy. destruct Hy as [[i a] [<- Hin]].
  apply in_combine_r in Hin. simpl.
  apply Hf. exact (proj1 (Forall_forall _ _) Hl a Hin).
Qed.

Lemma dropout_shape (n k : nat) (rate : R) (training : bool)
      (noise : nat -> nat -> R) (x : list (list R)) :
  shape2 n k x -> shape2 n k (tf.layers.dropout x rate training noise).
Proof.
  intros [Hn Hr]. unfold tf.layers.dropout. destruct training; [|now split].
  unfold tf.nn.dropout. split.
  - now rewrite mapi_length.
  - apply (mapi_Forall (fun r => length r = k)); [|exact Hr].
    intros i row Hrow. now rewrite mapi_length.
Qed.

Lemma valid_batch_Forall (rows : list (list R)) :
  valid_batch rows = true <-> Forall (fun r => length r = 784%nat) rows.
Proof.
  unfold valid_batch. rewrite forallb_forall, Forall_forall.
  split; intros H r Hr; specialize (H r Hr).
  - now apply Nat.eqb_eq.
  - now apply Nat.eqb_eq.
Qed.

Lemma nhwc_input (rows : list (list R)) :
  Forall (fun r => length r = 784%nat) rows ->
  nhwc (Tensor [length rows; 28; 28; 1]%nat (concat rows)) = as_images rows.
Proof.
  intros H. unfold nhwc, as_images, image_of_row. simpl shape. simpl values.
  cbv beta iota.
  change (28 * 28 * 1)%nat with 784%nat.
  change (28 * 1)%nat with 28%nat.
  rewrite chunks_concat; [reflexivity | lia | exact H].
Qed.

Lemma as_images_shape (rows : list (list R)) :
  Forall (fun r => length r = 784%nat) rows ->
  shape4 (length rows) 28 28 1 (as_images rows).
Proof.
  intros H. unfold as_images, image_of_row. split; [now rewrite length_map|].
  apply Forall_forall. intros img Himg. apply in_map_iff in Himg.
  destruct Himg as [row [<- Hrow]].
  pose proof (proj1 (Forall_forall _ _) H row Hrow) as Hlen.
  split.
  - rewrite length_map, chunks_length, Hlen. reflexivity.
  - apply Forall_forall. intros r Hr. apply in_map_iff in Hr.
    destruct Hr as [blk [<- Hblk]].
    pose proof (proj1 (Forall_forall _ _) (chunks_Forall 28 row ltac:(lia))
                      blk Hblk) as Hb.
    split.
    + rewrite chunks_length, Hb. reflexivity.
    + apply chunks_Forall. lia.
Qed.

Lemma flatten_pool2 (n : nat) (x : list image) :
  shape4 n 7 7 64 x ->
  tf.reshape (of_nhwc x) [-1; 7 * 7 * 64]%Z
  = Some (Tensor [n; 3136]%nat (concat (map flat_image x)))
  /\ chunks 3136 (concat (map flat_image x)) = map flat_image x.
Proof.
  intros [Hn Himgs].
  assert (Hrows : Forall (fun r => length r = 3136%nat) (map flat_image x)).
  { apply Forall_forall. intros r Hr. apply in_map_iff in Hr.
    destruct Hr as [img [<- Himg]].
    now rewrite (flat_image_length 7 7 64)
      by exact (proj1 (Forall_forall _ _) Himgs img Himg). }
  split.
  - rewrite reshape_flat. unfold of_nhwc. simpl values.
    rewrite (concat_length_uniform 3136) by exact Hrows.
    rewrite length_map, Hn, Nat.Div0.mod_mul, Nat.eqb_refl.
    now rewrite Nat.div_mul by discriminate.
  - apply chunks_concat; [lia | exact Hrows].
Qed.

Lemma pool_28 : tf.layers.pool_out 28 2 2 = 14%nat.
Proof. reflexivity. Qed.

Lemma pool_14 : tf.layers.pool_out 14 2 2 = 7%nat.
Proof. reflexivity. Qed.

Section Forward.

Variable vs : Variables.
Variable noise : nat -> nat -> R.
Variable mode : ModeKeys.t.
Variable rows : list (list R).
Hypothesis rows_ok : Forall (fun r => length r = 784%nat) rows.

Let n := length rows.
Let conv1 :=
  tf.layers.conv2d (as_images rows) 32 (5, 5)%nat same tf.nn.relu
                   (kernel4 vs conv2d_kernel) (bias1 vs conv2d_bias).
Let pool1 := tf.layers.max_pooling2d conv1 (2, 2)%nat 2.
Let conv2 :=
  tf.layers.conv2d pool1 64 (5, 5)%nat same tf.nn.relu
                   (kernel4 vs conv2d_1_kernel) (bias1 vs conv2d_1_bias).
Let pool2 := tf.layers.max_pooling2d conv2 (2, 2)%nat 2.
Let flat := map flat_image pool2.
Let dense1 :=
  tf.layers.dense flat 1024 tf.nn.relu
                  (kernel2 vs dense1_kernel) (bias1 vs dense1_bias).
Let dropped :=
  tf.layers.dropout dense1 (4 / 10) (ModeKeys.eqb mode ModeKeys.TRAIN) noise.
Let logits :=
  tf.layers.dense dropped 10 linear
                  (kernel2 vs dense_kernel) (bias1 vs dense_bias).

Lemma conv1_shape : shape4 n 28 28 32 conv1.
Proof. apply (conv2d_shape n 28 28 1), as_images_shape, rows_ok. Qed.

Lemma pool1_shape : shape4 n 14 14 32 pool1.
Proof.
  rewrite <- pool_28.
  apply max_pooling2d_shape; [apply conv1_shape | lia | lia].
Qed.

Lemma conv2_shape : shape4 n 14 14 64 conv2.
Proof. apply (conv2d_shape n 14 14 32), pool1_shape. Qed.

Lemma pool2_shape : shape4 n 7 7 64 pool2.
Proof.
  rewrite <- pool_14.
  apply max_pooling2d_shape; [apply conv2_shape | lia | lia].
Qed.

Lemma flat_shape : shape2 n 3136 flat.
Proof.
  destruct pool2_shape as [Hn Himgs]. split.
  - unfold flat. now rewrite length_map.
  - apply Forall_forall. intros r Hr. apply in_map_iff in Hr.
    destruct Hr as [img [<- Himg]].
    now rewrite (flat_image_length 7 7 64)
      by exact (proj1 (Forall_forall _ _) Himgs img Himg).
Qed.

Lemma dense1_shape : shape2 n 1024 dense1.
Proof. apply dense_shape, flat_shape. Qed.

Lemma dropped_shape : shape2 n 1024 dropped.
Proof. apply dropout_shape, dense1_shape. Qed.

Lemma logits_shape : shape2 n 10 logits.
Proof. apply dense_shape, dropped_shape. Qed.

(** The chain of the specification runs on every valid batch and ends
    in the logits. *)
Lemma run_spec_architecture :
  run_layers vs noise (spec_architecture mode) (Maps (as_images rows))
  = Some (Vectors logits).
Proof.
  cbv beta iota delta [run_layers spec_architecture apply_layer
                                  activation_of].
  fold conv1 pool1 conv2 pool2.
  destruct (flatten_pool2 n pool2 pool2_shape) as [-> Hchunks].
  unfold rows_of. simpl shape. simpl values. cbv beta iota.
  rewrite Hchunks. reflexivity.
Qed.

Lemma trace_spec_architecture :
  trace_layers vs noise (spec_architecture mode) (Maps (as_images rows))
  = [Maps conv1; Maps pool1; Maps conv2; Maps pool2; Vectors flat;
     Vectors dense1; Vectors dropped; Vectors logits].
Proof.
  cbv beta iota delta [trace_layers spec_architecture apply_layer
                                    activation_of].
  fold conv1 pool1 conv2 pool2.
  destruct (flatten_pool2 n pool2 pool2_shape) as [-> Hchunks].
  unfold rows_of. simpl shape. simpl values. cbv beta iota.
  rewrite Hchunks. reflexivity.
Qed.

Lemma trace_shapes :
  Forall2 has_shape
          (trace_layers vs noise (spec_architecture mode)
                        (Maps (as_images rows)))
          (announced_shapes n).
Proof.
  rewrite trace_spec_architecture. unfold announced_shapes.
  repeat apply Forall2_cons; try apply Forall2_nil; unfold has_shape.
  - apply conv1_shape.
  - apply pool1_shape.
  - apply conv2_shape.
  - apply pool2_shape.
  - apply flat_shape.
  - apply dense1_shape.
  - apply dropped_shape.
  - apply logits_shape.
Qed.

End Forward.

(** ** The model function against the chain of the specification *)

Lemma cnn_model_fn_factor vs noise features labels_ mode :
  cnn_model_fn vs noise features labels_ mode
  = (x <- features "x"%string ;;
     input_layer <- tf.reshape x [-1; 28; 28; 1]%Z ;;
     match run_layers vs noise (spec_architecture mode)
                      (Maps (nhwc input_layer)) with
     | Some (Vectors logits) => outputs_of logits labels_ mode
     | _ => None
     end).
Proof.
  unfold cnn_model_fn.
  destruct (features "x"%string) as [x|]; [|reflexivity].
  destruct (tf.reshape x [-1; 28; 28; 1]%Z) as [input_layer|]; [|reflexivity].
  cbv beta iota delta [run_layers spec_architecture apply_layer
                                  activation_of].
  destruct (tf.reshape _ [-1; 7 * 7 * 64]%Z) as [pool2_flat|]; reflexivity.
Qed.

(** Whatever the input, the logits the model function works with have
    ten entries per example. *)
Lemma run_spec_architecture_rows vs noise mode a logits :
  run_layers vs noise (spec_architecture mode) a = Some (Vectors logits) ->
  Forall (fun r => length r = 10%nat) logits.
Proof.
  destruct a as [x|x].
  - cbv beta iota delta [run_layers spec_architecture apply_layer
                                    activation_of].
    destruct (tf.reshape _ [-1; 7 * 7 * 64]%Z) as [t|]; [|discriminate].
    intros H. injection H as <-.
    eapply dense_shape. reflexivity.
  - cbv beta iota delta [run_layers spec_architecture apply_layer
                                    activation_of].
    discriminate.
Qed.

Lemma cnn_model_fn_inv vs noise features labels_ mode r :
  cnn_model_fn vs noise features labels_ mode = Some r ->
  exists logits,
    Forall (fun row => length row = 10%nat) logits
    /\ outputs_of logits labels_ mode = Some r.
Proof.
  rewrite cnn_model_fn_factor.
  destruct (features "x"%string) as [x|]; [|discriminate].
  destruct (tf.reshape x [-1; 28; 28; 1]%Z) as [input_layer|]; [|discriminate].
  destruct (run_layers vs noise (spec_architecture mode)
                       (Maps (nhwc input_layer))) as [[y|logits]|] eqn:E;
    try discriminate.
  intros H. exists logits. split; [|exact H].
  eapply run_spec_architecture_rows. exact E.
Qed.

Lemma feature_dict_x cols rows :
  feature_dict cols rows "x"%string = Some (of_rows cols rows).
Proof. reflexivity. Qed.

Lemma reshape_valid_batch (rows : list (list R)) :
  Forall (fun r => length r = 784%nat) rows ->
  tf.reshape (of_rows 784 rows) [-1; 28; 28; 1]%Z
  = Some (Tensor [length rows; 28; 28; 1]%nat (concat rows)).
Proof.
  intros H. rewrite reshape_input. unfold of_rows. simpl values.
  rewrite (concat_length_uniform 784) by exact H.
  rewrite Nat.Div0.mod_mul, Nat.eqb_refl.
  now rewrite Nat.div_mul by discriminate.
Qed.

(** On a batch of flat 28x28 images the model function is the chain of
    the specification followed by the output part. *)
Lemma cnn_model_fn_valid vs noise rows labels_ mode :
  Forall (fun r => length r = 784%nat) rows ->
  exists logits,
    run_layers vs noise (spec_architecture mode) (Maps (as_images rows))
    = Some (Vectors logits)
    /\ shape2 (length rows) 10 logits
    /\ cnn_model_fn vs noise (feature_dict 784 rows) labels_ mode
       = outputs_of logits labels_ mode.
Proof.
  intros H.
  eexists. split; [apply run_spec_architecture, H|].
  split; [apply logits_shape, H|].
  rewrite cnn_model_fn_factor, feature_dict_x.
  rewrite (reshape_valid_batch rows H), (nhwc_input rows H).
  now rewrite (run_spec_architecture vs noise mode rows H).
Qed.

Lemma Forall2_map_both {A B C : Type} (P : B -> C -> Prop)
      (f : A -> B) (g : A -> C) (l : list A) :
  Forall (fun a => P (f a) (g a)) l -> Forall2 P (map f l) (map g l).
Proof. induction 1; simpl; constructor; assumption. Qed.

Lemma nonempty_of_length {A : Type} (l : list A) (k : nat) :
  length l = S k -> l <> [].
Proof. intros H ->. discriminate. Qed.

Lemma outputs_of_predict logits labels_ :
  outputs_of logits labels_ ModeKeys.PREDICT
  = Some ({| mode := ModeKeys.PREDICT;
             predictions := Some (spec_predictions logits);
             loss := None; train_op := None; eval_metric_ops := [];
             export_outputs :=
               [(DEFAULT_SERVING_SIGNATURE_DEF_KEY,
                 {| export.outputs := spec_predictions logits |})] |},
          name_tensor (name_tensor layer_scopes "softmax_tensor"
                                   (tf.nn.softmax logits))
                      "softmax_tensor" (tf.nn.softmax logits)).
Proof. reflexivity. Qed.

(** ** Claims about the predictions *)

(** C1.  For every batch of flat 28x28 images the model function, in
    predict mode, returns one class and one probability vector per
    example, and each class is an index at which that example's
    probability vector is largest: it is an index of the vector, no
    entry of the vector is larger than the entry at the class, and when
    no other entry equals that entry the class is what argmax gives on
    the probabilities. *)
Theorem classes_are_argmax_of_probabilities
        (vs : Variables) (noise : nat -> nat -> R)
        (rows : list (list R)) (labels_ : option (list Z)) :
  valid_batch rows = true ->
  exists spec g ps,
    cnn_model_fn vs noise (feature_dict 784 rows) labels_ ModeKeys.PREDICT
    = Some (spec, g)
    /\ predictions spec = Some ps
    /\ length (classes ps) = length rows
    /\ length (probabilities ps) = length rows
    /\ Forall2 (fun c p =>
                  (c < length p)%nat
                  /\ (forall j, (j < length p)%nat -> nth j p 0 <= nth c p 0)
                  /\ ((forall j, (j < length p)%nat -> j <> c ->
                                 nth j p 0 <> nth c p 0) ->
                      c = tf.argmax_row p))
               (classes ps) (probabilities ps).
Proof.
  intros Hv. apply valid_batch_Forall in Hv.
  destruct (cnn_model_fn_valid vs noise rows labels_ ModeKeys.PREDICT Hv)
    as (logits & _ & [Hn Hrows] & Heq).
  rewrite Heq, outputs_of_predict.
  eexists _, _, (spec_predictions logits).
  split; [reflexivity|]. split; [reflexivity|].
  unfold spec_predictions, tf.argmax, tf.nn.softmax. simpl.
  rewrite !length_map. split; [exact Hn|]. split; [exact Hn|].
  apply Forall2_map_both.
  eapply Forall_impl; [|exact Hrows]. intros r Hr. cbv beta in *.
  assert (Hne : tf.nn.softmax_row r <> [])
    by (apply (nonempty_of_length _ 9); now rewrite softmax_row_length).
  destruct (argmax_row_spec (tf.nn.softmax_row r) Hne) as (Hlt & Hmax & _).
  rewrite argmax_softmax_row in Hlt, Hmax.
  split; [exact Hlt|]. split; [exact Hmax|].
  intros _. symmetry. apply argmax_softmax_row.
Qed.

Lemma classes_are_argmax_of_probabilities_witness :
  valid_batch [blank_image] = true
  /\ exists spec g ps,
       cnn_model_fn zero_variables no_noise (feature_dict 784 [blank_image])
                    None ModeKeys.PREDICT = Some (spec, g)
       /\ predictions spec = Some ps
       /\ Forall2 (fun c p => forall j, (j < length p)%nat ->
                                       nth j p 0 <= nth c p 0)
                  (classes ps) (probabilities ps).
Proof.
  split; [reflexivity|].
  destruct (classes_are_argmax_of_probabilities
              zero_variables no_noise [blank_image] None eq_refl)
    as (spec & g & ps & H1 & H2 & _ & _ & H5).
  exists spec, g, ps. split; [exact H1|]. split; [exact H2|].
  eapply Forall2_impl; [|exact H5]. intros c p H. exact (proj1 (proj2 H)).
Defined.

(** C5.  With the same variables and the same input, the model function
    returns the same result in eval mode and in predict mode whatever the
    random draws are (classes and probabilities included), because the
    dropout layer is the identity whenever the mode is not train. *)
Theorem non_train_modes_ignore_randomness
        (vs : Variables) (features : string -> option tensor)
        (labels_ : option (list Z)) (mode : ModeKeys.t)
        (noise1 noise2 : nat -> nat -> R) :
  mode <> ModeKeys.TRAIN ->
  cnn_model_fn vs noise1 features labels_ mode
  = cnn_model_fn vs noise2 features labels_ mode
  /\ (forall x rate,
        tf.layers.dropout x rate (ModeKeys.eqb mode ModeKeys.TRAIN) noise1
        = x).
Proof.
  intros Hmode.
  assert (Hoff : ModeKeys.eqb mode ModeKeys.TRAIN = false)
    by (destruct mode; [congruence | reflexivity | reflexivity]).
  split.
  - rewrite !cnn_model_fn_factor.
    destruct (features "x"%string) as [x|]; [|reflexivity].
    destruct (tf.reshape x [-1; 28; 28; 1]%Z) as [input_layer|];
      [|reflexivity].
    cbv beta iota delta [run_layers spec_architecture apply_layer
                                    activation_of].
    rewrite Hoff. unfold tf.layers.dropout. reflexivity.
  - intros x rate. rewrite Hoff. reflexivity.
Qed.

Lemma non_train_modes_ignore_randomness_witness :
  ModeKeys.EVAL <> ModeKeys.TRAIN
  /\ cnn_model_fn zero_variables no_noise (feature_dict 784 [blank_image])
                  (Some [7%Z]) ModeKeys.EVAL
     = cnn_model_fn zero_variables (fun b k => INR (b + k))
                    (feature_dict 784 [blank_image]) (Some [7%Z])
                    ModeKeys.EVAL.
Proof.
  split; [discriminate|].
  apply (non_train_modes_ignore_randomness
           zero_variables (feature_dict 784 [blank_image]) (Some [7%Z])
           ModeKeys.EVAL no_noise (fun b k => INR (b + k))).
  discriminate.
Defined.

(** ** Loss and labels *)

Lemma cast_int32_small (z : Z) :
  (-2147483648 <= z < 2147483648)%Z -> tf.cast_int32 z = z.
Proof.
  intros H. unfold tf.cast_int32. rewrite Z.mod_small by lia. lia.
Qed.

Lemma map_cast_int32_small (l : list Z) :
  Forall (fun z => (-2147483648 <= z < 2147483648)%Z) l ->
  map tf.cast_int32 l = l.
Proof.
  induction 1 as [|z l Hz _ IH]; simpl; [reflexivity|].
  now rewrite cast_int32_small, IH.
Qed.

Lemma ln_softmax_entry (x S : R) : 0 < S -> ln (exp x / S) = x - ln S.
Proof.
  intros HS. unfold Rdiv.
  rewrite ln_mult by (try apply exp_pos; now apply Rinv_0_lt_compat).
  rewrite ln_exp, ln_Rinv by exact HS. ring.
Qed.

Lemma weighted_logs (S : R) :
  0 < S ->
  forall (r y : list R),
    map (fun p => fst p * snd p) (combine y (map (fun x => x - ln S) r))
    = map (fun yp => fst yp * ln (snd yp))
          (combine y (map (fun x => exp x / S) r)).
Proof.
  intros HS. induction r as [|x r IH]; intros y; destruct y as [|a y];
    simpl; try reflexivity.
  now rewrite IH, ln_softmax_entry.
Qed.

(** The per-example loss of the framework is the cross-entropy of the
    softmax probabilities. *)
Lemma xent_row_is_cross_entropy (y r : list R) :
  tf.nn.softmax_cross_entropy_with_logits_row y r
  = cross_entropy y (tf.nn.softmax_row r).
Proof.
  unfold tf.nn.softmax_cross_entropy_with_logits_row, cross_entropy,
    tf.nn.log_softmax_row, tf.nn.softmax_row.
  destruct r as [|x r].
  - simpl. now rewrite !combine_nil.
  - rewrite weighted_logs; [reflexivity|].
    apply exp_sum_pos. discriminate.
Qed.

Lemma combine_map_l {A B C : Type} (f : A -> B) (a : list A) (b : list C) :
  combine (map f a) b = map (fun p => (f (fst p), snd p)) (combine a b).
Proof.
  revert b. induction a as [|x a IH]; intros [|y b]; simpl;
    try reflexivity.
  now rewrite IH.
Qed.

Lemma safe_div_INR (a : R) (n : nat) :
  (n = 0%nat -> a = 0) -> tf.losses.safe_div a (INR n) = a / INR n.
Proof.
  intros H. unfold tf.losses.safe_div.
  destruct (Rlt_dec 0 (INR n)) as [E|E]; [reflexivity|].
  assert (Hn : n = 0%nat).
  { destruct n as [|n]; [reflexivity|]. exfalso. apply E.
    apply lt_0_INR. lia. }
  rewrite (H Hn). unfold Rdiv. now rewrite Rmult_0_l.
Qed.

Lemma losses_softmax_cross_entropy (labels_ : list Z)
      (logits : list (list R)) :
  length labels_ = length logits ->
  tf.losses.softmax_cross_entropy (tf.one_hot labels_ 10) logits
  = Some (spec_loss labels_ logits).
Proof.
  intros Hlen. unfold tf.losses.softmax_cross_entropy, tf.one_hot.
  rewrite length_map, Hlen, Nat.eqb_refl. f_equal.
  unfold spec_loss. rewrite combine_map_l, map_map.
  rewrite safe_div_INR.
  - f_equal. f_equal. apply map_ext. intros [z r]. simpl.
    apply xent_row_is_cross_entropy.
  - intros Hz. destruct logits; [|discriminate].
    now rewrite combine_nil.
Qed.

Lemma accuracy_defined (labels_ : list Z) (predicted : list nat) :
  length labels_ = length predicted ->
  tf.metrics.accuracy labels_ predicted
  = Some (tf.metrics.MeanUpdate
            (Rsum (map (fun p => tf.metrics.is_correct (fst p) (snd p))
                       (combine labels_ predicted)))
            (INR (length predicted))).
Proof.
  intros H. unfold tf.metrics.accuracy. now rewrite H, Nat.eqb_refl.
Qed.

(** C3.  For every batch of flat 28x28 images with one int32 label per
    image: in train mode the returned specification carries a loss and a
    train operation (Adam, learning rate 1e-4) and nothing else; in eval
    mode a loss and the metric named accuracy; in predict mode one class
    and one probability vector per example and no loss.  In train and
    eval mode the loss is the mean over the batch of the categorical
    cross-entropy between the softmax of the logits and the one-hot
    encoding at depth 10 of the labels. *)
Theorem mode_specific_outputs
        (vs : Variables) (noise : nat -> nat -> R)
        (rows : list (list R)) (labels_ : list Z) :
  valid_batch rows = true ->
  length labels_ = length rows ->
  Forall int32 labels_ ->
  (exists logits spec g,
      run_layers vs noise (spec_architecture ModeKeys.TRAIN)
                 (Maps (as_images rows)) = Some (Vectors logits)
      /\ cnn_model_fn vs noise (feature_dict 784 rows) (Some labels_)
                      ModeKeys.TRAIN = Some (spec, g)
      /\ loss spec = Some (spec_loss labels_ logits)
      /\ train_op spec
         = Some (tf.train.minimize (tf.train.AdamOptimizer (1 / 10000)) true)
      /\ predictions spec = None
      /\ eval_metric_ops spec = [])
  /\ (exists logits spec g a,
         run_layers vs noise (spec_architecture ModeKeys.EVAL)
                    (Maps (as_images rows)) = Some (Vectors logits)
         /\ cnn_model_fn vs noise (feature_dict 784 rows) (Some labels_)
                         ModeKeys.EVAL = Some (spec, g)
         /\ loss spec = Some (spec_loss labels_ logits)
         /\ eval_metric_ops spec = [("accuracy"%string, a)]
         /\ tf.metrics.accuracy labels_ (tf.argmax logits) = Some a
         /\ train_op spec = None
         /\ predictions spec = None)
  /\ (forall any_labels,
       exists logits spec g ps,
         run_layers vs noise (spec_architecture ModeKeys.PREDICT)
                    (Maps (as_images rows)) = Some (Vectors logits)
         /\ cnn_model_fn vs noise (feature_dict 784 rows) any_labels
                         ModeKeys.PREDICT = Some (spec, g)
         /\ predictions spec = Some ps
         /\ classes ps = tf.argmax logits
         /\ probabilities ps = tf.nn.softmax logits
         /\ length (classes ps) = length rows
         /\ length (probabilities ps) = length rows
         /\ loss spec = None
         /\ train_op spec = None).
Proof.
  intros Hv Hlen Hint. apply valid_batch_Forall in Hv.
  split; [|split].
  - destruct (cnn_model_fn_valid vs noise rows (Some labels_)
                                 ModeKeys.TRAIN Hv)
      as (logits & Hrun & [Hn _] & Heq).
    exists logits. rewrite Heq. unfold outputs_of.
    rewrite (map_cast_int32_small _ Hint).
    rewrite losses_softmax_cross_entropy by congruence.
    eexists _, _. split; [exact Hrun|]. split; [reflexivity|].
    simpl. repeat split.
  - destruct (cnn_model_fn_valid vs noise rows (Some labels_)
                                 ModeKeys.EVAL Hv)
      as (logits & Hrun & [Hn _] & Heq).
    exists logits. rewrite Heq. unfold outputs_of.
    rewrite (map_cast_int32_small _ Hint).
    rewrite losses_softmax_cross_entropy by congruence.
    assert (Hacc : length labels_ = length (tf.argmax logits))
      by (unfold tf.argmax; rewrite length_map; congruence).
    unfold spec_predictions. simpl classes.
    rewrite (accuracy_defined _ _ Hacc).
    eexists _, _, _. split; [exact Hrun|]. split; [reflexivity|].
    simpl. repeat split.
  - intros any_labels.
    destruct (cnn_model_fn_valid vs noise rows any_labels
                                 ModeKeys.PREDICT Hv)
      as (logits & Hrun & [Hn _] & Heq).
    exists logits. rewrite Heq, outputs_of_predict.
    eexists _, _, (spec_predictions logits).
    split; [exact Hrun|]. split; [reflexivity|].
    unfold spec_predictions, tf.argmax, tf.nn.softmax. simpl.
    rewrite !length_map. repeat split; exact Hn.
Qed.

Lemma mode_specific_outputs_witness :
  valid_batch [blank_image] = true
  /\ length [3%Z] = length [blank_image]
  /\ Forall int32 [3%Z]
  /\ exists spec g l,
       cnn_model_fn zero_variables no_noise (feature_dict 784 [blank_image])
                    (Some [3%Z]) ModeKeys.TRAIN = Some (spec, g)
       /\ loss spec = Some l
       /\ train_op spec
          = Some (tf.train.minimize (tf.train.AdamOptimizer (1 / 10000)) true).
Proof.
  assert (Hi : Forall int32 [3%Z])
    by (constructor; [unfold int32; lia | constructor]).
  split; [reflexivity|]. split; [reflexivity|]. split; [exact Hi|].
  destruct (mode_specific_outputs zero_variables no_noise [blank_image]
                                  [3%Z] eq_refl eq_refl Hi)
    as [(logits & spec & g & _ & H1 & H2 & H3 & _) _].
  exists spec, g, (spec_loss [3%Z] logits).
  split; [exact H1|]. split; [exact H2 | exact H3].
Defined.

Lemma one_hot_row_out_of_range (z : Z) :
  (z < 0 \/ 9 < z)%Z -> tf.one_hot_row 10 z = repeat 0 10.
Proof.
  intros H. unfold tf.one_hot_row. simpl.
  repeat match goal with
         | |- context [(z =? ?k)%Z] =>
             destruct (Z.eqb_spec z k); [lia|]
         end.
  reflexivity.
Qed.

(** ** The input contract *)

Lemma predict_total vs noise rows labels_ :
  Forall (fun r => length r = 784%nat) rows ->
  exists spec g ps,
    cnn_model_fn vs noise (feature_dict 784 rows) labels_ ModeKeys.PREDICT
    = Some (spec, g)
    /\ predictions spec = Some ps
    /\ length (classes ps) = length rows.
Proof.
  intros Hv.
  destruct (cnn_model_fn_valid vs noise rows labels_ ModeKeys.PREDICT Hv)
    as (logits & _ & [Hn _] & Heq).
  rewrite Heq, outputs_of_predict.
  eexists _, _, (spec_predictions logits).
  split; [reflexivity|]. split; [reflexivity|].
  simpl. unfold tf.argmax. now rewrite length_map.
Qed.

Lemma cnn_model_fn_same_values vs noise f1 f2 t1 t2 labels_ mode :
  f1 "x"%string = Some t1 -> f2 "x"%string = Some t2 ->
  values t1 = values t2 ->
  cnn_model_fn vs noise f1 labels_ mode = cnn_model_fn vs noise f2 labels_ mode.
Proof.
  intros H1 H2 Hv. rewrite !cnn_model_fn_factor, H1, H2.
  rewrite !reshape_input, Hv. reflexivity.
Qed.

(** C9, as stated, fails: a well-formed input of two examples with 392
    values each is not rejected.  Its 784 values are regrouped into one
    28x28 image and the model function answers with one prediction. *)
Lemma reshape_regroups_two_half_rows :
  Forall (fun r => length r = 392%nat) half_rows
  /\ well_formed (of_rows 392 half_rows) = true
  /\ tf.reshape (of_rows 392 half_rows) [-1; 28; 28; 1]%Z
     = Some (Tensor [1; 28; 28; 1]%nat blank_image)
  /\ exists spec g ps,
       cnn_model_fn zero_variables no_noise (feature_dict 392 half_rows)
                    None ModeKeys.PREDICT = Some (spec, g)
       /\ predictions spec = Some ps
       /\ length (classes ps) = 1%nat.
Proof.
  split; [repeat constructor|]. split; [reflexivity|].
  split; [reflexivity|].
  destruct (predict_total zero_variables no_noise [blank_image] None)
    as (spec & g & ps & H1 & H2 & H3);
    [apply valid_batch_Forall; reflexivity|].
  exists spec, g, ps. split; [|split; assumption].
  rewrite <- H1.
  apply (cnn_model_fn_same_values _ _ _ _ (of_rows 392 half_rows)
                                  (of_rows 784 [blank_image]));
    reflexivity.
Qed.

Lemma fits_serving_shape (s : list nat) :
  fits [None; Some 784%nat] s = true -> exists b, s = [b; 784]%nat.
Proof.
  destruct s as [|b [|c [|d s]]]; cbn [fits]; try discriminate.
  - rewrite andb_true_r. intros H. apply Nat.eqb_eq in H. subst c.
    now exists b.
  - rewrite andb_false_r. discriminate.
Qed.

(** C9, amended.  The first reshape of the model function has a result
    exactly when the number of input elements is a multiple of 784, for
    any batch size; when it has none, the model function has none.  A
    batch of [n] examples of 784 values becomes [n] images, in order.
    The exported serving contract declares the input [x] with an open
    batch size and 784 values per example, and every well-formed tensor
    that fits it is reshaped with its batch size kept. *)
Theorem input_reshape_contract :
  (forall t,
      (length (values t) mod 784 = 0)%nat ->
      tf.reshape t [-1; 28; 28; 1]%Z
      = Some (Tensor [(length (values t) / 784)%nat; 28; 28; 1]%nat
                     (values t)))
  /\ (forall t,
         (length (values t) mod 784 <> 0)%nat ->
         tf.reshape t [-1; 28; 28; 1]%Z = None
         /\ forall vs noise features labels_ mode,
             features "x"%string = Some t ->
             cnn_model_fn vs noise features labels_ mode = None)
  /\ (forall rows,
         Forall (fun r => length r = 784%nat) rows ->
         tf.reshape (of_rows 784 rows) [-1; 28; 28; 1]%Z
         = Some (Tensor [length rows; 28; 28; 1]%nat (concat rows))
         /\ nhwc (Tensor [length rows; 28; 28; 1]%nat (concat rows))
            = as_images rows)
  /\ export.receiver_tensors (serving_input_receiver_fn tt)
     = [("x"%string, {| export.static_shape := [None; Some 784%nat] |})]
  /\ export.features (serving_input_receiver_fn tt)
     = export.receiver_tensors (serving_input_receiver_fn tt)
  /\ (forall t,
         well_formed t = true ->
         fits [None; Some 784%nat] (shape t) = true ->
         exists b,
           shape t = [b; 784]%nat
           /\ tf.reshape t [-1; 28; 28; 1]%Z
              = Some (Tensor [b; 28; 28; 1]%nat (values t))).
Proof.
  split; [|split; [|split; [|split; [|split]]]].
  - intros t H. rewrite reshape_input.
    apply Nat.eqb_eq in H. now rewrite H.
  - intros t H.
    assert (Hr : tf.reshape t [-1; 28; 28; 1]%Z = None).
    { rewrite reshape_input. apply Nat.eqb_neq in H. now rewrite H. }
    split; [exact Hr|].
    intros vs noise features labels_ mode Hx.
    now rewrite cnn_model_fn_factor, Hx, Hr.
  - intros rows H. split.
    + apply reshape_valid_batch, H.
    + apply nhwc_input, H.
  - reflexivity.
  - reflexivity.
  - intros t Hwf Hfit.
    destruct (fits_serving_shape _ Hfit) as [b Hs]. exists b.
    split; [exact Hs|].
    unfold well_formed in Hwf. apply Nat.eqb_eq in Hwf.
    rewrite Hs in Hwf.
    change (numel [b; 784%nat]) with (b * 784)%nat in Hwf.
    rewrite reshape_input, Hwf, Nat.Div0.mod_mul, Nat.eqb_refl.
    now rewrite Nat.div_mul by discriminate.
Qed.

(** ** The architecture *)

(** C2.  On every batch of flat 28x28 images, in every mode, the model
    function is the fixed chain conv(32, 5x5, same, ReLU), maxpool(2x2,
    stride 2), conv(64, 5x5, same, ReLU), maxpool(2x2, stride 2),
    flatten to 7*7*64, dense(1024, ReLU), dropout(0.4), dense(10,
    linear), followed by the output part, which takes the softmax of the
    logits for the probabilities and their argmax for the class.  The
    chain depends on nothing but the mode, and on it only through the
    dropout layer, which is active in train mode alone.  The values
    between the layers have the shapes the chain announces. *)
Theorem fixed_architecture
        (vs : Variables) (noise : nat -> nat -> R)
        (rows : list (list R)) (labels_ : option (list Z))
        (mode : ModeKeys.t) :
  valid_batch rows = true ->
  exists logits,
    run_layers vs noise (spec_architecture mode) (Maps (as_images rows))
    = Some (Vectors logits)
    /\ cnn_model_fn vs noise (feature_dict 784 rows) labels_ mode
       = outputs_of logits labels_ mode
    /\ Forall2 has_shape
               (trace_layers vs noise (spec_architecture mode)
                             (Maps (as_images rows)))
               (announced_shapes (length rows))
    /\ (forall x,
          apply_layer vs noise
                      (nth 6 (spec_architecture mode) (Flatten 0))
                      (Vectors x)
          = Some (Vectors (if ModeKeys.eqb mode ModeKeys.TRAIN
                           then tf.nn.dropout x (1 - 4 / 10) noise
                           else x)))
    /\ (ModeKeys.eqb mode ModeKeys.TRAIN = true <-> mode = ModeKeys.TRAIN)
    /\ (exists spec g,
           outputs_of logits labels_ ModeKeys.PREDICT = Some (spec, g)
           /\ predictions spec
              = Some {| classes := tf.argmax logits;
                        probabilities := tf.nn.softmax logits |}
           /\ lookup "softmax_tensor" (named g)
              = Some (tf.nn.softmax logits)).
Proof.
  intros Hv. apply valid_batch_Forall in Hv.
  destruct (cnn_model_fn_valid vs noise rows labels_ mode Hv)
    as (logits & Hrun & _ & Heq).
  exists logits. split; [exact Hrun|]. split; [exact Heq|].
  split; [apply trace_shapes, Hv|].
  split.
  { intros x. simpl nth. simpl apply_layer. unfold tf.layers.dropout.
    now destruct (ModeKeys.eqb mode ModeKeys.TRAIN). }
  split.
  { destruct mode; simpl; split; congruence. }
  rewrite outputs_of_predict. eexists _, _.
  split; [reflexivity|]. split; reflexivity.
Qed.

Lemma fixed_architecture_witness :
  valid_batch [blank_image] = true
  /\ exists logits,
       run_layers zero_variables no_noise
                  (spec_architecture ModeKeys.TRAIN)
                  (Maps (as_images [blank_image])) = Some (Vectors logits)
       /\ cnn_model_fn zero_variables no_noise
                       (feature_dict 784 [blank_image]) (Some [5%Z])
                       ModeKeys.TRAIN
          = outputs_of logits (Some [5%Z]) ModeKeys.TRAIN
       /\ Forall2 has_shape
                  (trace_layers zero_variables no_noise
                                (spec_architecture ModeKeys.TRAIN)
                                (Maps (as_images [blank_image])))
                  (announced_shapes 1).
Proof.
  split; [reflexivity|].
  destruct (fixed_architecture zero_variables no_noise [blank_image]
                               (Some [5%Z]) ModeKeys.TRAIN eq_refl)
    as (logits & H1 & H2 & H3 & _).
  exists logits. split; [exact H1|]. split; [exact H2 | exact H3].
Defined.

(** ** The order of the stages *)

(** C8, as stated, fails: asked for zero training steps, the run loads
    the data, enters training, and ends there with an uncaught
    [ValueError]; evaluation, prediction and export never begin. *)
Lemma zero_steps_stop_the_pipeline :
  fst (run zero_step_flags sample_world)
  = Raise (ValueError "Must specify steps > 0")
  /\ stage_events (console (snd (run zero_step_flags sample_world)))
     = [Enter Load; Leave Load; Enter Train]
  /\ stage_events (console (snd (run zero_step_flags sample_world)))
     <> pipeline
  /\ ~ In (Enter Evaluate) (console (snd (run zero_step_flags sample_world)))
  /\ ~ In (Enter Predict) (console (snd (run zero_step_flags sample_world)))
  /\ ~ In (Enter Export) (console (snd (run zero_step_flags sample_world))).
Proof.
  assert (Hc : console (snd (run zero_step_flags sample_world))
               = [Enter Load; Leave Load; Enter Train])
    by (vm_compute; reflexivity).
  split; [vm_compute; reflexivity|].
  rewrite Hc. split; [reflexivity|]. split; [discriminate|].
  repeat split; simpl; intros [H|[H|[H|[]]]]; discriminate.
Qed.

(** ** The shuffle queue *)

Lemma enqueue_n_spec (size k : nat) (q : tf.train.shuffle_queue) :
  tf.train.waiting (tf.train.enqueue_n size k q)
  = tf.train.waiting q
    ++ map (fun i => (i mod size)%nat) (seq (tf.train.enqueued q) k)
  /\ tf.train.enqueued (tf.train.enqueue_n size k q)
     = (tf.train.enqueued q + k)%nat.
Proof.
  revert q. induction k as [|k IH]; intros q; simpl.
  - rewrite app_nil_r. split; [reflexivity | lia].
  - destruct (IH {| tf.train.waiting :=
                      tf.train.waiting q
                      ++ [(tf.train.enqueued q mod size)%nat];
                    tf.train.enqueued := S (tf.train.enqueued q) |})
      as [Hw He].
    rewrite Hw, He. simpl. split; [|lia].
    now rewrite <- app_assoc.
Qed.

Lemma pushed_app (size a b : nat) :
  pushed size (a + b)
  = pushed size a ++ map (fun i => (i mod size)%nat) (seq a b).
Proof. unfold pushed. now rewrite seq_app, map_app. Qed.

Lemma pushed_bound (size k x : nat) :
  (0 < size)%nat -> In x (pushed size k) -> (x < size)%nat.
Proof.
  intros Hs Hx. unfold pushed in Hx. apply in_map_iff in Hx.
  destruct Hx as [i [<- _]]. apply Nat.mod_upper_bound. lia.
Qed.

Lemma remove_nth_perm {A : Type} (d : A) (k : nat) (l : list A) :
  (k < length l)%nat ->
  Permutation (nth k l d :: tf.train.remove_nth k l) l.
Proof.
  revert k. induction l as [|x l IH]; intros k Hk; simpl in Hk; [lia|].
  destruct k as [|k]; simpl.
  - unfold tf.train.remove_nth. simpl. apply Permutation_refl.
  - unfold tf.train.remove_nth in *. simpl.
    eapply perm_trans; [apply perm_swap|].
    apply perm_skip. apply IH. lia.
Qed.

Lemma remove_nth_length {A : Type} (k : nat) (l : list A) :
  (k < length l)%nat ->
  length (tf.train.remove_nth k l) = (length l - 1)%nat.
Proof.
  intros Hk. unfold tf.train.remove_nth.
  rewrite length_app, length_firstn, length_skipn. lia.
Qed.

Lemma fill_level_bounds (cap mad sched : nat) :
  (mad < cap)%nat ->
  (mad < tf.train.fill_level cap mad sched <= cap)%nat.
Proof.
  intros H. unfold tf.train.fill_level.
  assert (Hm : (sched mod (cap - mad) < cap - mad)%nat)
    by (apply Nat.mod_upper_bound; lia).
  lia.
Qed.

Section Queue.

Variables size cap mad : nat.
Hypothesis size_pos : (0 < size)%nat.
Hypothesis room : (mad < cap)%nat.

(** After a dequeue, what was drawn so far together with what waits is
    what was pushed so far, and no more than [cap] elements wait. *)
Lemma dequeue_one_spec (sched pick : nat) (seen : list nat)
      (q : tf.train.shuffle_queue) :
  Permutation (seen ++ tf.train.waiting q) (pushed size (tf.train.enqueued q)) ->
  (length (tf.train.waiting q) <= cap)%nat ->
  let r := tf.train.dequeue_one size cap mad sched pick q in
  Permutation ((seen ++ [fst r]) ++ tf.train.waiting (snd r))
              (pushed size (tf.train.enqueued (snd r)))
  /\ (fst r < size)%nat
  /\ (length (tf.train.waiting (snd r)) <= cap)%nat
  /\ (mad <= length (tf.train.waiting (snd r)))%nat.
Proof.
  intros Hperm Hcap. unfold tf.train.dequeue_one, tf.train.refill.
  set (level := tf.train.fill_level cap mad sched).
  destruct (fill_level_bounds cap mad sched room) as [Hlo Hhi].
  fold level in Hlo, Hhi.
  destruct (enqueue_n_spec size (level - length (tf.train.waiting q)) q)
    as [Hw He].
  set (q1 := tf.train.enqueue_n size (level - length (tf.train.waiting q)) q)
    in *.
  set (seg := map (fun i => (i mod size)%nat)
                  (seq (tf.train.enqueued q)
                       (level - length (tf.train.waiting q)))) in *.
  assert (Hlen : length (tf.train.waiting q1)
                 = Nat.max level (length (tf.train.waiting q))).
  { rewrite Hw, length_app. unfold seg. rewrite length_map, length_seq. lia. }
  set (k := (pick mod length (tf.train.waiting q1))%nat).
  assert (Hk : (k < length (tf.train.waiting q1))%nat)
    by (apply Nat.mod_upper_bound; lia).
  assert (Hall : Permutation (seen ++ tf.train.waiting q1)
                             (pushed size (tf.train.enqueued q1))).
  { rewrite Hw, He, pushed_app, app_assoc.
    fold seg. now apply Permutation_app_tail. }
  simpl. split; [|split; [|split]].
  - eapply perm_trans; [|exact Hall].
    rewrite <- app_assoc. apply Permutation_app_head. simpl.
    apply remove_nth_perm. exact Hk.
  - apply (pushed_bound size (tf.train.enqueued q1)); [exact size_pos|].
    eapply Permutation_in; [exact Hall|].
    apply in_or_app. right. apply nth_In. exact Hk.
  - rewrite remove_nth_length by exact Hk. lia.
  - rewrite remove_nth_length by exact Hk. lia.
Qed.

Lemma dequeue_many_S (o : tf.train.queue_oracle) (drawn n : nat)
      (q : tf.train.shuffle_queue) :
  tf.train.dequeue_many size cap mad o drawn (S n) q
  = let (i, q1) := tf.train.dequeue_one size cap mad (fst (o drawn))
                                        (snd (o drawn)) q in
    let (rest, q2) := tf.train.dequeue_many size cap mad o (S drawn) n q1 in
    (i :: rest, q2).
Proof. reflexivity. Qed.

Lemma dequeue_many_spec (o : tf.train.queue_oracle) (n : nat) :
  forall (drawn : nat) (seen : list nat) (q : tf.train.shuffle_queue),
    Permutation (seen ++ tf.train.waiting q)
                (pushed size (tf.train.enqueued q)) ->
    (length (tf.train.waiting q) <= cap)%nat ->
    length (fst (tf.train.dequeue_many size cap mad o drawn n q)) = n
    /\ Forall (fun i => (i < size)%nat)
              (fst (tf.train.dequeue_many size cap mad o drawn n q))
    /\ Permutation
         ((seen ++ fst (tf.train.dequeue_many size cap mad o drawn n q))
          ++ tf.train.waiting
               (snd (tf.train.dequeue_many size cap mad o drawn n q)))
         (pushed size
                 (tf.train.enqueued
                    (snd (tf.train.dequeue_many size cap mad o drawn n q))))
    /\ (length (tf.train.waiting
                  (snd (tf.train.dequeue_many size cap mad o drawn n q)))
        <= cap)%nat.
Proof.
  induction n as [|n IH]; intros drawn seen q Hperm Hcap.
  - simpl. rewrite app_nil_r.
    repeat split; [constructor | exact Hperm | exact Hcap].
  - rewrite dequeue_many_S.
    pose proof (dequeue_one_spec (fst (o drawn)) (snd (o drawn)) seen q
                                 Hperm Hcap) as H1.
    cbv zeta in H1.
    destruct (tf.train.dequeue_one size cap mad (fst (o drawn))
                                   (snd (o drawn)) q) as [i q1].
    cbn [fst snd] in H1. destruct H1 as (Hp1 & Hi & Hc1 & _).
    specialize (IH (S drawn) (seen ++ [i]) q1 Hp1 Hc1).
    destruct (tf.train.dequeue_many size cap mad o (S drawn) n q1)
      as [rest q2].
    cbn [fst snd] in *. destruct IH as (Hl & Hf & Hp2 & Hc2).
    split; [simpl; congruence|]. split; [now constructor|].
    split; [|exact Hc2].
    replace ((seen ++ i :: rest) ++ tf.train.waiting q2)
      with (((seen ++ [i]) ++ rest) ++ tf.train.waiting q2); [exact Hp2|].
    now rewrite <- (app_assoc seen [i] rest).
Qed.

End Queue.

(** ** Running in the process *)

Lemma log_to_nil (p : Process) : log_to p [] = p.
Proof. destruct p. unfold log_to. simpl. now rewrite app_nil_r. Qed.

Lemma log_to_app (p : Process) (a b : list event) :
  log_to (log_to p a) b = log_to p (a ++ b).
Proof. unfold log_to. simpl. now rewrite app_assoc. Qed.

Lemma emit_run (e : event) (p : Process) : emit e p = (Ok tt, log_to p [e]).
Proof. reflexivity. Qed.

Lemma emit_all_run (es : list event) (p : Process) :
  emit_all es p = (Ok tt, log_to p es).
Proof.
  revert p. induction es as [|e es IH]; intros p; simpl.
  - unfold ret. now rewrite log_to_nil.
  - unfold bind. rewrite emit_run, IH, log_to_app. reflexivity.
Qed.

Lemma bind_ok {A B : Type} (c : IO A) (k : A -> IO B) (p p' : Process)
      (a : A) :
  c p = (Ok a, p') -> bind c k p = k a p'.
Proof. intros H. unfold bind. now rewrite H. Qed.

(** One round of the training loop when nothing fails. *)
Lemma train_loop_step (f : model_fn_t) (w : World) (n iter : nat)
      (ts : train_state) (p : Process) idx features batch_labels rest
      spec g l op logs hs' :
  next_batch w (reader ts) = Batch idx features batch_labels rest ->
  f (vars ts) (random_uniform w iter) features (Some batch_labels)
    ModeKeys.TRAIN = Some (spec, g) ->
  loss spec = Some l ->
  train_op spec = Some op ->
  tf.train.increments_global_step op = true ->
  run_hooks g iter (hook_states ts) = Some (logs, hs') ->
  train_loop f w (S n) iter ts p
  = train_loop
      f w n (S iter)
      {| vars :=
           fst (tf.train.apply_gradients
                  (tf.train.optimizer op)
                  (gradients w (loss_of f (random_uniform w iter) features
                                        batch_labels) (vars ts))
                  (vars ts) (adam ts));
         adam :=
           snd (tf.train.apply_gradients
                  (tf.train.optimizer op)
                  (gradients w (loss_of f (random_uniform w iter) features
                                        batch_labels) (vars ts))
                  (vars ts) (adam ts));
         step := S (step ts); reader := rest; hook_states := hs' |}
      (log_to p (RunStep iter idx (tf.train.optimizer op) :: logs)).
Proof.
  intros Hb Hf Hl Ho Hinc Hh. cbn [train_loop].
  rewrite Hb, Hf, Hl, Ho, Hh.
  destruct (tf.train.apply_gradients _ _ _ _) as [vs' sl'].
  rewrite Hinc. cbn [fst snd].
  unfold bind at 1. rewrite emit_run.
  unfold bind at 1. rewrite emit_all_run, log_to_app. reflexivity.
Qed.

(** The update of the optimizer is the Adam rule. *)
Lemma apply_gradients_is_adam (g vs : Variables) (sl : tf.train.AdamSlots) :
  adam_update (1 / 10000) g (vs, sl)
              (fst (tf.train.apply_gradients adam_1e_4 g vs sl),
               snd (tf.train.apply_gradients adam_1e_4 g vs sl)).
Proof.
  unfold adam_update, tf.train.apply_gradients, adam_1e_4.
  cbn [fst snd tf.train.learning_rate tf.train.m tf.train.v
       tf.train.beta1_power tf.train.beta2_power].
  split; [intros n ix; reflexivity|]. split; reflexivity.
Qed.

Lemma outputs_of_train (logits : list (list R)) (batch_labels : list Z) :
  length batch_labels = length logits ->
  exists g,
    outputs_of logits (Some batch_labels) ModeKeys.TRAIN
    = Some ({| mode := ModeKeys.TRAIN; predictions := None;
               loss := Some (spec_loss (map tf.cast_int32 batch_labels)
                                       logits);
               train_op := Some (tf.train.minimize adam_1e_4 true);
               eval_metric_ops := []; export_outputs := [] |}, g)
    /\ lookup "softmax_tensor" (named g) = Some (tf.nn.softmax logits).
Proof.
  intros Hlen. unfold outputs_of.
  rewrite losses_softmax_cross_entropy by (now rewrite length_map).
  eexists. split; reflexivity.
Qed.

Lemma gather_length {A : Type} (d : A) (l : list A) (idx : list nat) :
  length (gather d l idx) = length idx.
Proof. apply length_map. Qed.

Lemma gather_Forall {A : Type} (P : A -> Prop) (d : A) (l : list A)
      (idx : list nat) :
  Forall P l -> Forall (fun i => (i < length l)%nat) idx ->
  Forall P (gather d l idx).
Proof.
  intros Hl Hidx. unfold gather. apply Forall_forall. intros x Hx.
  apply in_map_iff in Hx. destruct Hx as [i [<- Hi]].
  apply (proj1 (Forall_forall _ _) Hl). apply nth_In.
  exact (proj1 (Forall_forall _ _) Hidx i Hi).
Qed.

Lemma row_length_valid (rows : list (list R)) :
  Forall (fun r => length r = 784%nat) rows -> rows <> [] ->
  row_length rows = 784%nat.
Proof.
  intros H Hne. destruct rows as [|r rows]; [congruence|].
  unfold row_length. simpl. now inversion H.
Qed.

Lemma softmax_shape (n : nat) (logits : list (list R)) :
  shape2 n 10 logits -> shape2 n 10 (tf.nn.softmax logits).
Proof.
  intros [Hn H]. unfold tf.nn.softmax. split; [now rewrite length_map|].
  apply Forall_forall. intros p Hp.
  apply in_map_iff in Hp. destruct Hp as [r [<- Hr]].
  rewrite softmax_row_length.
  exact (proj1 (Forall_forall _ _) H r Hr).
Qed.

Section Training.

Variable w : World.
Variable ds : DataSet.
Variable h : tf.train.LoggingTensorHook.

Hypothesis ds_valid : Forall (fun r => length r = 784%nat) (images ds).
Hypothesis ds_nonempty : (0 < num_examples ds)%nat.
Hypothesis ds_consistent : length (images ds) = length (labels ds).
Hypothesis h_tensors :
  tf.train.tensors h = [("probabilities", "softmax_tensor")]%string.
Hypothesis h_period : (0 < tf.train.every_n_iter h)%nat.

Let N := tf.train.every_n_iter h.
Let size := num_examples ds.
Let cap := (8 * BATCH_SIZE)%nat.
Let mad := (4 * BATCH_SIZE)%nat.

Lemma trigger_is_periodic (iter : nat) (last : option nat) :
  hook_inv N iter last ->
  tf.train.should_trigger h last iter = (iter mod N =? 0)%nat
  /\ hook_inv N (S iter) (if (iter mod N =? 0)%nat then Some iter else last).
Proof.
  unfold hook_inv, tf.train.should_trigger. fold N.
  assert (HN : (0 < N)%nat) by exact h_period. clearbody N.
  destruct last as [l|].
  - intros [Hl [Hlo Hhi]].
    destruct (Nat.eq_dec iter (l + N)) as [->|Hne].
    + assert (Hm : ((l + N) mod N = 0)%nat).
      { replace (l + N)%nat with (l + 1 * N)%nat by lia.
        now rewrite Nat.Div0.mod_add. }
      rewrite Hm. simpl. split; [apply Nat.leb_le; lia|].
      split; [exact Hm | lia].
    + assert (Hm : (iter mod N <> 0)%nat).
      { pose proof (Nat.div_mod_eq l N) as Hd. rewrite Hl in Hd.
        remember (l / N)%nat as k eqn:Hk. clear Hk.
        assert (Hi : iter = ((iter - l) + k * N)%nat)
          by (clear - Hd Hlo; lia).
        clear Hl.
        rewrite Hi, Nat.Div0.mod_add, Nat.mod_small by lia. lia. }
      apply Nat.eqb_neq in Hm. rewrite Hm.
      split; [apply Nat.leb_gt; lia|].
      split; [exact Hl | lia].
  - intros ->. rewrite Nat.Div0.mod_0_l. simpl.
    split; [reflexivity|]. split; [apply Nat.Div0.mod_0_l | lia].
Qed.

Lemma hook_fires (iter : nat) (last : option nat) (g : Graph)
      (probs : list (list R)) :
  hook_inv N iter last ->
  lookup "softmax_tensor" (named g) = Some probs ->
  run_hooks g iter [(h, last)]
  = Some ((if (iter mod N =? 0)%nat
           then [LogTensor iter "probabilities" probs] else []),
          [(h, if (iter mod N =? 0)%nat then Some iter else last)]).
Proof.
  intros Hinv Hg. destruct (trigger_is_periodic iter last Hinv) as [Ht _].
  unfold run_hooks, run_hook. cbn [fst snd]. rewrite Ht.
  destruct (iter mod N =? 0)%nat; [|reflexivity].
  rewrite h_tensors. cbn [fetch]. rewrite Hg. reflexivity.
Qed.

Lemma shuffle_next (q : tf.train.shuffle_queue) (drawn : nat) :
  next_batch w (ShuffleBatch ds BATCH_SIZE cap mad q drawn)
  = let r := tf.train.dequeue_many size cap mad (scheduler w) drawn
                                   BATCH_SIZE q in
    Batch (fst r)
          (feature_dict 784 (gather [] (images ds) (fst r)))
          (gather 0%Z (labels ds) (fst r))
          (ShuffleBatch ds BATCH_SIZE cap mad (snd r) (drawn + BATCH_SIZE)).
Proof.
  unfold next_batch, build_error.
  assert (Hroom : (cap <=? mad)%nat = false) by reflexivity.
  rewrite Hroom, ds_consistent, Nat.eqb_refl. cbn [negb].
  destruct (num_examples ds =? 0)%nat eqn:E;
    [apply Nat.eqb_eq in E; lia|].
  fold size.
  destruct (tf.train.dequeue_many size cap mad (scheduler w) drawn
                                  BATCH_SIZE q) as [idx q1].
  cbn [fst snd].
  rewrite row_length_valid; [reflexivity | exact ds_valid |].
  intros Hnil. unfold num_examples in ds_nonempty.
  rewrite Hnil in ds_nonempty. simpl in ds_nonempty. lia.
Qed.

Lemma train_loop_spec (n : nat) :
  forall iter vs sl gs q drawn last p seen,
    hook_inv N iter last ->
    Permutation (seen ++ tf.train.waiting q)
                (pushed size (tf.train.enqueued q)) ->
    (length (tf.train.waiting q) <= cap)%nat ->
    exists ts' steps q',
      train_loop cnn_model_fn w n iter
                 {| vars := vs; adam := sl; step := gs;
                    reader := ShuffleBatch ds BATCH_SIZE cap mad q drawn;
                    hook_states := [(h, last)] |} p
      = (Ok ts', log_to p (render N iter steps))
      /\ length steps = n
      /\ step ts' = (gs + n)%nat
      /\ Forall (step_ok size) steps
      /\ Permutation ((seen ++ concat (map fst steps))
                      ++ tf.train.waiting q')
                     (pushed size (tf.train.enqueued q'))
      /\ (length (tf.train.waiting q') <= cap)%nat
      /\ map fst steps
         = shuffle_batches size cap mad BATCH_SIZE (scheduler w) n drawn q
      /\ training_steps w ds iter steps (vs, sl) (vars ts', adam ts').
Proof.
  induction n as [|n IH]; intros iter vs sl gs q drawn last p seen
                                 Hinv Hperm Hcap.
  - eexists _, [], q. cbn [train_loop render]. unfold ret.
    rewrite log_to_nil. split; [reflexivity|]. split; [reflexivity|].
    split; [cbn [step]; lia|]. split; [constructor|].
    simpl. rewrite app_nil_r.
    split; [assumption|]. split; [assumption|]. split; reflexivity.
  - assert (Hroom : (mad < cap)%nat) by (unfold mad, cap, BATCH_SIZE; lia).
    pose proof (dequeue_many_spec size cap mad ds_nonempty Hroom
                                  (scheduler w) BATCH_SIZE drawn seen q
                                  Hperm Hcap) as Hdq.
    pose proof (shuffle_next q drawn) as Hnext.
    cbn [shuffle_batches].
    destruct (tf.train.dequeue_many size cap mad (scheduler w) drawn
                                    BATCH_SIZE q) as [idx q1] eqn:Edq.
    cbn [fst snd] in Hdq, Hnext. cbv zeta in Hnext.
    destruct Hdq as (Hlen & Hidx & Hperm1 & Hcap1).
    set (rows := gather [] (images ds) idx) in *.
    set (labs := gather 0%Z (labels ds) idx) in *.
    assert (Hrows : Forall (fun r => length r = 784%nat) rows)
      by (apply gather_Forall; assumption).
    destruct (cnn_model_fn_valid vs (random_uniform w iter) rows (Some labs)
                                 ModeKeys.TRAIN Hrows)
      as (logits & Hlogits & Hshape & Hmodel).
    assert (Hrl : length rows = BATCH_SIZE)
      by (unfold rows; now rewrite gather_length).
    rewrite Hrl in Hshape.
    assert (Hll : length labs = length logits).
    { unfold labs. rewrite gather_length. destruct Hshape as [-> _].
      exact Hlen. }
    destruct (outputs_of_train logits labs Hll) as (g & Hout & Hg).
    rewrite Hout in Hmodel.
    destruct (trigger_is_periodic iter last Hinv) as [_ Hinv'].
    pose proof (hook_fires iter last g _ Hinv Hg) as Hhooks.
    rewrite (train_loop_step
               cnn_model_fn w n iter
               {| vars := vs; adam := sl; step := gs;
                  reader := ShuffleBatch ds BATCH_SIZE cap mad q drawn;
                  hook_states := [(h, last)] |}
               p idx (feature_dict 784 rows) labs _ _ g _ _ _ _
               Hnext Hmodel eq_refl eq_refl eq_refl Hhooks).
    cbn [step vars adam tf.train.optimizer tf.train.minimize].
    set (grad := gradients w (loss_of cnn_model_fn (random_uniform w iter)
                                      (feature_dict 784 rows) labs) vs).
    destruct (IH (S iter)
                 (fst (tf.train.apply_gradients adam_1e_4 grad vs sl))
                 (snd (tf.train.apply_gradients adam_1e_4 grad vs sl))
                 (S gs) q1 (drawn + BATCH_SIZE)%nat _
                 (log_to p (RunStep iter idx adam_1e_4
                            :: (if (iter mod N =? 0)%nat
                                then [LogTensor iter "probabilities"
                                                (tf.nn.softmax logits)]
                                else [])))
                 (seen ++ idx) Hinv' Hperm1 Hcap1)
      as (ts' & steps & q' & Hrun & Hsteps & Hgs & Hok & Hp & Hc & Hb & Ht).
    exists ts', ((idx, tf.nn.softmax logits) :: steps), q'.
    rewrite Hrun, log_to_app. cbn [render fst snd].
    split; [reflexivity|]. split; [simpl; congruence|].
    split; [lia|]. split.
    { constructor; [|exact Hok]. unfold step_ok. cbn [fst snd].
      split; [exact Hlen|]. split; [exact Hidx|].
      apply softmax_shape, Hshape. }
    split; [simpl map; simpl concat; rewrite app_assoc; exact Hp|].
    split; [exact Hc|].
    split; [cbn [map fst]; now rewrite Hb|].
    cbn [training_steps].
    exists (fst (tf.train.apply_gradients adam_1e_4 grad vs sl),
            snd (tf.train.apply_gradients adam_1e_4 grad vs sl)).
    split; [|exact Ht].
    unfold training_step. cbn [fst snd]. fold rows labs. cbv zeta.
    exists logits. split; [exact Hlogits|]. split; [reflexivity|].
    split; [|apply apply_gradients_is_adam].
    unfold loss_of. rewrite Hmodel. reflexivity.
Qed.

End Training.

Lemma run_iters_render (period : nat) (steps : list (list nat * list (list R))) :
  forall iter, run_iters (render period iter steps) = seq iter (length steps).
Proof.
  induction steps as [|s steps IH]; intros iter; simpl; [reflexivity|].
  unfold run_iters in *. rewrite flat_map_app, IH.
  destruct (iter mod period =? 0)%nat; reflexivity.
Qed.

Lemma logged_iters_render (period : nat)
      (steps : list (list nat * list (list R))) :
  forall iter,
    logged_iters (render period iter steps)
    = filter (fun i => (i mod period =? 0)%nat) (seq iter (length steps)).
Proof.
  induction steps as [|s steps IH]; intros iter; simpl; [reflexivity|].
  unfold logged_iters in *. rewrite flat_map_app, IH.
  destruct (iter mod period =? 0)%nat; reflexivity.
Qed.

(** ** The training driver *)

(** No example is pushed more often than the queue thread has begun
    passes over the split. *)
Lemma pushed_shift (size m : nat) :
  forall a,
    map (fun i => (i mod size)%nat) (seq (a + size) m)
    = map (fun i => (i mod size)%nat) (seq a m).
Proof.
  induction m as [|m IH]; intros a; simpl; [reflexivity|].
  rewrite <- (IH (S a)). f_equal.
  replace (a + size)%nat with (a + 1 * size)%nat by lia.
  apply Nat.Div0.mod_add.
Qed.

Lemma pushed_short (size r : nat) :
  (r <= size)%nat -> pushed size r = seq 0 r.
Proof.
  intros Hr. unfold pushed. rewrite <- (map_id (seq 0 r)) at 2.
  apply map_ext_in. intros j Hj. apply in_seq in Hj.
  apply Nat.mod_small. lia.
Qed.

Lemma count_occ_pushed_passes (size i q : nat) :
  forall r, (r < size)%nat ->
            (count_occ Nat.eq_dec (pushed size (q * size + r)) i <= q + 1)%nat.
Proof.
  induction q as [|q IH]; intros r Hr.
  - simpl. rewrite pushed_short by lia.
    pose proof (proj1 (NoDup_count_occ Nat.eq_dec (seq 0 r))
                      (seq_NoDup r 0) i). lia.
  - replace (S q * size + r)%nat with (size + (q * size + r))%nat by lia.
    rewrite pushed_app, count_occ_app.
    change (seq size (q * size + r)) with (seq (0 + size) (q * size + r)).
    rewrite (pushed_shift size (q * size + r) 0).
    fold (pushed size (q * size + r)).
    rewrite pushed_short by lia.
    pose proof (proj1 (NoDup_count_occ Nat.eq_dec (seq 0 size))
                      (seq_NoDup size 0) i).
    specialize (IH r Hr). lia.
Qed.

Lemma count_occ_pushed (size k i : nat) :
  (0 < size)%nat ->
  (count_occ Nat.eq_dec (pushed size k) i <= k / size + 1)%nat.
Proof.
  intros Hs. rewrite (Nat.div_mod_eq k size) at 1.
  rewrite (Nat.mul_comm size (k / size)).
  apply count_occ_pushed_passes. apply Nat.mod_upper_bound. lia.
Qed.

Lemma draws_bounded_by_passes (size : nat) (draws waiting_ : list nat)
      (k i : nat) :
  (0 < size)%nat ->
  Permutation (draws ++ waiting_) (pushed size k) ->
  (count_occ Nat.eq_dec draws i <= k / size + 1)%nat
  /\ k = (length draws + length waiting_)%nat.
Proof.
  intros Hs Hp. split.
  - pose proof (proj1 (Permutation_count_occ Nat.eq_dec _ _) Hp i) as Hc.
    rewrite count_occ_app in Hc.
    pose proof (count_occ_pushed size k i Hs). lia.
  - apply Permutation_length in Hp.
    rewrite length_app in Hp. unfold pushed in Hp.
    now rewrite length_map, length_seq in Hp.
Qed.

Lemma constants_ready (ds : DataSet) :
  length (images ds) = length (labels ds) ->
  length (images (constants ds)) = length (labels (constants ds)).
Proof.
  intros H. unfold constants, as_int32. cbn [images labels].
  now rewrite length_map.
Qed.

Lemma generate_input_fn_builds (ds : DataSet) :
  length (images ds) = length (labels ds) ->
  build_error (generate_input_fn ds BATCH_SIZE) = None.
Proof.
  intros H. unfold generate_input_fn, build_error.
  assert (Hroom : (8 * BATCH_SIZE <=? 4 * BATCH_SIZE)%nat = false)
    by reflexivity.
  rewrite Hroom, (constants_ready ds H), Nat.eqb_refl. reflexivity.
Qed.

Lemma train_call_spec
        (w : World) (ds : DataSet) (dir : string)
        (num_steps_ period : Z) (p : Process) :
  valid_batch (images ds) = true ->
  (0 < num_examples ds)%nat ->
  length (images ds) = length (labels ds) ->
  (0 < num_steps_)%Z ->
  (0 < period)%Z ->
  exists c' steps q',
    (logging_hook <-- LoggingTensorHook
                        [("probabilities", "softmax_tensor")]%string
                        period ;;;
     Estimator_train {| model_fn := cnn_model_fn; model_dir := dir |} w
                     (generate_input_fn ds BATCH_SIZE) num_steps_
                     [logging_hook]) p
    = (Ok tt,
       {| checkpoint := Some c'; exported := exported p;
          console := console p
                     ++ Enter Train
                     :: render (Z.to_nat period) 0 steps ++ [Leave Train] |})
    /\ length steps = Z.to_nat num_steps_
    /\ global_step c'
       = (match checkpoint p with Some c => global_step c | None => 0 end
          + Z.to_nat num_steps_)%nat
    /\ Forall (step_ok (num_examples ds)) steps
    /\ Permutation (concat (map fst steps) ++ tf.train.waiting q')
                   (pushed (num_examples ds) (tf.train.enqueued q'))
    /\ (length (tf.train.waiting q') <= 800)%nat
    /\ map fst steps
       = shuffle_batches (num_examples ds) 800 400 100 (scheduler w)
                         (Z.to_nat num_steps_) 0 tf.train.empty_queue
    /\ training_steps
         w (constants ds) 0 steps
         (match checkpoint p with
          | Some c => (variables c, slots c)
          | None => (initial_value w, tf.train.init_slots)
          end)
         (variables c', slots c').
Proof.
  intros Hv Hne Hcons Hsteps Hperiod. apply valid_batch_Forall in Hv.
  set (hook := {| tf.train.tensors :=
                    [("probabilities", "softmax_tensor")]%string;
                  tf.train.every_n_iter := Z.to_nat period |}).
  assert (Hhp : (0 < tf.train.every_n_iter hook)%nat) by (simpl; lia).
  set (start := match checkpoint p with
                | Some c => c
                | None => fresh_checkpoint w
                end).
  destruct (train_loop_spec w (constants ds) hook Hv Hne
                            (constants_ready ds Hcons) eq_refl Hhp
                            (Z.to_nat num_steps_) 0 (variables start)
                            (slots start) (global_step start)
                            tf.train.empty_queue 0 None
                            {| checkpoint := Some start;
                               exported := exported p;
                               console := console p ++ [Enter Train] |} [])
    as (ts' & steps & q' & Hrun & Hlen & Hgs & Hok & Hperm & Hcap & Hb & Ht).
  { reflexivity. }
  { simpl. apply Permutation_refl. }
  { simpl. lia. }
  exists {| global_step := step ts'; variables := vars ts';
            slots := adam ts' |}, steps, q'.
  split.
  { unfold bind at 1, LoggingTensorHook.
    destruct (period <=? 0)%Z eqn:E; [apply Z.leb_le in E; lia|].
    unfold ret. fold hook. unfold Estimator_train.
    unfold bind at 1. rewrite emit_run.
    destruct (num_steps_ <=? 0)%Z eqn:E2; [apply Z.leb_le in E2; lia|].
    rewrite (generate_input_fn_builds ds Hcons).
    unfold bind at 1. unfold get_checkpoint.
    change (checkpoint (log_to p [Enter Train])) with (checkpoint p).
    fold start.
    unfold bind at 1. unfold save_checkpoint at 1.
    unfold bind at 1. cbn [model_fn map]. unfold generate_input_fn.
    unfold log_to at 1 2. cbn [exported console].
    rewrite Hrun.
    unfold bind, save_checkpoint, emit, log_to. simpl.
    rewrite <- !app_assoc. reflexivity. }
  split; [exact Hlen|].
  split.
  { simpl. rewrite Hgs. unfold start.
    destruct (checkpoint p); reflexivity. }
  split; [exact Hok|].
  split; [exact Hperm|]. split; [exact Hcap|].
  split; [exact Hb|].
  cbn [variables slots].
  replace (match checkpoint p with
           | Some c => (variables c, slots c)
           | None => (initial_value w, tf.train.init_slots)
           end) with (variables start, slots start);
    [exact Ht|].
  unfold start. destruct (checkpoint p); reflexivity.
Qed.



(** ** The evaluation driver *)

(** Without dropout the examples of a batch do not influence each
    other. *)
Lemma logits_rowwise (vs : Variables) (noise : nat -> nat -> R)
      (mode : ModeKeys.t) (rows : list (list R)) :
  mode <> ModeKeys.TRAIN ->
  Forall (fun r => length r = 784%nat) rows ->
  run_layers vs noise (spec_architecture mode) (Maps (as_images rows))
  = Some (Vectors (map (example_logits vs) rows)).
Proof.
  intros Hmode Hrows.
  rewrite (run_spec_architecture vs noise mode rows Hrows).
  assert (Hoff : ModeKeys.eqb mode ModeKeys.TRAIN = false)
    by (destruct mode; [congruence | reflexivity | reflexivity]).
  rewrite Hoff. unfold tf.layers.dropout.
  unfold tf.layers.dense, tf.layers.max_pooling2d, tf.layers.conv2d,
    as_images.
  rewrite !map_map. reflexivity.
Qed.

Lemma combine_map_both {A B C : Type} (f : A -> B) (g : A -> C)
      (l : list A) :
  combine (map f l) (map g l) = map (fun a => (f a, g a)) l.
Proof. induction l as [|a l IH]; simpl; [reflexivity | now rewrite IH]. Qed.

Lemma Rsum_app (a b : list R) : Rsum (a ++ b) = Rsum a + Rsum b.
Proof.
  induction a as [|x a IH]; simpl; [ring|]. rewrite IH. ring.
Qed.

Lemma correct_in_app vs x y (a b : list nat) :
  correct_in vs x y (a ++ b) = correct_in vs x y a + correct_in vs x y b.
Proof. unfold correct_in. now rewrite map_app, Rsum_app. Qed.

Lemma outputs_of_eval (vs : Variables) (x : list (list R)) (y : list Z)
      (idx : list nat) :
  exists g,
    outputs_of (map (example_logits vs) (gather [] x idx))
               (Some (gather 0%Z y idx)) ModeKeys.EVAL
    = Some ({| mode := ModeKeys.EVAL; predictions := None;
               loss := Some (eval_batch_loss vs x y idx);
               train_op := None;
               eval_metric_ops :=
                 [("accuracy"%string,
                   tf.metrics.MeanUpdate (correct_in vs x y idx)
                                         (INR (length idx)))];
               export_outputs := [] |}, g).
Proof.
  unfold outputs_of, eval_batch_loss.
  assert (Hl : length (tf.one_hot (map tf.cast_int32 (gather 0%Z y idx)) 10)
               = length (map (example_logits vs) (gather [] x idx)))
    by (unfold tf.one_hot; now rewrite !length_map, !gather_length).
  unfold tf.losses.softmax_cross_entropy. rewrite Hl, Nat.eqb_refl.
  assert (Hacc : length (gather 0%Z y idx)
                 = length (classes (spec_predictions
                                      (map (example_logits vs)
                                           (gather [] x idx)))))
    by (simpl; unfold tf.argmax; now rewrite !length_map, !gather_length).
  rewrite (accuracy_defined _ _ Hacc).
  assert (Ht : Rsum (map (fun p => tf.metrics.is_correct (fst p) (snd p))
                         (combine (gather 0%Z y idx)
                                  (classes (spec_predictions
                                              (map (example_logits vs)
                                                   (gather [] x idx))))))
               = correct_in vs x y idx).
  { unfold correct_in, spec_predictions, tf.argmax, gather. simpl classes.
    rewrite !map_map, combine_map_both, map_map. reflexivity. }
  assert (Hc : length (classes (spec_predictions
                                  (map (example_logits vs)
                                       (gather [] x idx))))
               = length idx)
    by (simpl; unfold tf.argmax, gather; now rewrite !length_map).
  rewrite Ht, Hc. eexists. reflexivity.
Qed.

Lemma update_accuracy (acc : list (string * tf.metrics.mean_update))
      (u : tf.metrics.mean_update) :
  update_metrics acc [("accuracy"%string, u)]
  = [("accuracy"%string, tf.metrics.accumulate (acc_of acc) u)].
Proof. reflexivity. Qed.

Lemma acc_after_cons vs x y acc (b : list nat) (rest : list (list nat)) :
  acc_after vs x y
            (update_metrics acc
               [("accuracy"%string,
                 tf.metrics.MeanUpdate (correct_in vs x y b)
                                       (INR (length b)))])
            rest
  = acc_after vs x y acc (b :: rest).
Proof.
  rewrite update_accuracy. unfold acc_after at 2.
  destruct rest as [|b' rest].
  - simpl. rewrite app_nil_r. reflexivity.
  - unfold acc_after. cbn [acc_of lookup String.eqb].
    change (acc_of [("accuracy"%string,
                     tf.metrics.accumulate
                       (acc_of acc)
                       (tf.metrics.MeanUpdate (correct_in vs x y b)
                                              (INR (length b))))])
      with (tf.metrics.accumulate
              (acc_of acc)
              (tf.metrics.MeanUpdate (correct_in vs x y b)
                                     (INR (length b)))).
    cbn [tf.metrics.accumulate tf.metrics.total tf.metrics.count].
    change (concat (b :: b' :: rest)) with (b ++ concat (b' :: rest)).
    rewrite correct_in_app, length_app, plus_INR.
    f_equal. f_equal. f_equal; ring.
Qed.

Section Evaluation.

Variable w : World.
Variable x : list (list R).
Variable y : list Z.
Variable vs : Variables.
Variable bs : nat.

Hypothesis x_valid : Forall (fun r => length r = 784%nat) x.
Hypothesis xy : length x = length y.
Hypothesis x_nonempty : (0 < length x)%nat.
Hypothesis bs_pos : (0 < bs)%nat.

Let n := length x.

Lemma numpy_builds (ne pos : nat) (sh : bool) :
  build_error (NumpyInput x y bs ne sh pos) = None.
Proof using xy x_nonempty.
  clear bs_pos x_valid.
  unfold build_error. rewrite <- xy, Nat.eqb_refl. cbn [negb].
  destruct (length x =? 0)%nat eqn:E; [|reflexivity].
  apply Nat.eqb_eq in E. lia.
Qed.

Lemma numpy_next (pos : nat) :
  (pos < n)%nat ->
  next_batch w (NumpyInput x y bs 1 false pos)
  = Batch (seq pos (Nat.min bs (n - pos)))
          (feature_dict 784 (gather [] x (seq pos (Nat.min bs (n - pos)))))
          (gather 0%Z y (seq pos (Nat.min bs (n - pos))))
          (NumpyInput x y bs 1 false (pos + bs)).
Proof using x_valid xy x_nonempty bs_pos.
  intros Hpos. unfold next_batch. rewrite numpy_builds.
  rewrite Nat.mul_1_l. fold n.
  destruct (n <=? pos)%nat eqn:E; [apply Nat.leb_le in E; lia|].
  assert (Hidx : map (fun k => (k mod n)%nat)
                     (seq pos (Nat.min bs (n - pos)))
                 = seq pos (Nat.min bs (n - pos))).
  { rewrite <- (map_id (seq pos (Nat.min bs (n - pos)))) at 2.
    apply map_ext_in. intros k Hk. apply in_seq in Hk.
    apply Nat.mod_small. lia. }
  rewrite Hidx.
  rewrite row_length_valid; [reflexivity | exact x_valid |].
  intros Hnil. unfold n in Hpos. rewrite Hnil in Hpos. simpl in Hpos. lia.
Qed.

Lemma numpy_end (pos : nat) :
  (n <= pos)%nat -> next_batch w (NumpyInput x y bs 1 false pos) = OutOfRange.
Proof using xy x_nonempty bs_pos.
  intros Hpos. unfold next_batch. rewrite numpy_builds.
  rewrite Nat.mul_1_l. fold n.
  destruct (n <=? pos)%nat eqn:E; [reflexivity|].
  apply Nat.leb_gt in E. lia.
Qed.

Lemma eval_batch (noise : nat -> nat -> R) (idx : list nat) :
  Forall (fun i => (i < n)%nat) idx ->
  exists g,
    cnn_model_fn vs noise (feature_dict 784 (gather [] x idx))
                 (Some (gather 0%Z y idx)) ModeKeys.EVAL
    = Some ({| mode := ModeKeys.EVAL; predictions := None;
               loss := Some (eval_batch_loss vs x y idx);
               train_op := None;
               eval_metric_ops :=
                 [("accuracy"%string,
                   tf.metrics.MeanUpdate (correct_in vs x y idx)
                                         (INR (length idx)))];
               export_outputs := [] |}, g).
Proof.
  intros Hidx.
  assert (Hrows : Forall (fun r => length r = 784%nat) (gather [] x idx))
    by (apply gather_Forall; assumption).
  destruct (cnn_model_fn_valid vs noise (gather [] x idx)
                               (Some (gather 0%Z y idx)) ModeKeys.EVAL Hrows)
    as (logits & Hrun & _ & Heq).
  rewrite logits_rowwise in Hrun by (try discriminate; exact Hrows).
  injection Hrun as <-. rewrite Heq. apply outputs_of_eval.
Qed.

Lemma eval_loop_spec (k : nat) :
  forall pos acc la p,
    eval_loop cnn_model_fn w vs k (NumpyInput x y bs 1 false pos) acc la p
    = (Ok (acc_after vs x y acc (numpy_batches bs n k pos),
           loss_after vs x y la (numpy_batches bs n k pos)),
       log_to p (map RunEval (numpy_batches bs n k pos))).
Proof.
  induction k as [|k IH]; intros pos acc la p.
  - cbn [eval_loop numpy_batches]. unfold ret. simpl.
    now rewrite log_to_nil.
  - cbn [eval_loop numpy_batches].
    destruct (n <=? pos)%nat eqn:E.
    + apply Nat.leb_le in E. rewrite (numpy_end pos E).
      unfold ret. simpl. now rewrite log_to_nil.
    + apply Nat.leb_gt in E. rewrite (numpy_next pos E).
      set (idx := seq pos (Nat.min bs (n - pos))).
      assert (Hidx : Forall (fun i => (i < n)%nat) idx).
      { apply Forall_forall. intros i Hi. apply in_seq in Hi. lia. }
      destruct (eval_batch (random_uniform w 0) idx Hidx) as [g ->].
      cbn [loss eval_metric_ops].
      unfold bind at 1. rewrite emit_run, IH.
      rewrite acc_after_cons, log_to_app. reflexivity.
Qed.

Lemma numpy_batches_concat (k : nat) :
  forall pos,
    (n <= pos + k * bs)%nat ->
    concat (numpy_batches bs n k pos) = seq pos (n - pos).
Proof using xy bs_pos.
  clear x_nonempty x_valid.
  induction k as [|k IH]; intros pos Hk; cbn [numpy_batches].
  - replace (n - pos)%nat with 0%nat by lia. reflexivity.
  - destruct (n <=? pos)%nat eqn:E.
    + apply Nat.leb_le in E. replace (n - pos)%nat with 0%nat by lia.
      reflexivity.
    + apply Nat.leb_gt in E. cbn [concat]. rewrite IH by lia.
      destruct (Nat.le_ge_cases bs (n - pos)) as [Hle|Hge].
      * rewrite Nat.min_l by exact Hle.
        rewrite <- seq_app. f_equal. lia.
      * rewrite Nat.min_r by exact Hge.
        replace (n - (pos + bs))%nat with 0%nat by lia.
        simpl. now rewrite app_nil_r.
Qed.

Lemma numpy_batches_sizes (k : nat) :
  forall pos,
    Forall (fun b => (0 < length b <= bs)%nat) (numpy_batches bs n k pos).
Proof using xy bs_pos.
  clear x_nonempty x_valid.
  induction k as [|k IH]; intros pos; cbn [numpy_batches]; [constructor|].
  destruct (n <=? pos)%nat eqn:E; [constructor|].
  apply Nat.leb_gt in E. constructor; [|apply IH].
  rewrite length_seq. lia.
Qed.

End Evaluation.

Lemma enough_reads (n : nat) :
  (n <= 0 + (1 * n - 0 + (128 - 1)) / 128 * 128)%nat.
Proof.
  assert (H : (1 * n - 0 + (128 - 1) = n + 127)%nat) by lia.
  rewrite H.
  pose proof (Nat.div_mod_eq (n + 127) 128) as Hd.
  pose proof (Nat.mod_upper_bound (n + 127) 128) as Hm.
  remember ((n + 127) / 128)%nat as k eqn:Hk. clear Hk.
  remember ((n + 127) mod 128)%nat as r eqn:Hr. clear Hr.
  lia.
Qed.

Lemma evaluate_call_spec (x : list (list R)) (y : list Z) (dir : string)
      (c : Checkpoint) (p : Process) :
  Forall (fun r => length r = 784%nat) x ->
  length x = length y ->
  (0 < length x)%nat ->
  checkpoint p = Some c ->
  exists batches loss_value,
    concat batches = seq 0 (length x)
    /\ Forall (fun b => (0 < length b <= 128)%nat) batches
    /\ forall w,
        Estimator_evaluate {| model_fn := cnn_model_fn; model_dir := dir |}
                           w (numpy_input_fn x y 1 false) p
        = (Ok [("accuracy"%string,
                correct_in (variables c) x y (seq 0 (length x))
                / INR (length x));
               ("loss"%string, loss_value);
               ("global_step"%string, INR (global_step c))],
           log_to p (Enter Evaluate :: map RunEval batches
                     ++ [Leave Evaluate])).
Proof.
  intros Hx Hxy Hn Hck.
  set (k := ((1 * length x - 0 + (128 - 1)) / 128)%nat).
  set (batches := numpy_batches 128 (length x) k 0).
  assert (Hcat : concat batches = seq 0 (length x)).
  { unfold batches.
    rewrite (numpy_batches_concat x y 128 Hxy ltac:(lia) k 0).
    - now rewrite Nat.sub_0_r.
    - apply enough_reads. }
  exists batches,
    (tf.metrics.mean_value
       (loss_after (variables c) x y zero_mean batches)).
  split; [exact Hcat|].
  split; [apply (numpy_batches_sizes x y 128 Hxy); lia|].
  intros w. unfold Estimator_evaluate, numpy_input_fn.
  unfold bind at 1. rewrite emit_run.
  unfold bind at 1. unfold get_checkpoint.
  change (checkpoint (log_to p [Enter Evaluate])) with (checkpoint p).
  rewrite Hck.
  rewrite (numpy_builds x y 128 Hxy Hn).
  cbn [remaining model_fn]. fold k.
  unfold bind at 1.
  rewrite (eval_loop_spec w x y (variables c) 128 Hx Hxy Hn ltac:(lia) k).
  fold batches. unfold bind at 1. rewrite emit_run. unfold ret.
  rewrite !log_to_app. cbn [fst snd].
  assert (Hacc : acc_after (variables c) x y [] batches
                 = [("accuracy"%string,
                     tf.metrics.MeanUpdate
                       (0 + correct_in (variables c) x y (seq 0 (length x)))
                       (0 + INR (length x)))]).
  { unfold acc_after. destruct batches as [|b rest] eqn:Eb.
    - simpl in Hcat. destruct x; [simpl in Hn; lia | discriminate].
    - rewrite Hcat, length_seq. reflexivity. }
  rewrite Hacc. cbn [map fst snd app].
  unfold tf.metrics.mean_value at 1.
  cbn [tf.metrics.total tf.metrics.count].
  rewrite !Rplus_0_l, safe_div_INR by lia.
  reflexivity.
Qed.

(** ** Stage events of the driver *)

Lemma stage_events_app (a b : list event) :
  stage_events (a ++ b) = stage_events a ++ stage_events b.
Proof. apply filter_app. Qed.

Lemma quiet_ret {A : Type} (a : A) : quiet (ret a).
Proof. intros p. reflexivity. Qed.

Lemma quiet_raise {A : Type} (e : exn) : quiet (@raise A e).
Proof. intros p. reflexivity. Qed.

Lemma quiet_diverge {A : Type} : quiet (@diverge A).
Proof. intros p. reflexivity. Qed.

Lemma quiet_emit (e : event) : is_stage_event e = false -> quiet (emit e).
Proof.
  intros He p. rewrite emit_run. simpl.
  rewrite stage_events_app. simpl. rewrite He. apply app_nil_r.
Qed.

Lemma quiet_bind {A B : Type} (c : IO A) (k : A -> IO B) :
  quiet c -> (forall a, quiet (k a)) -> quiet (bind c k).
Proof.
  intros Hc Hk p. unfold bind. specialize (Hc p).
  destruct (c p) as [[a|e|] p']; simpl in *; [|exact Hc|exact Hc].
  now rewrite Hk.
Qed.

Lemma quiet_emit_all (es : list event) :
  Forall (fun e => is_stage_event e = false) es -> quiet (emit_all es).
Proof.
  induction 1 as [|e es He _ IH]; simpl; [apply quiet_ret|].
  apply quiet_bind; [now apply quiet_emit | intros _; exact IH].
Qed.

Lemma quiet_get_checkpoint : quiet get_checkpoint.
Proof. intros p. reflexivity. Qed.

Lemma quiet_save_checkpoint (c : Checkpoint) : quiet (save_checkpoint c).
Proof. intros p. reflexivity. Qed.

Lemma quiet_write_export (m : SavedModel) : quiet (write_export m).
Proof. intros p. reflexivity. Qed.

Lemma fetch_logs (g : Graph) (iter : nat) (ts : list (string * string))
      (evs : list event) :
  fetch g iter ts = Some evs ->
  Forall (fun e => is_stage_event e = false) evs.
Proof.
  revert evs. induction ts as [|[tag name] ts IH]; intros evs; simpl.
  - intros H. injection H as <-. constructor.
  - destruct (lookup name (named g)); [|discriminate].
    destruct (fetch g iter ts) as [evs'|]; [|discriminate].
    intros H. injection H as <-. constructor; [reflexivity|].
    now apply IH.
Qed.

Lemma run_hooks_logs (g : Graph) (iter : nat)
      (hs : list (tf.train.LoggingTensorHook * option nat))
      logs hs' :
  run_hooks g iter hs = Some (logs, hs') ->
  Forall (fun e => is_stage_event e = false) logs.
Proof.
  revert logs hs'. induction hs as [|h hs IH]; intros logs hs'; simpl.
  - intros H. injection H as <- _. constructor.
  - unfold run_hook.
    destruct (tf.train.should_trigger (fst h) (snd h) iter).
    + destruct (fetch g iter (tf.train.tensors (fst h))) as [evs|] eqn:E;
        [|discriminate].
      destruct (run_hooks g iter hs) as [[l2 h2]|]; [|discriminate].
      intros H. injection H as <- _. simpl.
      apply Forall_app. split; [eapply fetch_logs, E | eapply IH; reflexivity].
    + destruct (run_hooks g iter hs) as [[l2 h2]|]; [|discriminate].
      intros H. injection H as <- _. simpl. eapply IH; reflexivity.
Qed.

Lemma quiet_train_loop (f : model_fn_t) (w : World) (n : nat) :
  forall iter ts, quiet (train_loop f w n iter ts).
Proof.
  induction n as [|n IH]; intros iter ts; cbn [train_loop];
    [apply quiet_ret|].
  destruct (next_batch w (reader ts));
    [|apply quiet_ret|apply quiet_diverge|apply quiet_raise].
  destruct (f _ _ _ _ _) as [[spec g]|]; [|apply quiet_raise].
  destruct (loss spec); [|apply quiet_raise].
  destruct (train_op spec) as [op|]; [|apply quiet_raise].
  destruct (run_hooks g iter (hook_states ts)) as [[logs hs']|] eqn:E;
    [|apply quiet_raise].
  destruct (tf.train.apply_gradients _ _ _ _) as [vs' sl'].
  apply quiet_bind; [now apply quiet_emit|]. intros _.
  apply quiet_bind; [eapply quiet_emit_all, run_hooks_logs, E|]. intros _.
  destruct (tf.train.increments_global_step op);
    [apply IH | apply quiet_diverge].
Qed.

Lemma quiet_eval_loop (f : model_fn_t) (w : World) (vs : Variables)
      (n : nat) :
  forall p acc la, quiet (eval_loop f w vs n p acc la).
Proof.
  induction n as [|n IH]; intros p acc la; cbn [eval_loop];
    [apply quiet_ret|].
  destruct (next_batch w p);
    [|apply quiet_ret|apply quiet_diverge|apply quiet_raise].
  destruct (f _ _ _ _ _) as [[spec g]|]; [|apply quiet_raise].
  destruct (loss spec); [|apply quiet_raise].
  apply quiet_bind; [now apply quiet_emit|]. intros _. apply IH.
Qed.

Lemma quiet_each (body : nat * list R -> IO unit)
      (l : list (nat * list R)) :
  (forall r, quiet (body r)) ->
  quiet ((fix each (l : list (nat * list R)) : IO unit :=
            match l with
            | [] => ret tt
            | r :: l' => body r ;;; each l'
            end) l).
Proof.
  intros Hb. induction l as [|r l IH]; [apply quiet_ret|].
  apply quiet_bind; [apply Hb | intros _; exact IH].
Qed.

Lemma quiet_predict_loop (f : model_fn_t) (w : World) (vs : Variables)
      (body : nat * list R -> IO unit) (n : nat) :
  (forall r, quiet (body r)) ->
  forall p, quiet (predict_loop f w vs n p body).
Proof.
  intros Hb. induction n as [|n IH]; intros p; cbn [predict_loop];
    [apply quiet_ret|].
  destruct (next_batch w p);
    [|apply quiet_ret|apply quiet_diverge|apply quiet_raise].
  destruct (f _ _ _ _ _) as [[spec g]|]; [|apply quiet_raise].
  destruct (predictions spec) as [ps|]; [|apply quiet_raise].
  apply quiet_bind; [now apply quiet_each | intros _; apply IH].
Qed.

Lemma leaves_raise {A : Type} (s : stage) (e : exn) : leaves s (@raise A e).
Proof. intros p. simpl. now rewrite app_nil_r. Qed.

Lemma leaves_diverge {A : Type} (s : stage) : leaves s (@diverge A).
Proof. intros p. simpl. now rewrite app_nil_r. Qed.

Lemma leaves_emit (s : stage) : leaves s (emit (Leave s)).
Proof. intros p. rewrite emit_run. simpl. apply stage_events_app. Qed.

Lemma leaves_emit_ret {A : Type} (s : stage) (a : A) :
  leaves s (emit (Leave s) ;;; ret a).
Proof. intros p. unfold bind, ret. rewrite emit_run. simpl.
       apply stage_events_app. Qed.

Lemma leaves_bind {A B : Type} (s : stage) (c : IO A) (k : A -> IO B) :
  quiet c -> (forall a, leaves s (k a)) -> leaves s (bind c k).
Proof.
  intros Hc Hk p. unfold bind. specialize (Hc p).
  destruct (c p) as [[a|e|] p']; simpl in *.
  - now rewrite Hk, Hc.
  - now rewrite Hc, app_nil_r.
  - now rewrite Hc, app_nil_r.
Qed.

Lemma staged_enter {A : Type} (s : stage) (c : IO A) :
  leaves s c -> staged s (emit (Enter s) ;;; c).
Proof.
  intros Hc p. unfold bind. rewrite emit_run.
  rewrite (Hc (log_to p [Enter s])). simpl console.
  rewrite stage_events_app, <- app_assoc. reflexivity.
Qed.

Lemma staged_read_data_sets (w : World) (dir : string) :
  staged Load (read_data_sets w dir).
Proof.
  unfold read_data_sets. apply staged_enter.
  destruct (read_files w dir) as [d|]; [|apply leaves_raise].
  destruct (consistent (train d) && consistent (validation d)
            && consistent (test d));
    [apply leaves_emit_ret | apply leaves_raise].
Qed.

Lemma quiet_LoggingTensorHook (ts : list (string * string)) (n : Z) :
  quiet (LoggingTensorHook ts n).
Proof.
  unfold LoggingTensorHook.
  destruct (n <=? 0)%Z; [apply quiet_raise | apply quiet_ret].
Qed.

Lemma staged_train (est : Estimator) (w : World) (ip : input_pipeline)
      (steps : Z) (hooks : list tf.train.LoggingTensorHook) :
  staged Train (Estimator_train est w ip steps hooks).
Proof.
  unfold Estimator_train. apply staged_enter.
  destruct (steps <=? 0)%Z; [apply leaves_raise|].
  destruct (build_error ip) as [e|]; [apply leaves_raise|].
  apply leaves_bind; [apply quiet_get_checkpoint|]. intros ck.
  apply leaves_bind; [apply quiet_save_checkpoint|]. intros _.
  apply leaves_bind; [apply quiet_train_loop|]. intros ts.
  apply leaves_bind; [apply quiet_save_checkpoint|]. intros _.
  apply leaves_emit.
Qed.

Lemma staged_evaluate (est : Estimator) (w : World) (ip : input_pipeline) :
  staged Evaluate (Estimator_evaluate est w ip).
Proof.
  unfold Estimator_evaluate. apply staged_enter.
  apply leaves_bind; [apply quiet_get_checkpoint|]. intros [c|];
    [|apply leaves_raise].
  destruct (build_error ip) as [e|]; [apply leaves_raise|].
  destruct (remaining ip) as [n|]; [|apply leaves_diverge].
  apply leaves_bind; [apply quiet_eval_loop|]. intros r.
  apply leaves_emit_ret.
Qed.

Lemma staged_predict (est : Estimator) (w : World) (ip : input_pipeline)
      (body : nat * list R -> IO unit) :
  (forall r, quiet (body r)) ->
  staged Predict (Estimator_predict est w ip body).
Proof.
  intros Hb. unfold Estimator_predict. apply staged_enter.
  apply leaves_bind; [apply quiet_get_checkpoint|]. intros [c|];
    [|apply leaves_raise].
  destruct (build_error ip) as [e|]; [apply leaves_raise|].
  destruct (remaining ip) as [n|]; [|apply leaves_diverge].
  apply leaves_bind; [now apply quiet_predict_loop|]. intros _.
  apply leaves_emit.
Qed.

Lemma staged_export (est : Estimator) (w : World) (dir : string)
      (receiver : unit -> export.ServingInputReceiver) :
  staged Export (Estimator_export_savedmodel est w dir receiver).
Proof.
  unfold Estimator_export_savedmodel. apply staged_enter.
  apply leaves_bind; [apply quiet_get_checkpoint|]. intros [c|];
    [|apply leaves_raise].
  destruct (model_fn est _ _ _ _ _) as [[spec g]|]; [|apply leaves_raise].
  destruct (export_outputs spec) as [|o outs]; [apply leaves_raise|].
  destruct (can_write w dir); [|apply leaves_raise].
  apply leaves_bind; [apply quiet_write_export|]. intros _.
  apply leaves_emit.
Qed.

(** Chaining computations that go through stages. *)
Lemma goes_through_last {A : Type} (s : stage) (c : IO A) :
  staged s c -> goes_through [s] c.
Proof.
  intros Hc p. specialize (Hc p).
  destruct (is_ok (fst (c p))) eqn:E.
  - left. split; [reflexivity | exact Hc].
  - right. split; [reflexivity|].
    exists [Enter s], [Leave s]. split; [exact Hc|].
    split; [reflexivity | discriminate].
Qed.

Lemma goes_through_stage {A B : Type} (s : stage) (ss : list stage)
      (c : IO A) (k : A -> IO B) :
  staged s c -> (forall a, goes_through ss (k a)) ->
  goes_through (s :: ss) (bind c k).
Proof.
  intros Hc Hk p. specialize (Hc p). unfold bind.
  destruct (c p) as [[a|e|] p'] eqn:E; simpl in Hc.
  - destruct (Hk a p') as [[Hok Ht]|[Hok (evs & rest & Ht & Hs & Hr)]].
    + left. split; [exact Hok|]. rewrite Ht, Hc.
      rewrite <- app_assoc. reflexivity.
    + right. split; [exact Hok|].
      exists (Enter s :: Leave s :: evs), rest.
      split; [rewrite Ht, Hc; now rewrite <- app_assoc|].
      split; [simpl; now rewrite Hs | exact Hr].
  - right. split; [reflexivity|].
    exists [Enter s], (Leave s :: in_turn ss).
    split; [exact Hc|]. split; [reflexivity | discriminate].
  - right. split; [reflexivity|].
    exists [Enter s], (Leave s :: in_turn ss).
    split; [exact Hc|]. split; [reflexivity | discriminate].
Qed.

Lemma goes_through_quiet {A B : Type} (ss : list stage)
      (c : IO A) (k : A -> IO B) :
  quiet c -> (forall a, goes_through ss (k a)) -> ss <> [] ->
  goes_through ss (bind c k).
Proof.
  intros Hc Hk Hne p. specialize (Hc p). unfold bind.
  assert (Hfull : in_turn ss <> [])
    by (destruct ss; [congruence | discriminate]).
  destruct (c p) as [[a|e|] p'] eqn:E; simpl in Hc.
  - destruct (Hk a p') as [[Hok Ht]|[Hok (evs & rest & Ht & Hs & Hr)]].
    + left. split; [exact Hok|]. now rewrite Ht, Hc.
    + right. split; [exact Hok|]. exists evs, rest.
      split; [now rewrite Ht, Hc|]. split; assumption.
  - right. split; [reflexivity|]. exists [], (in_turn ss).
    simpl. rewrite app_nil_r. repeat split; assumption.
  - right. split; [reflexivity|]. exists [], (in_turn ss).
    simpl. rewrite app_nil_r. repeat split; assumption.
Qed.

Lemma main_goes_through (FLAGS : Flags) (w : World) :
  goes_through [Load; Train; Evaluate; Predict; Export] (main FLAGS w).
Proof.
  unfold main.
  apply goes_through_stage; [apply staged_read_data_sets|]. intros mnist.
  apply goes_through_quiet; [apply quiet_LoggingTensorHook| |discriminate].
  intros hook.
  apply goes_through_stage; [apply staged_train|]. intros _.
  apply goes_through_stage; [apply staged_evaluate|]. intros results.
  apply goes_through_quiet; [now apply quiet_emit| |discriminate].
  intros _.
  apply goes_through_stage.
  - apply staged_predict. intros r. now apply quiet_emit.
  - intros _. apply goes_through_last, staged_export.
Qed.

(** C8, amended.  In every run the stage events on the console are an
    initial part of: enter load, leave load, enter train, leave train,
    enter evaluate, leave evaluate, enter predict, leave predict, enter
    export, leave export.  So the stages begin in that order, none
    begins before the one before it was left, and none is repeated.
    The whole sequence is there exactly when the run returns normally;
    a run in which a stage raises or hangs stops there, and the later
    stages do not begin. *)
Theorem stages_run_in_order_until_failure (FLAGS : Flags) (w : World) :
  (exists rest,
      stage_events (console (snd (run FLAGS w))) ++ rest = pipeline)
  /\ (is_ok (fst (run FLAGS w)) = true
      <-> stage_events (console (snd (run FLAGS w))) = pipeline).
Proof.
  unfold run.
  destruct (main_goes_through FLAGS w (start FLAGS w))
    as [[Hok Ht]|[Hok (evs & rest & Ht & Hs & Hr)]];
    simpl in Ht; rewrite Ht.
  - split; [exists []; apply app_nil_r|]. rewrite Hok.
    split; reflexivity.
  - split; [exists rest; exact Hs|]. rewrite Hok.
    split; [discriminate|]. intros Heq. exfalso.
    change pipeline with (in_turn [Load; Train; Evaluate; Predict; Export])
      in Heq.
    rewrite <- Hs in Heq.
    apply (f_equal (@length event)) in Heq.
    rewrite length_app in Heq.
    destruct rest; [congruence | simpl in Heq; lia].
Qed.

(** ** A run in which nothing fails *)

Lemma predict_total_both vs noise rows labels_ :
  Forall (fun r => length r = 784%nat) rows ->
  exists spec g ps,
    cnn_model_fn vs noise (feature_dict 784 rows) labels_ ModeKeys.PREDICT
    = Some (spec, g)
    /\ predictions spec = Some ps
    /\ length (combine (classes ps) (probabilities ps)) = length rows
    /\ export_outputs spec
       = [(DEFAULT_SERVING_SIGNATURE_DEF_KEY, {| export.outputs := ps |})].
Proof.
  intros Hv.
  destruct (cnn_model_fn_valid vs noise rows labels_ ModeKeys.PREDICT Hv)
    as (logits & _ & [Hn _] & Heq).
  rewrite Heq, outputs_of_predict.
  eexists _, _, (spec_predictions logits).
  split; [reflexivity|]. split; [reflexivity|]. split; [|reflexivity].
  simpl. unfold tf.argmax, tf.nn.softmax.
  rewrite length_combine, !length_map, Hn. apply Nat.min_id.
Qed.

Lemma each_prints (l : list (nat * list R)) (p : Process) :
  (fix each (l : list (nat * list R)) : IO unit :=
     match l with
     | [] => ret tt
     | r :: l' => emit (PrintPrediction (fst r) (snd r)) ;;; each l'
     end) l p
  = (Ok tt, log_to p (map (fun r => PrintPrediction (fst r) (snd r)) l)).
Proof.
  revert p. induction l as [|r l IH]; intros p.
  - unfold ret. simpl. now rewrite log_to_nil.
  - unfold bind. rewrite emit_run, IH, log_to_app. reflexivity.
Qed.

Section Prediction.

Variable w : World.
Variable x : list (list R).
Variable y : list Z.
Variable vs : Variables.
Variable bs : nat.

Hypothesis x_valid : Forall (fun r => length r = 784%nat) x.
Hypothesis xy : length x = length y.
Hypothesis x_nonempty : (0 < length x)%nat.
Hypothesis bs_pos : (0 < bs)%nat.

(** The prediction loop of the script prints one record per example it
    is given. *)
Lemma predict_loop_spec (k : nat) :
  forall pos p,
    exists evs,
      predict_loop cnn_model_fn w vs k (NumpyInput x y bs 1 false pos)
                   (fun r => emit (PrintPrediction (fst r) (snd r))) p
      = (Ok tt, log_to p evs)
      /\ length evs = length (concat (numpy_batches bs (length x) k pos)).
Proof using x_valid xy x_nonempty bs_pos.
  induction k as [|k IH]; intros pos p.
  - exists []. cbn [predict_loop numpy_batches]. unfold ret.
    rewrite log_to_nil. split; reflexivity.
  - cbn [predict_loop numpy_batches].
    destruct (length x <=? pos)%nat eqn:E.
    + apply Nat.leb_le in E.
      rewrite (numpy_end w x y bs xy x_nonempty bs_pos pos E).
      exists []. unfold ret. rewrite log_to_nil. split; reflexivity.
    + apply Nat.leb_gt in E.
      rewrite (numpy_next w x y bs x_valid xy x_nonempty bs_pos pos E).
      set (idx := seq pos (Nat.min bs (length x - pos))).
      assert (Hrows : Forall (fun r => length r = 784%nat)
                             (gather [] x idx)).
      { apply gather_Forall; [exact x_valid|].
        apply Forall_forall. intros i Hi. apply in_seq in Hi. lia. }
      destruct (predict_total_both vs (random_uniform w 0) (gather [] x idx)
                                   None Hrows)
        as (spec & g & ps & -> & Hps & Hlen & _).
      rewrite Hps. unfold bind at 1. rewrite each_prints.
      destruct (IH (pos + bs)%nat
                   (log_to p (map (fun r => PrintPrediction (fst r) (snd r))
                                  (combine (classes ps) (probabilities ps)))))
        as (evs & -> & Hevs).
      eexists. rewrite log_to_app. split; [reflexivity|].
      cbn [concat]. rewrite !length_app, length_map, Hlen, Hevs.
      now rewrite gather_length.
Qed.

End Prediction.

Lemma predict_call_spec (w : World) (x : list (list R)) (y : list Z)
      (dir : string) (c : Checkpoint) (p : Process) :
  Forall (fun r => length r = 784%nat) x ->
  length x = length y ->
  (0 < length x)%nat ->
  checkpoint p = Some c ->
  exists evs,
    Estimator_predict {| model_fn := cnn_model_fn; model_dir := dir |} w
                      (numpy_input_fn x y 1 false)
                      (fun r => emit (PrintPrediction (fst r) (snd r))) p
    = (Ok tt, log_to p (Enter Predict :: evs ++ [Leave Predict]))
    /\ length evs = length x.
Proof.
  intros Hx Hxy Hn Hck. unfold Estimator_predict, numpy_input_fn.
  unfold bind at 1. rewrite emit_run.
  unfold bind at 1. unfold get_checkpoint.
  change (checkpoint (log_to p [Enter Predict])) with (checkpoint p).
  rewrite Hck, (numpy_builds x y 128 Hxy Hn). cbn [remaining model_fn].
  destruct (predict_loop_spec w x y (variables c) 128 Hx Hxy Hn ltac:(lia)
                              ((1 * length x - 0 + (128 - 1)) / 128) 0
                              (log_to p [Enter Predict]))
    as (evs & Hrun & Hlen).
  exists evs. unfold bind. rewrite Hrun, emit_run, !log_to_app.
  split; [reflexivity|].
  rewrite Hlen, (numpy_batches_concat x y 128 Hxy ltac:(lia)).
  - now rewrite length_seq, Nat.sub_0_r.
  - apply enough_reads.
Qed.

Lemma export_call_spec (w : World) (dir : string) (c : Checkpoint)
      (p : Process) :
  checkpoint p = Some c ->
  can_write w dir = true ->
  Estimator_export_savedmodel
    {| model_fn := cnn_model_fn; model_dir := dir |} w dir
    serving_input_receiver_fn p
  = (Ok tt,
     {| checkpoint := Some c;
        exported := Some (serving_bundle (variables c));
        console := console p ++ [Enter Export; Leave Export] |}).
Proof.
  intros Hck Hw. unfold Estimator_export_savedmodel.
  unfold bind at 1. rewrite emit_run.
  unfold bind at 1. unfold get_checkpoint.
  change (checkpoint (log_to p [Enter Export])) with (checkpoint p).
  rewrite Hck. cbn [model_fn].
  destruct (predict_total_both (variables c) (random_uniform w 0) [] None)
    as (spec & g & ps & Hrun & _ & _ & Hout); [constructor|].
  rewrite (cnn_model_fn_same_values
             _ _ _ (feature_dict 784 []) (Tensor [0; 784]%nat [])
             (of_rows 784 []) None ModeKeys.PREDICT); try reflexivity.
  rewrite Hrun, Hout, Hw.
  unfold bind, write_export, emit, log_to. simpl.
  rewrite Hck, <- app_assoc. reflexivity.
Qed.

Lemma bind_assoc {A B C : Type} (c : IO A) (k1 : A -> IO B)
      (k2 : B -> IO C) (p : Process) :
  bind (bind c k1) k2 p = bind c (fun a => bind (k1 a) k2) p.
Proof.
  unfold bind. destruct (c p) as [[a|e|] p']; reflexivity.
Qed.

Lemma read_data_sets_ok (w : World) (dir : string) (d : Datasets)
      (p : Process) :
  read_files w dir = Some d ->
  consistent (train d) && consistent (validation d) && consistent (test d)
  = true ->
  read_data_sets w dir p = (Ok d, log_to p [Enter Load; Leave Load]).
Proof.
  intros Hr Hc. unfold read_data_sets, bind. rewrite emit_run, Hr, Hc.
  rewrite emit_run. unfold ret. now rewrite log_to_app.
Qed.

(** ** What a stage leaves alone and what it adds *)

Lemma keeps_ret {A B : Type} (part : Process -> B) (a : A) :
  keeps part (ret a).
Proof. intros p. reflexivity. Qed.

Lemma keeps_raise {A B : Type} (part : Process -> B) (e : exn) :
  keeps part (@raise A e).
Proof. intros p. reflexivity. Qed.

Lemma keeps_diverge {A B : Type} (part : Process -> B) :
  keeps part (@diverge A).
Proof. intros p. reflexivity. Qed.

Lemma keeps_get_checkpoint {B : Type} (part : Process -> B) :
  keeps part get_checkpoint.
Proof. intros p. reflexivity. Qed.

Lemma keeps_bind {A B C : Type} (part : Process -> C)
      (c : IO A) (k : A -> IO B) :
  keeps part c -> (forall a, keeps part (k a)) -> keeps part (bind c k).
Proof.
  intros Hc Hk p. unfold bind. specialize (Hc p).
  destruct (c p) as [[a|e|] p']; cbn [snd] in *; [|exact Hc|exact Hc].
  now rewrite Hk.
Qed.

Lemma keeps_emit_all {B : Type} (part : Process -> B) (es : list event) :
  (forall e, keeps part (emit e)) -> keeps part (emit_all es).
Proof.
  intros He. induction es as [|e es IH]; cbn [emit_all];
    [apply keeps_ret|].
  apply keeps_bind; [apply He | intros _; exact IH].
Qed.

Lemma keeps_train_loop {B : Type} (part : Process -> B)
      (f : model_fn_t) (w : World) (n : nat) :
  (forall e, keeps part (emit e)) ->
  forall iter ts, keeps part (train_loop f w n iter ts).
Proof.
  intros He. induction n as [|n IH]; intros iter ts; cbn [train_loop];
    [apply keeps_ret|].
  destruct (next_batch w (reader ts));
    [|apply keeps_ret|apply keeps_diverge|apply keeps_raise].
  destruct (f _ _ _ _ _) as [[spec g]|]; [|apply keeps_raise].
  destruct (loss spec); [|apply keeps_raise].
  destruct (train_op spec) as [op|]; [|apply keeps_raise].
  destruct (run_hooks g iter (hook_states ts)) as [[logs hs']|];
    [|apply keeps_raise].
  destruct (tf.train.apply_gradients _ _ _ _) as [vs' sl'].
  apply keeps_bind; [apply He|]. intros _.
  apply keeps_bind; [now apply keeps_emit_all|]. intros _.
  destruct (tf.train.increments_global_step op);
    [apply IH | apply keeps_diverge].
Qed.

Lemma keeps_eval_loop {B : Type} (part : Process -> B)
      (f : model_fn_t) (w : World) (vs : Variables) (n : nat) :
  (forall e, keeps part (emit e)) ->
  forall p acc la, keeps part (eval_loop f w vs n p acc la).
Proof.
  intros He. induction n as [|n IH]; intros p acc la; cbn [eval_loop];
    [apply keeps_ret|].
  destruct (next_batch w p);
    [|apply keeps_ret|apply keeps_diverge|apply keeps_raise].
  destruct (f _ _ _ _ _) as [[spec g]|]; [|apply keeps_raise].
  destruct (loss spec); [|apply keeps_raise].
  apply keeps_bind; [apply He|]. intros _. apply IH.
Qed.

Lemma keeps_each {B : Type} (part : Process -> B)
      (body : nat * list R -> IO unit) (l : list (nat * list R)) :
  (forall r, keeps part (body r)) ->
  keeps part ((fix each (l : list (nat * list R)) : IO unit :=
                 match l with
                 | [] => ret tt
                 | r :: l' => body r ;;; each l'
                 end) l).
Proof.
  intros Hb. induction l as [|r l IH]; [apply keeps_ret|].
  apply keeps_bind; [apply Hb | intros _; exact IH].
Qed.

Lemma keeps_predict_loop {B : Type} (part : Process -> B)
      (f : model_fn_t) (w : World) (vs : Variables)
      (body : nat * list R -> IO unit) (n : nat) :
  (forall r, keeps part (body r)) ->
  forall p, keeps part (predict_loop f w vs n p body).
Proof.
  intros Hb. induction n as [|n IH]; intros p; cbn [predict_loop];
    [apply keeps_ret|].
  destruct (next_batch w p);
    [|apply keeps_ret|apply keeps_diverge|apply keeps_raise].
  destruct (f _ _ _ _ _) as [[spec g]|]; [|apply keeps_raise].
  destruct (predictions spec) as [ps|]; [|apply keeps_raise].
  apply keeps_bind; [now apply keeps_each | intros _; apply IH].
Qed.

Lemma emit_keeps_checkpoint (e : event) : keeps checkpoint (emit e).
Proof. intros p. reflexivity. Qed.

Lemma emit_keeps_exported (e : event) : keeps exported (emit e).
Proof. intros p. reflexivity. Qed.

Lemma keeps_evaluate {B : Type} (part : Process -> B)
      (est : Estimator) (w : World) (ip : input_pipeline) :
  (forall e, keeps part (emit e)) ->
  keeps part (Estimator_evaluate est w ip).
Proof.
  intros He. unfold Estimator_evaluate.
  apply keeps_bind; [apply He|]. intros _.
  apply keeps_bind; [apply keeps_get_checkpoint|]. intros [c|];
    [|apply keeps_raise].
  destruct (build_error ip) as [e|]; [apply keeps_raise|].
  destruct (remaining ip) as [n|]; [|apply keeps_diverge].
  apply keeps_bind; [now apply keeps_eval_loop|]. intros r.
  apply keeps_bind; [apply He|]. intros _. apply keeps_ret.
Qed.

Lemma keeps_predict {B : Type} (part : Process -> B)
      (est : Estimator) (w : World) (ip : input_pipeline)
      (body : nat * list R -> IO unit) :
  (forall e, keeps part (emit e)) ->
  (forall r, keeps part (body r)) ->
  keeps part (Estimator_predict est w ip body).
Proof.
  intros He Hb. unfold Estimator_predict.
  apply keeps_bind; [apply He|]. intros _.
  apply keeps_bind; [apply keeps_get_checkpoint|]. intros [c|];
    [|apply keeps_raise].
  destruct (build_error ip) as [e|]; [apply keeps_raise|].
  destruct (remaining ip) as [n|]; [|apply keeps_diverge].
  apply keeps_bind; [now apply keeps_predict_loop|]. intros _. apply He.
Qed.

Lemma train_keeps_exported (est : Estimator) (w : World)
      (ip : input_pipeline) (steps : Z)
      (hooks : list tf.train.LoggingTensorHook) :
  keeps exported (Estimator_train est w ip steps hooks).
Proof.
  unfold Estimator_train.
  apply keeps_bind; [apply emit_keeps_exported|]. intros _.
  destruct (steps <=? 0)%Z; [apply keeps_raise|].
  destruct (build_error ip) as [e|]; [apply keeps_raise|].
  apply keeps_bind; [apply keeps_get_checkpoint|]. intros ck.
  apply keeps_bind; [intros p; reflexivity|]. intros _.
  apply keeps_bind;
    [apply keeps_train_loop, emit_keeps_exported|]. intros ts.
  apply keeps_bind; [intros p; reflexivity|]. intros _.
  apply emit_keeps_exported.
Qed.

Lemma export_keeps_checkpoint (est : Estimator) (w : World) (dir : string)
      (receiver : unit -> export.ServingInputReceiver) :
  keeps checkpoint (Estimator_export_savedmodel est w dir receiver).
Proof.
  unfold Estimator_export_savedmodel.
  apply keeps_bind; [apply emit_keeps_checkpoint|]. intros _.
  apply keeps_bind; [apply keeps_get_checkpoint|]. intros [c|];
    [|apply keeps_raise].
  destruct (model_fn est _ _ _ _ _) as [[spec g]|]; [|apply keeps_raise].
  destruct (export_outputs spec) as [|o outs]; [apply keeps_raise|].
  destruct (can_write w dir); [|apply keeps_raise].
  apply keeps_bind; [intros p; reflexivity|]. intros _.
  apply emit_keeps_checkpoint.
Qed.

Lemma only_adds_ret {A : Type} (ss : list stage) (a : A) :
  only_adds ss (ret a).
Proof. intros p. exists []. now rewrite app_nil_r. Qed.

Lemma only_adds_raise {A : Type} (ss : list stage) (e : exn) :
  only_adds ss (@raise A e).
Proof. intros p. exists []. now rewrite app_nil_r. Qed.

Lemma only_adds_diverge {A : Type} (ss : list stage) :
  only_adds ss (@diverge A).
Proof. intros p. exists []. now rewrite app_nil_r. Qed.

Lemma only_adds_get_checkpoint (ss : list stage) :
  only_adds ss get_checkpoint.
Proof. intros p. exists []. now rewrite app_nil_r. Qed.

Lemma only_adds_write_export (ss : list stage) (m : SavedModel) :
  only_adds ss (write_export m).
Proof. intros p. exists []. now rewrite app_nil_r. Qed.

Lemma only_adds_emit (ss : list stage) (e : event) :
  In (stage_of e) ss -> only_adds ss (emit e).
Proof. intros He p. exists [e]. split; [reflexivity|]. now constructor. Qed.

Lemma only_adds_bind {A B : Type} (ss : list stage)
      (c : IO A) (k : A -> IO B) :
  only_adds ss c -> (forall a, only_adds ss (k a)) -> only_adds ss (bind c k).
Proof.
  intros Hc Hk p. unfold bind. destruct (Hc p) as (es & He & Hf).
  destruct (c p) as [[a|e|] p']; cbn [snd] in *;
    [|exists es; now split|exists es; now split].
  destruct (Hk a p') as (es' & He' & Hf'). exists (es ++ es').
  rewrite He', He, app_assoc. split; [reflexivity|].
  apply Forall_app. now split.
Qed.

Lemma only_adds_eval_loop (ss : list stage)
      (f : model_fn_t) (w : World) (vs : Variables) (n : nat) :
  In Evaluate ss ->
  forall p acc la, only_adds ss (eval_loop f w vs n p acc la).
Proof.
  intros Hs. induction n as [|n IH]; intros p acc la; cbn [eval_loop];
    [apply only_adds_ret|].
  destruct (next_batch w p);
    [|apply only_adds_ret|apply only_adds_diverge|apply only_adds_raise].
  destruct (f _ _ _ _ _) as [[spec g]|]; [|apply only_adds_raise].
  destruct (loss spec); [|apply only_adds_raise].
  apply only_adds_bind; [now apply only_adds_emit|]. intros _. apply IH.
Qed.

Lemma only_adds_each (ss : list stage)
      (body : nat * list R -> IO unit) (l : list (nat * list R)) :
  (forall r, only_adds ss (body r)) ->
  only_adds ss ((fix each (l : list (nat * list R)) : IO unit :=
                   match l with
                   | [] => ret tt
                   | r :: l' => body r ;;; each l'
                   end) l).
Proof.
  intros Hb. induction l as [|r l IH]; [apply only_adds_ret|].
  apply only_adds_bind; [apply Hb | intros _; exact IH].
Qed.

Lemma only_adds_predict_loop (ss : list stage)
      (f : model_fn_t) (w : World) (vs : Variables)
      (body : nat * list R -> IO unit) (n : nat) :
  (forall r, only_adds ss (body r)) ->
  forall p, only_adds ss (predict_loop f w vs n p body).
Proof.
  intros Hb. induction n as [|n IH]; intros p; cbn [predict_loop];
    [apply only_adds_ret|].
  destruct (next_batch w p);
    [|apply only_adds_ret|apply only_adds_diverge|apply only_adds_raise].
  destruct (f _ _ _ _ _) as [[spec g]|]; [|apply only_adds_raise].
  destruct (predictions spec) as [ps|]; [|apply only_adds_raise].
  apply only_adds_bind; [now apply only_adds_each | intros _; apply IH].
Qed.

Lemma only_adds_evaluate (ss : list stage)
      (est : Estimator) (w : World) (ip : input_pipeline) :
  In Evaluate ss -> only_adds ss (Estimator_evaluate est w ip).
Proof.
  intros Hs. unfold Estimator_evaluate.
  apply only_adds_bind; [now apply only_adds_emit|]. intros _.
  apply only_adds_bind; [apply only_adds_get_checkpoint|]. intros [c|];
    [|apply only_adds_raise].
  destruct (build_error ip) as [e|]; [apply only_adds_raise|].
  destruct (remaining ip) as [n|]; [|apply only_adds_diverge].
  apply only_adds_bind; [now apply only_adds_eval_loop|]. intros r.
  apply only_adds_bind; [now apply only_adds_emit|]. intros _.
  apply only_adds_ret.
Qed.

Lemma only_adds_predict (ss : list stage)
      (est : Estimator) (w : World) (ip : input_pipeline) :
  In Predict ss ->
  only_adds ss (Estimator_predict
                  est w ip (fun r => emit (PrintPrediction (fst r) (snd r)))).
Proof.
  intros Hs. unfold Estimator_predict.
  apply only_adds_bind; [now apply only_adds_emit|]. intros _.
  apply only_adds_bind; [apply only_adds_get_checkpoint|]. intros [c|];
    [|apply only_adds_raise].
  destruct (build_error ip) as [e|]; [apply only_adds_raise|].
  destruct (remaining ip) as [n|]; [|apply only_adds_diverge].
  apply only_adds_bind.
  - apply only_adds_predict_loop. intros r. now apply only_adds_emit.
  - intros _. now apply only_adds_emit.
Qed.

Lemma only_adds_export (ss : list stage)
      (est : Estimator) (w : World) (dir : string)
      (receiver : unit -> export.ServingInputReceiver) :
  In Export ss ->
  only_adds ss (Estimator_export_savedmodel est w dir receiver).
Proof.
  intros Hs. unfold Estimator_export_savedmodel.
  apply only_adds_bind; [now apply only_adds_emit|]. intros _.
  apply only_adds_bind; [apply only_adds_get_checkpoint|]. intros [c|];
    [|apply only_adds_raise].
  destruct (model_fn est _ _ _ _ _) as [[spec g]|];
    [|apply only_adds_raise].
  destruct (export_outputs spec) as [|o outs]; [apply only_adds_raise|].
  destruct (can_write w dir); [|apply only_adds_raise].
  apply only_adds_bind; [apply only_adds_write_export|]. intros _.
  now apply only_adds_emit.
Qed.

(** ** The script, stage by stage *)

Lemma main_after_training (FLAGS : Flags) (w : World) :
  main FLAGS w
  = (mnist <-- read_data_sets w (data_dir FLAGS) ;;;
     logging_hook <-- LoggingTensorHook
                        [("probabilities", "softmax_tensor")]%string
                        (logging_hook_iter FLAGS) ;;;
     Estimator_train {| model_fn := cnn_model_fn;
                        model_dir := model_dir_flag FLAGS |} w
                     (generate_input_fn (train mnist) BATCH_SIZE)
                     (num_steps FLAGS) [logging_hook] ;;;
     after_training FLAGS w mnist).
Proof. reflexivity. Qed.

Lemma after_evaluation_adds (FLAGS : Flags) (w : World) (d : Datasets) :
  only_adds [Predict; Export] (after_evaluation FLAGS w d).
Proof.
  unfold after_evaluation. cbv zeta.
  apply only_adds_bind; [apply only_adds_predict; simpl; tauto|].
  intros _. apply only_adds_export. simpl. tauto.
Qed.

Lemma after_evaluation_keeps (FLAGS : Flags) (w : World) (d : Datasets) :
  keeps checkpoint (after_evaluation FLAGS w d).
Proof.
  unfold after_evaluation. cbv zeta.
  apply keeps_bind.
  - apply keeps_predict; [apply emit_keeps_checkpoint|].
    intros r. apply emit_keeps_checkpoint.
  - intros _. apply export_keeps_checkpoint.
Qed.

Lemma only_adds_more {A : Type} (ss ss' : list stage) (c : IO A) :
  incl ss ss' -> only_adds ss c -> only_adds ss' c.
Proof.
  intros Hi Hc p. destruct (Hc p) as (es & He & Hf). exists es.
  split; [exact He|]. eapply Forall_impl; [|exact Hf].
  intros e. apply Hi.
Qed.

Lemma after_training_adds (FLAGS : Flags) (w : World) (d : Datasets) :
  only_adds [Evaluate; Predict; Export] (after_training FLAGS w d).
Proof.
  unfold after_training. cbv zeta.
  apply only_adds_bind; [apply only_adds_evaluate; simpl; tauto|].
  intros r.
  apply only_adds_bind; [apply only_adds_emit; simpl; tauto|]. intros _.
  apply (only_adds_more [Predict; Export]);
    [|apply after_evaluation_adds].
  intros s Hs. right. exact Hs.
Qed.

Lemma after_training_keeps (FLAGS : Flags) (w : World) (d : Datasets) :
  keeps checkpoint (after_training FLAGS w d).
Proof.
  unfold after_training. cbv zeta.
  apply keeps_bind; [apply keeps_evaluate, emit_keeps_checkpoint|].
  intros r.
  apply keeps_bind; [apply emit_keeps_checkpoint|]. intros _.
  apply after_evaluation_keeps.
Qed.

Lemma consistent_splits (d : Datasets) :
  consistent (train d) && consistent (validation d) && consistent (test d)
  = true ->
  length (images (train d)) = length (labels (train d))
  /\ length (images (test d)) = length (labels (test d)).
Proof.
  intros H. apply andb_prop in H. destruct H as [H Hte].
  apply andb_prop in H. destruct H as [Htr _].
  unfold consistent in *. split; now apply Nat.eqb_eq.
Qed.

(** Up to the return of the training call. *)
Lemma run_after_training (FLAGS : Flags) (w : World) (d : Datasets) :
  read_files w (data_dir FLAGS) = Some d ->
  consistent (train d) && consistent (validation d) && consistent (test d)
  = true ->
  valid_batch (images (train d)) = true ->
  (0 < num_examples (train d))%nat ->
  (0 < num_steps FLAGS)%Z ->
  (0 < logging_hook_iter FLAGS)%Z ->
  exists c' steps q',
    run FLAGS w
    = after_training
        FLAGS w d
        {| checkpoint := Some c'; exported := None;
           console := [Enter Load; Leave Load]
                      ++ Enter Train
                      :: render (Z.to_nat (logging_hook_iter FLAGS)) 0 steps
                      ++ [Leave Train] |}
    /\ length steps = Z.to_nat (num_steps FLAGS)
    /\ global_step c'
       = (match found_checkpoint w (model_dir_flag FLAGS) with
          | Some c0 => global_step c0
          | None => 0
          end + Z.to_nat (num_steps FLAGS))%nat
    /\ Forall (step_ok (num_examples (train d))) steps
    /\ Permutation (concat (map fst steps) ++ tf.train.waiting q')
                   (pushed (num_examples (train d)) (tf.train.enqueued q'))
    /\ (length (tf.train.waiting q') <= 800)%nat
    /\ map fst steps
       = shuffle_batches (num_examples (train d)) 800 400 100 (scheduler w)
                         (Z.to_nat (num_steps FLAGS)) 0 tf.train.empty_queue
    /\ training_steps
         w (constants (train d)) 0 steps
         (match found_checkpoint w (model_dir_flag FLAGS) with
          | Some c0 => (variables c0, slots c0)
          | None => (initial_value w, tf.train.init_slots)
          end)
         (variables c', slots c').
Proof.
  intros Hread Hcons Htr Htrn Hsteps Hperiod.
  destruct (consistent_splits d Hcons) as [Hctr _].
  set (p0 := start FLAGS w).
  set (p1 := log_to p0 [Enter Load; Leave Load]).
  destruct (train_call_spec w (train d) (model_dir_flag FLAGS)
                            (num_steps FLAGS) (logging_hook_iter FLAGS) p1
                            Htr Htrn Hctr Hsteps Hperiod)
    as (c' & steps & q' & Htrain & Hlen & Hgs & Hok & Hperm & Hcap & Hb & Ht).
  exists c', steps, q'.
  split.
  { unfold run. rewrite main_after_training. fold p0.
    unfold bind at 1.
    rewrite (read_data_sets_ok w (data_dir FLAGS) d p0 Hread Hcons).
    fold p1. rewrite <- bind_assoc. unfold bind at 1. rewrite Htrain.
    reflexivity. }
  split; [exact Hlen|]. split; [exact Hgs|]. split; [exact Hok|].
  split; [exact Hperm|]. split; [exact Hcap|]. split; [exact Hb|].
  exact Ht.
Qed.

(** From the return of the training call to the print of the results. *)
Lemma after_training_evaluates (FLAGS : Flags) (w : World) (d : Datasets)
      (c : Checkpoint) (p : Process) :
  valid_batch (images (test d)) = true ->
  length (images (test d)) = length (labels (test d)) ->
  (0 < num_examples (test d))%nat ->
  checkpoint p = Some c ->
  exists batches loss_value,
    concat batches = seq 0 (num_examples (test d))
    /\ Forall (fun b => (0 < length b <= 128)%nat) batches
    /\ after_training FLAGS w d p
       = after_evaluation
           FLAGS w d
           (log_to p
                   (Enter Evaluate :: map RunEval batches
                    ++ [Leave Evaluate;
                        PrintResults
                          [("accuracy"%string,
                            correct_in (variables c) (images (test d))
                                       (as_int32 (labels (test d)))
                                       (seq 0 (num_examples (test d)))
                            / INR (num_examples (test d)));
                           ("loss"%string, loss_value);
                           ("global_step"%string, INR (global_step c))]])).
Proof.
  intros Hv Hxy Hn Hck. apply valid_batch_Forall in Hv.
  assert (Hxy' : length (images (test d))
                 = length (as_int32 (labels (test d))))
    by (unfold as_int32; now rewrite length_map).
  destruct (evaluate_call_spec (images (test d)) (as_int32 (labels (test d)))
                               (model_dir_flag FLAGS) c p Hv Hxy' Hn Hck)
    as (batches & lv & Hcat & Hsz & Heval).
  exists batches, lv. split; [exact Hcat|]. split; [exact Hsz|].
  unfold after_training. cbv zeta.
  unfold bind at 1. rewrite (Heval w).
  unfold bind at 1. rewrite emit_run, log_to_app.
  unfold num_examples. cbn [app]. rewrite <- app_assoc. reflexivity.
Qed.

Lemma shuffled_length (w : World) (k : nat) (d : DataSet) :
  length (images (shuffled w k d)) = num_examples d.
Proof.
  unfold shuffled. cbn [images].
  now rewrite gather_length, length_map, length_seq.
Qed.

(** The batch the script asks the test split for is not empty when the
    split is not. *)
Lemma predict_batch_nonempty (w : World) (d : DataSet) :
  (0 < num_examples d)%nat ->
  (0 < length (fst (DataSet_next_batch w d 20)))%nat.
Proof.
  intros Hn. unfold DataSet_next_batch.
  destruct (20 <=? num_examples d)%nat eqn:E; cbn [fst].
  - apply Nat.leb_le in E.
    rewrite length_firstn, shuffled_length. lia.
  - rewrite length_app, shuffled_length. lia.
Qed.

(** When the files hold consistent splits of flat 28x28 images, the
    flags are positive and the disk takes the export, the run returns
    normally: all five stages happen, the model directory holds a
    checkpoint advanced by [num_steps], and the serving bundle is
    written from that checkpoint. *)
Lemma complete_run (FLAGS : Flags) (w : World) (d : Datasets) :
  read_files w (data_dir FLAGS) = Some d ->
  consistent (train d) && consistent (validation d) && consistent (test d)
  = true ->
  valid_batch (images (train d)) = true ->
  (0 < num_examples (train d))%nat ->
  valid_batch (images (test d)) = true ->
  (0 < num_examples (test d))%nat ->
  valid_batch (fst (DataSet_next_batch w (test d) 20)) = true ->
  length (fst (DataSet_next_batch w (test d) 20))
  = length (snd (DataSet_next_batch w (test d) 20)) ->
  (0 < num_steps FLAGS)%Z ->
  (0 < logging_hook_iter FLAGS)%Z ->
  can_write w (model_dir_flag FLAGS) = true ->
  fst (run FLAGS w) = Ok tt
  /\ stage_events (console (snd (run FLAGS w))) = pipeline
  /\ exists c,
      checkpoint (snd (run FLAGS w)) = Some c
      /\ exported (snd (run FLAGS w)) = Some (serving_bundle (variables c))
      /\ global_step c
         = (match found_checkpoint w (model_dir_flag FLAGS) with
            | Some c0 => global_step c0
            | None => 0
            end + Z.to_nat (num_steps FLAGS))%nat.
Proof.
  intros Hread Hcons Htr Htrn Hte Hten Hpb Hpbl Hsteps Hperiod Hdisk.
  destruct (consistent_splits d Hcons) as [_ Hcte].
  apply valid_batch_Forall in Hpb.
  destruct (run_after_training FLAGS w d Hread Hcons Htr Htrn Hsteps Hperiod)
    as (c' & steps & q' & Hrun1 & _ & Hgs & _).
  match type of Hrun1 with _ = _ ?p => set (p2 := p) in * end.
  destruct (after_training_evaluates FLAGS w d c' p2 Hte Hcte Hten eq_refl)
    as (batches & lv & _ & _ & Heval).
  match type of Heval with _ = _ ?p => set (p3 := p) in * end.
  assert (Hpbl' : length (fst (DataSet_next_batch w (test d) 20))
                  = length (as_int32 (snd (DataSet_next_batch w (test d) 20))))
    by (unfold as_int32; now rewrite length_map).
  destruct (predict_call_spec w (fst (DataSet_next_batch w (test d) 20))
                              (as_int32 (snd (DataSet_next_batch w (test d) 20)))
                              (model_dir_flag FLAGS) c' p3 Hpb Hpbl'
                              (predict_batch_nonempty w (test d) Hten)
                              eq_refl)
    as (evs & Hpred & _).
  match type of Hpred with _ = (_, ?p) => set (p4 := p) in * end.
  pose proof (export_call_spec w (model_dir_flag FLAGS) c' p4 eq_refl Hdisk)
    as Hexp.
  assert (Hrun : run FLAGS w
                 = (Ok tt,
                    {| checkpoint := Some c';
                       exported := Some (serving_bundle (variables c'));
                       console := console p4
                                  ++ [Enter Export; Leave Export] |})).
  { rewrite Hrun1, Heval. unfold after_evaluation. cbv zeta.
    unfold bind at 1. rewrite Hpred. exact Hexp. }
  split; [now rewrite Hrun|].
  split.
  { destruct (main_goes_through FLAGS w (start FLAGS w))
      as [[_ Ht]|[Hok _]].
    - exact Ht.
    - unfold run in Hrun. rewrite Hrun in Hok. discriminate. }
  exists c'. rewrite Hrun. simpl.
  split; [reflexivity|]. split; [reflexivity | exact Hgs].
Qed.

Example a_complete_run :
  fst (run short_run_flags sample_world) = Ok tt
  /\ stage_events (console (snd (run short_run_flags sample_world)))
     = pipeline.
Proof.
  assert (Hn : (0 < num_examples sample_split)%nat)
    by (unfold num_examples, sample_split; simpl; lia).
  destruct (complete_run short_run_flags sample_world
              {| train := sample_split; validation := sample_split;
                 test := sample_split |})
    as (H1 & H2 & _); try reflexivity; try exact Hn.
  split; assumption.
Qed.

(** * Further properties of the model function *)

(** ** Required inputs *)

Lemma outputs_of_loss (logits : list (list R)) (labels_ : list Z)
      (mode : ModeKeys.t) :
  length labels_ = length logits ->
  mode <> ModeKeys.PREDICT ->
  exists spec g,
    outputs_of logits (Some labels_) mode = Some (spec, g)
    /\ loss spec = Some (spec_loss (map tf.cast_int32 labels_) logits)
    /\ named g
       = [("softmax_tensor"%string, tf.nn.softmax logits);
          ("softmax_tensor_1"%string, tf.nn.softmax logits)]
    /\ summaries g = summaries_in mode
    /\ (mode = ModeKeys.EVAL ->
        tf.metrics.accuracy labels_ (tf.argmax logits)
        = option_map snd (hd_error (eval_metric_ops spec))).
Proof.
  intros Hlen Hmode. unfold outputs_of.
  rewrite losses_softmax_cross_entropy by (now rewrite length_map).
  destruct mode; [| |congruence].
  - eexists _, _. split; [reflexivity|]. split; [reflexivity|].
    split; [reflexivity|]. split; [reflexivity|]. discriminate.
  - assert (Ha : length labels_
                 = length (classes (spec_predictions logits)))
      by (simpl; unfold tf.argmax; now rewrite length_map).
    rewrite (accuracy_defined _ _ Ha).
    eexists _, _. split; [reflexivity|]. split; [reflexivity|].
    split; [reflexivity|]. split; [reflexivity|]. intros _.
    cbn [eval_metric_ops hd_error option_map snd].
    apply accuracy_defined. exact Ha.
Qed.

(** X1.  In predict mode the model function never reads the labels: it
    returns the same result whatever is passed for them (the script
    passes labels to the prediction input, which are dropped).  *)
Theorem predict_mode_ignores_labels
        (vs : Variables) (noise : nat -> nat -> R)
        (features : string -> option tensor)
        (labels1 labels2 : option (list Z)) :
  cnn_model_fn vs noise features labels1 ModeKeys.PREDICT
  = cnn_model_fn vs noise features labels2 ModeKeys.PREDICT.
Proof.
  rewrite !cnn_model_fn_factor.
  destruct (features "x"%string) as [x|]; [|reflexivity].
  destruct (tf.reshape x [-1; 28; 28; 1]%Z) as [input_layer|];
    [|reflexivity].
  destruct (run_layers vs noise (spec_architecture ModeKeys.PREDICT)
                       (Maps (nhwc input_layer))) as [[y|logits]|];
    [reflexivity | | reflexivity].
  now rewrite !outputs_of_predict.
Qed.

(** X2.  Outside predict mode the labels are required: on a batch of
    flat 28x28 images the model function fails when it is given no
    labels, in train and in eval mode.  In every mode it fails when the
    feature dictionary has no entry ["x"]. *)
Theorem labels_and_features_are_required
        (vs : Variables) (noise : nat -> nat -> R)
        (rows : list (list R)) (mode : ModeKeys.t) :
  valid_batch rows = true ->
  mode <> ModeKeys.PREDICT ->
  cnn_model_fn vs noise (feature_dict 784 rows) None mode = None
  /\ (forall features labels_ any_mode,
         features "x"%string = None ->
         cnn_model_fn vs noise features labels_ any_mode = None).
Proof.
  intros Hv Hmode. apply valid_batch_Forall in Hv. split.
  - destruct (cnn_model_fn_valid vs noise rows None mode Hv)
      as (logits & _ & _ & ->).
    unfold outputs_of. destruct mode; [reflexivity | reflexivity | congruence].
  - intros features labels_ any_mode Hx.
    rewrite cnn_model_fn_factor, Hx. reflexivity.
Qed.

Lemma labels_and_features_are_required_witness :
  valid_batch [blank_image] = true
  /\ ModeKeys.TRAIN <> ModeKeys.PREDICT
  /\ cnn_model_fn zero_variables no_noise (feature_dict 784 [blank_image])
                  None ModeKeys.TRAIN = None.
Proof.
  assert (Hm : ModeKeys.TRAIN <> ModeKeys.PREDICT) by discriminate.
  split; [reflexivity|]. split; [exact Hm|].
  exact (proj1 (labels_and_features_are_required
                  zero_variables no_noise [blank_image] ModeKeys.TRAIN
                  eq_refl Hm)).
Defined.

(** ** Tensors and summaries left in the graph *)

(** X3.  The model function asks twice for the name [softmax_tensor];
    the graph it leaves holds the probabilities under [softmax_tensor]
    and once more under [softmax_tensor_1], so that the tensor the
    logging hook of the script asks for is the probabilities.  In train
    and eval mode three summaries are added and filed under [loss],
    [conv1] and [dense_1]: the name [dense] is in use by the last dense
    layer, which was given no name, so the histogram asked for under
    [dense] gets the next free name.  In predict mode no summary is
    added. *)
Theorem tensors_named_in_the_graph
        (vs : Variables) (noise : nat -> nat -> R)
        (rows : list (list R)) (labels_ : list Z) (mode : ModeKeys.t) :
  valid_batch rows = true ->
  length labels_ = length rows ->
  exists logits spec g,
    run_layers vs noise (spec_architecture mode) (Maps (as_images rows))
    = Some (Vectors logits)
    /\ cnn_model_fn vs noise (feature_dict 784 rows) (Some labels_) mode
       = Some (spec, g)
    /\ named g
       = [("softmax_tensor"%string, tf.nn.softmax logits);
          ("softmax_tensor_1"%string, tf.nn.softmax logits)]
    /\ lookup "softmax_tensor" (named g) = Some (tf.nn.softmax logits)
    /\ summaries g = summaries_in mode.
Proof.
  intros Hv Hlen. apply valid_batch_Forall in Hv.
  destruct (cnn_model_fn_valid vs noise rows (Some labels_) mode Hv)
    as (logits & Hrun & [Hn _] & Heq).
  exists logits. rewrite Heq.
  destruct (ModeKeys.eqb mode ModeKeys.PREDICT) eqn:E.
  - destruct mode; try discriminate. rewrite outputs_of_predict.
    eexists _, _. split; [exact Hrun|]. split; [reflexivity|].
    split; [reflexivity|]. split; reflexivity.
  - assert (Hmode : mode <> ModeKeys.PREDICT)
      by (intros ->; discriminate).
    destruct (outputs_of_loss logits labels_ mode) as
        (spec & g & Hout & _ & Hnamed & Hsum & _);
      [congruence | exact Hmode |].
    exists spec, g. split; [exact Hrun|]. split; [exact Hout|].
    split; [exact Hnamed|]. split; [|exact Hsum].
    rewrite Hnamed. reflexivity.
Qed.

Lemma tensors_named_in_the_graph_witness :
  valid_batch [blank_image] = true
  /\ length [3%Z] = length [blank_image]
  /\ exists spec g probs,
       cnn_model_fn zero_variables no_noise (feature_dict 784 [blank_image])
                    (Some [3%Z]) ModeKeys.TRAIN = Some (spec, g)
       /\ lookup "softmax_tensor" (named g) = Some probs
       /\ lookup "softmax_tensor_1" (named g) = Some probs
       /\ summaries g = ["loss"; "conv1"; "dense_1"]%string.
Proof.
  split; [reflexivity|]. split; [reflexivity|].
  destruct (tensors_named_in_the_graph
              zero_variables no_noise [blank_image] [3%Z] ModeKeys.TRAIN
              eq_refl eq_refl)
    as (logits & spec & g & _ & H1 & H2 & H3 & H4).
  exists spec, g, (tf.nn.softmax logits).
  split; [exact H1|]. split; [exact H3|]. split; [|exact H4].
  rewrite H2. reflexivity.
Defined.

(** ** Range of the predictions *)

Lemma exp_le_sum (x : R) (l : list R) : In x l -> exp x <= Rsum (map exp l).
Proof.
  induction l as [|a l IH]; intros Hin; [destruct Hin|].
  change (Rsum (map exp (a :: l))) with (exp a + Rsum (map exp l)).
  destruct Hin as [->|Hin].
  - assert (0 <= Rsum (map exp l)).
    { destruct l as [|b l]; [simpl; lra|].
      left. apply exp_sum_pos. discriminate. }
    lra.
  - specialize (IH Hin). pose proof (exp_pos a). lra.
Qed.

Lemma softmax_row_unit (l : list R) :
  Forall (fun q => 0 < q <= 1) (tf.nn.softmax_row l).
Proof.
  apply Forall_forall. intros q Hq.
  split; [exact (proj1 (Forall_forall _ _) (softmax_row_pos l) q Hq)|].
  unfold tf.nn.softmax_row in Hq. apply in_map_iff in Hq.
  destruct Hq as [x [<- Hx]].
  assert (HS : 0 < Rsum (map exp l))
    by (apply exp_sum_pos; intros ->; contradiction).
  pose proof (exp_le_sum x l Hx) as Hle.
  apply (Rmult_le_reg_r (Rsum (map exp l))); [exact HS|].
  unfold Rdiv. rewrite Rmult_assoc, Rinv_l by lra. lra.
Qed.

(** X4.  For every batch of flat 28x28 images, each predicted class is
    one of the ten digits 0..9 and each predicted probability lies
    between 0 and 1, both included. *)
Theorem predictions_are_digits_with_unit_probabilities
        (vs : Variables) (noise : nat -> nat -> R)
        (rows : list (list R)) (labels_ : option (list Z)) :
  valid_batch rows = true ->
  exists spec g ps,
    cnn_model_fn vs noise (feature_dict 784 rows) labels_ ModeKeys.PREDICT
    = Some (spec, g)
    /\ predictions spec = Some ps
    /\ Forall (fun c => (c < 10)%nat) (classes ps)
    /\ Forall (Forall (fun q => 0 <= q <= 1)) (probabilities ps).
Proof.
  intros Hv. apply valid_batch_Forall in Hv.
  destruct (cnn_model_fn_valid vs noise rows labels_ ModeKeys.PREDICT Hv)
    as (logits & _ & [Hn Hrows] & Heq).
  rewrite Heq, outputs_of_predict.
  eexists _, _, (spec_predictions logits).
  split; [reflexivity|]. split; [reflexivity|].
  unfold spec_predictions, tf.argmax, tf.nn.softmax. simpl. split.
  - apply Forall_forall. intros c Hc. apply in_map_iff in Hc.
    destruct Hc as [r [<- Hr]].
    pose proof (proj1 (Forall_forall _ _) Hrows r Hr) as Hlen.
    cbv beta in Hlen. rewrite <- Hlen.
    apply argmax_row_spec. exact (nonempty_of_length _ 9 Hlen).
  - apply Forall_forall. intros p Hp. apply in_map_iff in Hp.
    destruct Hp as [r [<- Hr]].
    eapply Forall_impl; [|apply softmax_row_unit].
    intros q Hq. cbv beta in Hq. lra.
Qed.

Lemma predictions_are_digits_with_unit_probabilities_witness :
  valid_batch [blank_image] = true
  /\ exists spec g ps,
       cnn_model_fn zero_variables no_noise (feature_dict 784 [blank_image])
                    None ModeKeys.PREDICT = Some (spec, g)
       /\ predictions spec = Some ps
       /\ Forall (fun c => (c < 10)%nat) (classes ps).
Proof.
  split; [reflexivity|].
  destruct (predictions_are_digits_with_unit_probabilities
              zero_variables no_noise [blank_image] None eq_refl)
    as (spec & g & ps & H1 & H2 & H3 & _).
  exists spec, g, ps. split; [exact H1|]. split; [exact H2 | exact H3].
Defined.

(** ** The loss *)

Lemma Rsum_nonneg (l : list R) : Forall (fun x => 0 <= x) l -> 0 <= Rsum l.
Proof.
  induction 1 as [|x l Hx _ IH]; simpl; [lra|].
  change (fold_right Rplus 0 l) with (Rsum l). lra.
Qed.

Lemma one_hot_row_nonneg (depth : nat) (z : Z) :
  Forall (fun y => 0 <= y) (tf.one_hot_row depth z).
Proof.
  unfold tf.one_hot_row. apply Forall_forall. intros y Hy.
  apply in_map_iff in Hy. destruct Hy as [k [<- _]].
  destruct (z =? Z.of_nat k)%Z; lra.
Qed.

Lemma ln_unit (q : R) : 0 < q <= 1 -> ln q <= 0.
Proof.
  intros [Hq [Hlt| ->]]; [|rewrite ln_1; lra].
  left. rewrite <- ln_1. apply ln_increasing; assumption.
Qed.

Lemma cross_entropy_nonneg (y : list R) :
  Forall (fun a => 0 <= a) y ->
  forall p, Forall (fun q => 0 < q <= 1) p -> 0 <= cross_entropy y p.
Proof.
  unfold cross_entropy. induction 1 as [|a y Ha _ IH]; intros p Hp.
  - simpl. lra.
  - destruct p as [|q p]; [simpl; lra|].
    inversion Hp as [|? ? Hq Hp']; subst.
    specialize (IH p Hp'). pose proof (ln_unit q Hq) as Hln.
    cbn [combine map fst snd].
    change (Rsum (a * ln q :: map (fun yp => fst yp * ln (snd yp))
                                  (combine y p)))
      with (a * ln q + Rsum (map (fun yp => fst yp * ln (snd yp))
                                 (combine y p))).
    assert (a * ln q <= 0) by nra. lra.
Qed.

Lemma spec_loss_nonneg (labels_ : list Z) (logits : list (list R)) :
  0 <= spec_loss labels_ logits.
Proof.
  unfold spec_loss.
  assert (Hs : 0 <= Rsum (map (fun yl => cross_entropy
                                           (tf.one_hot_row 10 (fst yl))
                                           (tf.nn.softmax_row (snd yl)))
                              (combine labels_ logits))).
  { apply Rsum_nonneg, Forall_forall. intros v Hv.
    apply in_map_iff in Hv. destruct Hv as [yl [<- _]].
    apply cross_entropy_nonneg;
      [apply one_hot_row_nonneg | apply softmax_row_unit]. }
  destruct logits as [|r logits].
  - destruct labels_; simpl; unfold Rdiv; rewrite Rmult_0_l; lra.
  - apply Rmult_le_pos; [exact Hs|].
    left. apply Rinv_0_lt_compat, lt_0_INR. simpl. lia.
Qed.

(** X5.  In train and in eval mode the loss of a batch of flat 28x28
    images with one label per image is never negative, whatever the
    labels are. *)
Theorem loss_is_never_negative
        (vs : Variables) (noise : nat -> nat -> R)
        (rows : list (list R)) (labels_ : list Z) (mode : ModeKeys.t) :
  valid_batch rows = true ->
  length labels_ = length rows ->
  mode <> ModeKeys.PREDICT ->
  exists spec g l,
    cnn_model_fn vs noise (feature_dict 784 rows) (Some labels_) mode
    = Some (spec, g)
    /\ loss spec = Some l
    /\ 0 <= l.
Proof.
  intros Hv Hlen Hmode. apply valid_batch_Forall in Hv.
  destruct (cnn_model_fn_valid vs noise rows (Some labels_) mode Hv)
    as (logits & _ & [Hn _] & Heq).
  destruct (outputs_of_loss logits labels_ mode) as
      (spec & g & Hout & Hloss & _); [congruence | exact Hmode |].
  exists spec, g, (spec_loss (map tf.cast_int32 labels_) logits).
  split; [now rewrite Heq|]. split; [exact Hloss|].
  apply spec_loss_nonneg.
Qed.

Lemma loss_is_never_negative_witness :
  valid_batch [blank_image] = true
  /\ length [12%Z] = length [blank_image]
  /\ ModeKeys.EVAL <> ModeKeys.PREDICT
  /\ exists spec g l,
       cnn_model_fn zero_variables no_noise (feature_dict 784 [blank_image])
                    (Some [12%Z]) ModeKeys.EVAL = Some (spec, g)
       /\ loss spec = Some l
       /\ 0 <= l.
Proof.
  split; [reflexivity|]. split; [reflexivity|]. split; [discriminate|].
  apply (loss_is_never_negative
           zero_variables no_noise [blank_image] [12%Z] ModeKeys.EVAL);
    [reflexivity | reflexivity | discriminate].
Defined.

Lemma cross_entropy_one_hot (z : Z) (p : list R) :
  (0 <= z <= 9)%Z -> length p = 10%nat ->
  cross_entropy (tf.one_hot_row 10 z) p = negative_log_likelihood z p.
Proof.
  intros Hz Hp.
  destruct p as [|p0 [|p1 [|p2 [|p3 [|p4 [|p5 [|p6 [|p7 [|p8 [|p9 [|? ?]]]]]]]]]]];
    try discriminate.
  unfold cross_entropy, negative_log_likelihood, tf.one_hot_row.
  assert (Hcases : (z = 0 \/ z = 1 \/ z = 2 \/ z = 3 \/ z = 4 \/ z = 5
                    \/ z = 6 \/ z = 7 \/ z = 8 \/ z = 9)%Z) by lia.
  repeat (destruct Hcases as [-> | Hcases]); try subst z;
    simpl; ring.
Qed.

Lemma combine_map_r {A B C : Type} (f : B -> C) (a : list A) (b : list B) :
  combine a (map f b) = map (fun p => (fst p, f (snd p))) (combine a b).
Proof.
  revert b. induction a as [|x a IH]; intros [|y b]; simpl;
    try reflexivity. now rewrite IH.
Qed.

Lemma map_ext_combine {A B C : Type} (P : A -> Prop) (Q : B -> Prop)
      (f g : A * B -> C) (a : list A) (b : list B) :
  Forall P a -> Forall Q b ->
  (forall x y, P x -> Q y -> f (x, y) = g (x, y)) ->
  map f (combine a b) = map g (combine a b).
Proof.
  intros Ha. revert b. induction Ha as [|x a Hx _ IH]; intros b Hb Hfg;
    [reflexivity|].
  destruct Hb as [|y b Hy Hb]; [reflexivity|].
  simpl. rewrite Hfg by assumption. f_equal. apply IH; assumption.
Qed.

(** X6.  When every label is one of 0..9, the loss of train and eval
    mode is the mean over the batch of the negative log-probability the
    model gives to the label of each example. *)
Theorem loss_is_mean_negative_log_likelihood
        (vs : Variables) (noise : nat -> nat -> R)
        (rows : list (list R)) (labels_ : list Z) (mode : ModeKeys.t) :
  valid_batch rows = true ->
  length labels_ = length rows ->
  Forall (fun z => (0 <= z <= 9)%Z) labels_ ->
  mode <> ModeKeys.PREDICT ->
  exists logits spec g,
    run_layers vs noise (spec_architecture mode) (Maps (as_images rows))
    = Some (Vectors logits)
    /\ cnn_model_fn vs noise (feature_dict 784 rows) (Some labels_) mode
       = Some (spec, g)
    /\ loss spec
       = Some (Rsum (map (fun zp => negative_log_likelihood (fst zp) (snd zp))
                         (combine labels_ (tf.nn.softmax logits)))
               / INR (length rows)).
Proof.
  intros Hv Hlen Hz Hmode. apply valid_batch_Forall in Hv.
  destruct (cnn_model_fn_valid vs noise rows (Some labels_) mode Hv)
    as (logits & Hrun & [Hn Hrows] & Heq).
  destruct (outputs_of_loss logits labels_ mode) as
      (spec & g & Hout & Hloss & _); [congruence | exact Hmode |].
  exists logits, spec, g. split; [exact Hrun|].
  split; [now rewrite Heq|]. rewrite Hloss. f_equal.
  rewrite map_cast_int32_small
    by (eapply Forall_impl; [|exact Hz]; cbv beta; intros; lia).
  unfold spec_loss. rewrite Hn. f_equal. f_equal.
  unfold tf.nn.softmax. rewrite combine_map_r, map_map.
  apply (map_ext_combine (fun z => (0 <= z <= 9)%Z)
                         (fun r => length r = 10%nat));
    [exact Hz | exact Hrows |].
  intros z r Hzr Hr. cbn [fst snd].
  apply cross_entropy_one_hot; [exact Hzr|].
  now rewrite softmax_row_length.
Qed.

Lemma loss_is_mean_negative_log_likelihood_witness :
  valid_batch [blank_image] = true
  /\ length [3%Z] = length [blank_image]
  /\ Forall (fun z => (0 <= z <= 9)%Z) [3%Z]
  /\ ModeKeys.TRAIN <> ModeKeys.PREDICT
  /\ exists logits spec g,
       cnn_model_fn zero_variables no_noise (feature_dict 784 [blank_image])
                    (Some [3%Z]) ModeKeys.TRAIN = Some (spec, g)
       /\ loss spec
          = Some (Rsum (map (fun zp => negative_log_likelihood
                                         (fst zp) (snd zp))
                            (combine [3%Z] (tf.nn.softmax logits)))
                  / INR (length [blank_image])).
Proof.
  split; [reflexivity|]. split; [reflexivity|].
  split; [repeat constructor; lia|]. split; [discriminate|].
  destruct (loss_is_mean_negative_log_likelihood
              zero_variables no_noise [blank_image] [3%Z] ModeKeys.TRAIN)
    as (logits & spec & g & _ & H1 & H2);
    [reflexivity | reflexivity | repeat constructor; lia | discriminate |].
  exists logits, spec, g. split; [exact H1 | exact H2].
Defined.

(** ** Examples of a batch do not influence each other *)

Lemma predict_rowwise (vs : Variables) (noise : nat -> nat -> R)
      (rows : list (list R)) (labels_ : option (list Z)) :
  Forall (fun r => length r = 784%nat) rows ->
  exists spec g,
    cnn_model_fn vs noise (feature_dict 784 rows) labels_ ModeKeys.PREDICT
    = Some (spec, g)
    /\ predictions spec
       = Some {| classes := map (predicted_class vs) rows;
                 probabilities := map (example_probabilities vs) rows |}.
Proof.
  intros Hv.
  destruct (cnn_model_fn_valid vs noise rows labels_ ModeKeys.PREDICT Hv)
    as (logits & Hrun & _ & Heq).
  rewrite logits_rowwise in Hrun by (try discriminate; exact Hv).
  injection Hrun as <-. rewrite Heq, outputs_of_predict.
  eexists _, _. split; [reflexivity|].
  cbn [predictions]. unfold spec_predictions, tf.argmax, tf.nn.softmax.
  rewrite !map_map. reflexivity.
Qed.

(** X7.  In predict mode the model function treats the examples of a
    batch one by one: the class and the probabilities it returns for
    the k-th example are those of that example alone, whatever else is
    in the batch and wherever the example stands in it. *)
Theorem predictions_are_per_example
        (vs : Variables) (noise : nat -> nat -> R)
        (rows : list (list R)) (labels_ : option (list Z)) :
  valid_batch rows = true ->
  exists spec g ps,
    cnn_model_fn vs noise (feature_dict 784 rows) labels_ ModeKeys.PREDICT
    = Some (spec, g)
    /\ predictions spec = Some ps
    /\ classes ps = map (predicted_class vs) rows
    /\ probabilities ps = map (example_probabilities vs) rows
    /\ (forall k, (k < length rows)%nat ->
                  nth k (classes ps) 0%nat
                  = predicted_class vs (nth k rows [])
                  /\ nth k (probabilities ps) []
                     = example_probabilities vs (nth k rows [])).
Proof.
  intros Hv. apply valid_batch_Forall in Hv.
  destruct (predict_rowwise vs noise rows labels_ Hv)
    as (spec & g & Hrun & Hps).
  eexists spec, g, _. split; [exact Hrun|]. split; [exact Hps|].
  cbn [classes probabilities].
  split; [reflexivity|]. split; [reflexivity|].
  intros k Hk. split.
  - rewrite (nth_indep _ 0%nat (predicted_class vs []))
      by (now rewrite length_map).
    apply map_nth.
  - rewrite (nth_indep _ [] (example_probabilities vs []))
      by (now rewrite length_map).
    apply map_nth.
Qed.

Lemma predictions_are_per_example_witness :
  valid_batch [blank_image; blank_image] = true
  /\ exists spec g ps,
       cnn_model_fn zero_variables no_noise
                    (feature_dict 784 [blank_image; blank_image])
                    None ModeKeys.PREDICT = Some (spec, g)
       /\ predictions spec = Some ps
       /\ classes ps = [predicted_class zero_variables blank_image;
                        predicted_class zero_variables blank_image].
Proof.
  split; [reflexivity|].
  destruct (predictions_are_per_example
              zero_variables no_noise [blank_image; blank_image] None
              eq_refl)
    as (spec & g & ps & H1 & H2 & H3 & _).
  exists spec, g, ps. split; [exact H1|]. split; [exact H2 | exact H3].
Defined.

(** ** Dropout during training *)

Lemma nth_mapi {A B : Type} (f : nat -> A -> B) (l : list A) (i : nat)
      (d : B) (d' : A) :
  (i < length l)%nat -> nth i (mapi f l) d = f i (nth i l d').
Proof.
  intros Hi. unfold mapi.
  rewrite (nth_indep _ d ((fun p => f (fst p) (snd p)) (0%nat, d')))
    by (rewrite length_map, length_combine, length_seq; lia).
  rewrite (map_nth (fun p => f (fst p) (snd p))).
  rewrite combine_nth by apply length_seq.
  rewrite seq_nth by exact Hi. reflexivity.
Qed.

Lemma keep_mask (u : R) :
  0 <= u < 1 ->
  IZR (Int_part (1 - 4 / 10 + u)) = if Rlt_dec u (4 / 10) then 0 else 1.
Proof.
  intros Hu. destruct (Rlt_dec u (4 / 10)) as [Hlt|Hge].
  - rewrite <- (Int_part_spec (1 - 4 / 10 + u) 0); [reflexivity|].
    simpl. lra.
  - rewrite <- (Int_part_spec (1 - 4 / 10 + u) 1); [reflexivity|].
    simpl. lra.
Qed.

(** X8.  The dropout layer of the model function, when training, keeps
    an entry with the uniform draw of that entry at least 0.4 (so with
    probability 0.6) and divides it by 0.6; every other entry becomes
    0. *)
Theorem dropout_keeps_or_zeroes
        (x : list (list R)) (noise : nat -> nat -> R) (b k : nat) :
  (b < length x)%nat ->
  (k < length (nth b x []))%nat ->
  0 <= noise b k < 1 ->
  nth k (nth b (tf.layers.dropout x (4 / 10) true noise) []) 0
  = if Rlt_dec (noise b k) (4 / 10) then 0
    else nth k (nth b x []) 0 / (6 / 10).
Proof.
  intros Hb Hk Hu. unfold tf.layers.dropout, tf.nn.dropout.
  rewrite (nth_mapi _ x b [] []) by exact Hb.
  rewrite (nth_mapi _ (nth b x []) k 0 0) by exact Hk.
  rewrite (keep_mask _ Hu).
  destruct (Rlt_dec (noise b k) (4 / 10)); [ring | field].
Qed.

Lemma dropout_keeps_or_zeroes_witness :
  (0 < length [[3; 5]])%nat
  /\ (1 < length (nth 0 [[3; 5]] []))%nat
  /\ 0 <= 1 / 2 < 1
  /\ nth 1 (nth 0 (tf.layers.dropout [[3; 5]] (4 / 10) true
                                     (fun _ _ => 1 / 2)) []) 0
     = if Rlt_dec (1 / 2) (4 / 10) then 0 else 5 / (6 / 10).
Proof.
  assert (H0 : (0 < length [[3; 5]])%nat) by (simpl; lia).
  assert (H1 : (1 < length (nth 0 [[3; 5]] []))%nat) by (simpl; lia).
  assert (H2 : 0 <= 1 / 2 < 1) by lra.
  split; [exact H0|]. split; [exact H1|]. split; [exact H2|].
  exact (dropout_keeps_or_zeroes [[3; 5]] (fun _ _ => 1 / 2) 0 1 H0 H1 H2).
Defined.

(** ** Reshaping keeps the elements *)

Lemma numel_fill (q : nat) (target : list Z) :
  bad_dims target = false ->
  numel (map (fun d => if (d =? -1)%Z then q else Z.to_nat d) target)
  = (q ^ wildcards target * numel (known_dims target))%nat.
Proof.
  unfold bad_dims, wildcards, known_dims.
  induction target as [|d target IH]; intros Hbad; [reflexivity|].
  cbn [existsb] in Hbad. apply orb_false_elim in Hbad.
  destruct Hbad as [Hd Hbad]. apply Z.ltb_ge in Hd.
  specialize (IH Hbad). cbn [map filter].
  change (numel (?a :: ?l)) with (a * numel l)%nat. rewrite IH.
  destruct (d =? -1)%Z eqn:E.
  - apply Z.eqb_eq in E. subst d. cbn [Z.leb Z.compare length Nat.pow].
    lia.
  - apply Z.eqb_neq in E.
    assert (Hpos : (0 <=? d)%Z = true) by (apply Z.leb_le; lia).
    rewrite Hpos. cbn [map].
    change (numel (?a :: ?l)) with (a * numel l)%nat. lia.
Qed.

Lemma fill_without_wildcard (q : nat) (target : list Z) :
  wildcards target = 0%nat ->
  map (fun d => if (d =? -1)%Z then q else Z.to_nat d) target
  = map Z.to_nat target.
Proof.
  unfold wildcards. induction target as [|d target IH]; [reflexivity|].
  cbn [filter map]. destruct (d =? -1)%Z; [discriminate|].
  intros H. now rewrite IH.
Qed.

Lemma resolve_shape_numel (total : nat) (target : list Z) (s : list nat) :
  resolve_shape total target = Some s ->
  numel s = total /\ length s = length target.
Proof.
  unfold resolve_shape.
  destruct (bad_dims target) eqn:Hbad; [discriminate|].
  destruct (wildcards target) as [|[|k]] eqn:Hw; [| |discriminate].
  - destruct (numel (known_dims target) =? total)%nat eqn:E;
      [|discriminate].
    intros H. injection H as <-. apply Nat.eqb_eq in E.
    rewrite length_map. split; [|reflexivity].
    rewrite <- (fill_without_wildcard 0 target Hw).
    rewrite (numel_fill 0 target Hbad), Hw. simpl. lia.
  - destruct (numel (known_dims target) =? 0)%nat eqn:E0; [discriminate|].
    destruct (total mod numel (known_dims target) =? 0)%nat eqn:E;
      [|discriminate].
    intros H. injection H as <-. apply Nat.eqb_eq in E.
    apply Nat.eqb_neq in E0.
    rewrite length_map. split; [|reflexivity].
    rewrite (numel_fill _ target Hbad), Hw, Nat.pow_1_r.
    pose proof (Nat.div_mod_eq total (numel (known_dims target))) as Hd.
    rewrite E in Hd. lia.
Qed.

(** X9.  Whenever a reshape succeeds, the result holds the values of
    its argument, in the same order, under a shape of the requested
    rank whose sizes multiply to the number of values: no element is
    dropped or invented, for the two reshapes of the model function as
    for any other. *)
Theorem reshape_keeps_the_elements
        (t t' : tensor) (target : list Z) :
  tf.reshape t target = Some t' ->
  values t' = values t
  /\ numel (shape t') = length (values t)
  /\ length (shape t') = length target
  /\ well_formed t' = true.
Proof.
  unfold tf.reshape.
  destruct (resolve_shape (length (values t)) target) as [s|] eqn:E;
    [|discriminate].
  intros H. injection H as <-.
  destruct (resolve_shape_numel _ _ _ E) as [Hn Hl].
  cbn [values shape]. split; [reflexivity|]. split; [exact Hn|].
  split; [exact Hl|].
  unfold well_formed. cbn [values shape]. rewrite Hn. apply Nat.eqb_refl.
Qed.

Lemma reshape_keeps_the_elements_witness :
  tf.reshape (Tensor [2; 3]%nat [1; 2; 3; 4; 5; 6]) [-1; 2]%Z
  = Some (Tensor [3; 2]%nat [1; 2; 3; 4; 5; 6])
  /\ numel (shape (Tensor [3; 2]%nat [1; 2; 3; 4; 5; 6]))
     = length (values (Tensor [2; 3]%nat [1; 2; 3; 4; 5; 6])).
Proof.
  assert (H : tf.reshape (Tensor [2; 3]%nat [1; 2; 3; 4; 5; 6]) [-1; 2]%Z
              = Some (Tensor [3; 2]%nat [1; 2; 3; 4; 5; 6]))
    by reflexivity.
  split; [exact H|].
  exact (proj1 (proj2 (reshape_keeps_the_elements _ _ _ H))).
Defined.

(** ** Labels that name no class, in evaluation *)

Lemma Rsum_zeros {A : Type} (f : A -> R) (l : list A) :
  Forall (fun a => f a = 0) l -> Rsum (map f l) = 0.
Proof.
  induction 1 as [|a l Ha _ IH]; [reflexivity|].
  cbn [map]. change (Rsum (f a :: map f l)) with (f a + Rsum (map f l)).
  rewrite Ha, IH. ring.
Qed.

Lemma Forall_combine {A B : Type} (P : A -> Prop) (Q : B -> Prop)
      (a : list A) (b : list B) :
  Forall P a -> Forall Q b ->
  Forall (fun p => P (fst p) /\ Q (snd p)) (combine a b).
Proof.
  intros Ha. revert b. induction Ha as [|x a Hx _ IH]; intros b Hb;
    [constructor|].
  destruct Hb as [|y b Hy Hb]; [constructor|].
  cbn [combine]. constructor; [split; assumption | apply IH, Hb].
Qed.

Lemma cross_entropy_zeros (n : nat) (p : list R) :
  cross_entropy (repeat 0 n) p = 0.
Proof.
  unfold cross_entropy.
  rewrite (Rsum_zeros (fun yp => fst yp * ln (snd yp))); [ring|].
  apply Forall_forall. intros [y q] Hin. apply in_combine_l in Hin.
  apply repeat_spec in Hin. cbn [fst snd]. subst y. ring.
Qed.

(** X10.  In eval mode, a batch of flat 28x28 images all of whose
    labels, read as int32 values, lie outside 0..9 is not rejected: its
    loss is 0 and the accuracy metric counts every example as wrongly
    classified. *)
Theorem labels_of_no_class_count_as_errors
        (vs : Variables) (noise : nat -> nat -> R)
        (rows : list (list R)) (labels_ : list Z) :
  valid_batch rows = true ->
  length labels_ = length rows ->
  Forall (fun z => (tf.cast_int32 z < 0 \/ 9 < tf.cast_int32 z)%Z) labels_ ->
  exists spec g,
    cnn_model_fn vs noise (feature_dict 784 rows) (Some labels_)
                 ModeKeys.EVAL = Some (spec, g)
    /\ loss spec = Some 0
    /\ eval_metric_ops spec
       = [("accuracy"%string,
           tf.metrics.MeanUpdate 0 (INR (length rows)))].
Proof.
  intros Hv Hlen Hz. apply valid_batch_Forall in Hv.
  destruct (cnn_model_fn_valid vs noise rows (Some labels_) ModeKeys.EVAL Hv)
    as (logits & _ & [Hn Hrows] & Heq).
  rewrite Heq. unfold outputs_of.
  rewrite losses_softmax_cross_entropy by (rewrite length_map; congruence).
  assert (Ha : length labels_
               = length (classes (spec_predictions logits)))
    by (simpl; unfold tf.argmax; rewrite length_map; congruence).
  rewrite (accuracy_defined _ _ Ha).
  eexists _, _. split; [reflexivity|]. cbn [loss eval_metric_ops].
  split.
  - f_equal. unfold spec_loss.
    rewrite (Rsum_zeros
               (fun yl => cross_entropy (tf.one_hot_row 10 (fst yl))
                                        (tf.nn.softmax_row (snd yl))));
      [unfold Rdiv; ring|].
    assert (Hc : Forall (fun c => (c < 0 \/ 9 < c)%Z)
                        (map tf.cast_int32 labels_))
      by (apply Forall_map; exact Hz).
    eapply Forall_impl;
      [|exact (Forall_combine _ (fun _ => True) _ logits Hc
                 ltac:(apply Forall_forall; intros; exact I))].
    intros [c r] [Hout _]. cbn [fst snd] in *.
    rewrite one_hot_row_out_of_range by exact Hout.
    apply cross_entropy_zeros.
  - f_equal. f_equal. f_equal.
    + apply Rsum_zeros.
      assert (Hc : Forall (fun c => (c < 10)%nat)
                          (classes (spec_predictions logits))).
      { cbn [classes spec_predictions]. unfold tf.argmax.
        apply Forall_forall. intros c Hc. apply in_map_iff in Hc.
        destruct Hc as [r [<- Hr]].
        pose proof (proj1 (Forall_forall _ _) Hrows r Hr) as Hl.
        cbv beta in Hl. rewrite <- Hl.
        apply argmax_row_spec. exact (nonempty_of_length _ 9 Hl). }
      eapply Forall_impl; [|exact (Forall_combine _ _ _ _ Hz Hc)].
      intros [z c] [Hout Hlt]. cbn [fst snd] in *.
      unfold tf.metrics.is_correct.
      destruct (z =? Z.of_nat c)%Z eqn:E; [|reflexivity].
      apply Z.eqb_eq in E.
      rewrite cast_int32_small in Hout by lia. lia.
    + cbn [classes spec_predictions]. unfold tf.argmax.
      rewrite length_map. now rewrite Hn.
Qed.

Lemma labels_of_no_class_count_as_errors_witness :
  valid_batch [blank_image] = true
  /\ length [10%Z] = length [blank_image]
  /\ Forall (fun z => (tf.cast_int32 z < 0 \/ 9 < tf.cast_int32 z)%Z) [10%Z]
  /\ exists spec g,
       cnn_model_fn zero_variables no_noise (feature_dict 784 [blank_image])
                    (Some [10%Z]) ModeKeys.EVAL = Some (spec, g)
       /\ loss spec = Some 0.
Proof.
  assert (Hz : Forall (fun z => (tf.cast_int32 z < 0
                                 \/ 9 < tf.cast_int32 z)%Z) [10%Z])
    by (repeat constructor; vm_compute; right; reflexivity).
  split; [reflexivity|]. split; [reflexivity|]. split; [exact Hz|].
  destruct (labels_of_no_class_count_as_errors
              zero_variables no_noise [blank_image] [10%Z]
              eq_refl eq_refl Hz)
    as (spec & g & H1 & H2 & _).
  exists spec, g. split; [exact H1 | exact H2].
Defined.

(** * Further properties of the input pipelines and of the driver *)

(** ** The shuffling reader, for any batch size *)

Lemma dequeue_many_floor (size cap mad : nat) (o : tf.train.queue_oracle)
      (n : nat) :
  (0 < size)%nat -> (mad < cap)%nat ->
  forall (drawn : nat) (seen : list nat) (q : tf.train.shuffle_queue),
    Permutation (seen ++ tf.train.waiting q)
                (pushed size (tf.train.enqueued q)) ->
    (length (tf.train.waiting q) <= cap)%nat ->
    (0 < n)%nat ->
    (mad <= length (tf.train.waiting
                      (snd (tf.train.dequeue_many size cap mad o drawn n q))))%nat.
Proof.
  intros Hsize Hroom.
  induction n as [|n IH]; intros drawn seen q Hperm Hcap Hn; [lia|].
  rewrite dequeue_many_S.
  pose proof (dequeue_one_spec size cap mad Hsize Hroom
                               (fst (o drawn)) (snd (o drawn)) seen q
                               Hperm Hcap) as H1.
  cbv zeta in H1.
  destruct (tf.train.dequeue_one size cap mad (fst (o drawn))
                                 (snd (o drawn)) q) as [i q1].
  cbn [fst snd] in H1. destruct H1 as (Hp1 & _ & Hc1 & Hm1).
  destruct n as [|n].
  - cbn [tf.train.dequeue_many snd]. exact Hm1.
  - specialize (IH (S drawn) (seen ++ [i]) q1 Hp1 Hc1 ltac:(lia)).
    destruct (tf.train.dequeue_many size cap mad o (S drawn) (S n) q1)
      as [rest q2].
    cbn [snd] in *. exact IH.
Qed.

(** X11.  The reader that [generate_input_fn] sets up, for any positive
    batch size and any non-empty data set with as many labels as images,
    serves batch after batch without end.  Each batch holds exactly
    [batch_size] examples of the data set, images and labels (as int32
    values) being taken at the same indices, the queue never holds more
    than [8 * batch_size] examples and keeps at least [4 * batch_size]
    after a batch was taken, and no example is lost or duplicated by the
    queue: what was served and what waits is what was pushed. *)
Theorem shuffle_reader_serves_full_batches
        (w : World) (ds : DataSet) (batch_size : nat) :
  (0 < num_examples ds)%nat ->
  length (images ds) = length (labels ds) ->
  (0 < batch_size)%nat ->
  shuffle_reader (constants ds) batch_size []
                 (generate_input_fn ds batch_size)
  /\ forall seen r,
      shuffle_reader (constants ds) batch_size seen r ->
      exists idx rest,
        next_batch w r
        = Batch idx
                (feature_dict (row_length (images ds))
                              (gather [] (images ds) idx))
                (gather 0%Z (as_int32 (labels ds)) idx)
                rest
        /\ length idx = batch_size
        /\ Forall (fun i => (i < num_examples ds)%nat) idx
        /\ shuffle_reader (constants ds) batch_size (seen ++ idx) rest
        /\ exists q drawn,
            rest = ShuffleBatch (constants ds) batch_size (8 * batch_size)
                                (4 * batch_size) q drawn
            /\ (4 * batch_size <= length (tf.train.waiting q)
                <= 8 * batch_size)%nat.
Proof.
  intros Hds Hcons Hbs. split.
  - exists tf.train.empty_queue, 0%nat.
    split; [reflexivity|]. cbn [tf.train.empty_queue tf.train.waiting
                                tf.train.enqueued length].
    split; [reflexivity|]. split; [lia | left; reflexivity].
  - intros seen r (q & drawn & -> & Hperm & Hcap & _).
    change (num_examples (constants ds)) with (num_examples ds) in Hperm.
    assert (Hroom : (4 * batch_size < 8 * batch_size)%nat) by lia.
    destruct (dequeue_many_spec (num_examples ds) (8 * batch_size)
                                (4 * batch_size) Hds Hroom (scheduler w)
                                batch_size drawn seen q Hperm Hcap)
      as (Hlen & Hin & Hperm' & Hcap').
    pose proof (dequeue_many_floor (num_examples ds) (8 * batch_size)
                                   (4 * batch_size) (scheduler w)
                                   batch_size Hds Hroom drawn seen q
                                   Hperm Hcap Hbs) as Hfloor.
    unfold next_batch, build_error.
    assert (Hlt : (8 * batch_size <=? 4 * batch_size)%nat = false)
      by (apply Nat.leb_gt; lia).
    rewrite Hlt, (constants_ready ds Hcons), Nat.eqb_refl. cbn [negb].
    change (num_examples (constants ds)) with (num_examples ds).
    destruct (num_examples ds =? 0)%nat eqn:E;
      [apply Nat.eqb_eq in E; lia|].
    destruct (tf.train.dequeue_many (num_examples ds) (8 * batch_size)
                                    (4 * batch_size) (scheduler w) drawn
                                    batch_size q) as [idx q'].
    cbn [fst snd] in *.
    exists idx, (ShuffleBatch (constants ds) batch_size (8 * batch_size)
                              (4 * batch_size) q' (drawn + batch_size)).
    split; [reflexivity|]. split; [exact Hlen|]. split; [exact Hin|].
    split.
    { exists q', (drawn + batch_size)%nat.
      split; [reflexivity|]. split; [exact Hperm'|].
      split; [exact Hcap' | right; exact Hfloor]. }
    exists q', (drawn + batch_size)%nat.
    split; [reflexivity | split; assumption].
Qed.

Lemma shuffle_reader_serves_full_batches_witness :
  (0 < num_examples sample_split)%nat
  /\ length (images sample_split) = length (labels sample_split)
  /\ (0 < 2)%nat
  /\ shuffle_reader (constants sample_split) 2 []
                    (generate_input_fn sample_split 2)
  /\ exists idx rest,
       next_batch sample_world (generate_input_fn sample_split 2)
       = Batch idx
               (feature_dict (row_length (images sample_split))
                             (gather [] (images sample_split) idx))
               (gather 0%Z (as_int32 (labels sample_split)) idx)
               rest
       /\ length idx = 2%nat.
Proof.
  assert (H0 : (0 < num_examples sample_split)%nat)
    by (unfold num_examples, sample_split; simpl; lia).
  assert (H1 : (0 < 2)%nat) by lia.
  split; [exact H0|]. split; [reflexivity|]. split; [exact H1|].
  destruct (shuffle_reader_serves_full_batches sample_world sample_split 2
                                               H0 eq_refl H1)
    as [Hinit Hstep].
  split; [exact Hinit|].
  destruct (Hstep [] _ Hinit) as (idx & rest & Hb & Hl & _).
  exists idx, rest. split; [exact Hb | exact Hl].
Defined.

(** ** The prediction step *)

Lemma gather_all {A : Type} (d : A) (l : list A) :
  gather d l (seq 0 (length l)) = l.
Proof.
  unfold gather. apply (nth_ext _ _ d d).
  - now rewrite length_map, length_seq.
  - intros n Hn. rewrite length_map, length_seq in Hn.
    rewrite (nth_indep _ d ((fun i => nth i l d) 0%nat))
      by (now rewrite length_map, length_seq).
    rewrite (map_nth (fun i => nth i l d)).
    now rewrite seq_nth by exact Hn.
Qed.

Lemma gather_app {A : Type} (d : A) (l : list A) (a b : list nat) :
  gather d l (a ++ b) = gather d l a ++ gather d l b.
Proof. apply map_app. Qed.

Section PredictionRecords.

Variable w : World.
Variable x : list (list R).
Variable y : list Z.
Variable vs : Variables.
Variable bs : nat.

Hypothesis x_valid : Forall (fun r => length r = 784%nat) x.
Hypothesis xy : length x = length y.
Hypothesis x_nonempty : (0 < length x)%nat.
Hypothesis bs_pos : (0 < bs)%nat.

Lemma predict_loop_records (k : nat) :
  forall pos p,
    predict_loop cnn_model_fn w vs k (NumpyInput x y bs 1 false pos)
                 (fun r => emit (PrintPrediction (fst r) (snd r))) p
    = (Ok tt,
       log_to p (map (prediction_record vs)
                     (gather [] x
                             (concat (numpy_batches bs (length x) k pos))))).
Proof using x_valid xy x_nonempty bs_pos.
  induction k as [|k IH]; intros pos p.
  - cbn [predict_loop numpy_batches concat gather map]. unfold ret.
    now rewrite log_to_nil.
  - cbn [predict_loop numpy_batches].
    destruct (length x <=? pos)%nat eqn:E.
    + apply Nat.leb_le in E.
      rewrite (numpy_end w x y bs xy x_nonempty bs_pos pos E).
      unfold ret. cbn [concat gather map]. now rewrite log_to_nil.
    + apply Nat.leb_gt in E.
      rewrite (numpy_next w x y bs x_valid xy x_nonempty bs_pos pos E).
      set (idx := seq pos (Nat.min bs (length x - pos))).
      assert (Hrows : Forall (fun r => length r = 784%nat)
                             (gather [] x idx)).
      { apply gather_Forall; [exact x_valid|].
        apply Forall_forall. intros i Hi. apply in_seq in Hi. lia. }
      destruct (predict_rowwise vs (random_uniform w 0) (gather [] x idx)
                                None Hrows)
        as (spec & g & -> & Hps).
      rewrite Hps. cbn [classes probabilities].
      rewrite combine_map_both.
      unfold bind at 1. rewrite each_prints, IH, log_to_app.
      cbn [concat]. rewrite gather_app, map_app, map_map. reflexivity.
Qed.

End PredictionRecords.

Lemma predict_call_records (w : World) (x : list (list R)) (y : list Z)
      (dir : string) (c : Checkpoint) (p : Process) :
  Forall (fun r => length r = 784%nat) x ->
  length x = length y ->
  (0 < length x)%nat ->
  checkpoint p = Some c ->
  Estimator_predict {| model_fn := cnn_model_fn; model_dir := dir |} w
                    (numpy_input_fn x y 1 false)
                    (fun r => emit (PrintPrediction (fst r) (snd r))) p
  = (Ok tt,
     log_to p (Enter Predict
               :: map (prediction_record (variables c)) x
               ++ [Leave Predict])).
Proof.
  intros Hx Hxy Hn Hck. unfold Estimator_predict, numpy_input_fn.
  unfold bind at 1. rewrite emit_run.
  unfold bind at 1. unfold get_checkpoint.
  change (checkpoint (log_to p [Enter Predict])) with (checkpoint p).
  rewrite Hck, (numpy_builds x y 128 Hxy Hn). cbn [remaining model_fn].
  unfold bind.
  rewrite (predict_loop_records w x y (variables c) 128 Hx Hxy Hn
                                ltac:(lia)).
  rewrite emit_run, !log_to_app.
  rewrite (numpy_batches_concat x y 128 Hxy ltac:(lia))
    by apply enough_reads.
  rewrite Nat.sub_0_r, gather_all. reflexivity.
Qed.

(** X12.  With a trained model in place, the prediction step of the
    script, given a batch of at least one example, prints exactly one
    record per example of the batch, in the order of the batch: the
    record of an example holds the class and the ten probabilities the
    network gives to that example alone.  The labels handed to the
    prediction input, the random draws and the scheduling play no part,
    and the step changes neither the checkpoint nor the export.  Given
    an empty batch the step prints nothing and raises a
    [ZeroDivisionError]. *)
Theorem prediction_step_prints_one_record_per_example
        (x : list (list R)) (y : list Z) (dir : string)
        (c : Checkpoint) (p : Process) :
  valid_batch x = true ->
  length x = length y ->
  (0 < length x)%nat ->
  checkpoint p = Some c ->
  forall w,
    Estimator_predict {| model_fn := cnn_model_fn; model_dir := dir |} w
                      (numpy_input_fn x y 1 false)
                      (fun r => emit (PrintPrediction (fst r) (snd r))) p
    = (Ok tt,
       {| checkpoint := Some c; exported := exported p;
          console := console p
                     ++ Enter Predict
                     :: map (prediction_record (variables c)) x
                     ++ [Leave Predict] |})
    /\ length (map (prediction_record (variables c)) x) = length x
    /\ exists msg,
         Estimator_predict {| model_fn := cnn_model_fn; model_dir := dir |} w
                           (numpy_input_fn [] [] 1 false)
                           (fun r => emit (PrintPrediction (fst r) (snd r))) p
         = (Raise (ZeroDivisionError msg), log_to p [Enter Predict]).
Proof.
  intros Hv Hxy Hn Hck w. apply valid_batch_Forall in Hv.
  rewrite (predict_call_records w x y dir c p Hv Hxy Hn Hck).
  unfold log_to at 1. rewrite Hck. split; [reflexivity|].
  split; [apply length_map|].
  eexists. unfold Estimator_predict, numpy_input_fn.
  unfold bind at 1. rewrite emit_run.
  unfold bind at 1. unfold get_checkpoint.
  change (checkpoint (log_to p [Enter Predict])) with (checkpoint p).
  rewrite Hck. reflexivity.
Qed.

Lemma prediction_step_prints_one_record_per_example_witness :
  valid_batch (images sample_split) = true
  /\ length (images sample_split) = length (labels sample_split)
  /\ (0 < length (images sample_split))%nat
  /\ Estimator_predict {| model_fn := cnn_model_fn; model_dir := "m" |}
                       sample_world
                       (numpy_input_fn (images sample_split)
                                       (labels sample_split) 1 false)
                       (fun r => emit (PrintPrediction (fst r) (snd r)))
                       {| checkpoint := Some (fresh_checkpoint sample_world);
                          exported := None; console := [] |}
     = (Ok tt,
        {| checkpoint := Some (fresh_checkpoint sample_world);
           exported := None;
           console :=
             [] ++ Enter Predict
                :: map (prediction_record
                          (variables (fresh_checkpoint sample_world)))
                       (images sample_split)
                ++ [Leave Predict] |}).
Proof.
  assert (Hn : (0 < length (images sample_split))%nat) by (simpl; lia).
  split; [reflexivity|]. split; [reflexivity|]. split; [exact Hn|].
  exact (proj1 (prediction_step_prints_one_record_per_example
                  (images sample_split) (labels sample_split) "m"
                  (fresh_checkpoint sample_world)
                  {| checkpoint := Some (fresh_checkpoint sample_world);
                     exported := None; console := [] |}
                  eq_refl eq_refl Hn eq_refl sample_world)).
Defined.

(** ** The export step *)

Lemma export_call_refused (w : World) (dir : string) (c : Checkpoint)
      (p : Process) :
  checkpoint p = Some c ->
  can_write w dir = false ->
  Estimator_export_savedmodel
    {| model_fn := cnn_model_fn; model_dir := dir |} w dir
    serving_input_receiver_fn p
  = (Raise (IOError dir), log_to p [Enter Export]).
Proof.
  intros Hck Hw. unfold Estimator_export_savedmodel.
  unfold bind at 1. rewrite emit_run.
  unfold bind at 1. unfold get_checkpoint.
  change (checkpoint (log_to p [Enter Export])) with (checkpoint p).
  rewrite Hck. cbn [model_fn].
  destruct (predict_total_both (variables c) (random_uniform w 0) [] None)
    as (spec & g & ps & Hrun & _ & _ & Hout); [constructor|].
  rewrite (cnn_model_fn_same_values
             _ _ _ (feature_dict 784 []) (Tensor [0; 784]%nat [])
             (of_rows 784 []) None ModeKeys.PREDICT); try reflexivity.
  rewrite Hrun, Hout, Hw. reflexivity.
Qed.

(** X13.  With a trained model in place, the export step of the script
    needs no data.  When the disk takes the export, it writes a bundle
    that answers to the signature [serving_default], declares the one
    input [x] of shape [None, 784] (so that a batch of any number of
    flat images fits) and holds the variables of the checkpoint.  When
    the disk refuses, the step raises and nothing is exported.  In both
    cases the checkpoint stays as it was. *)
Theorem export_step_writes_the_serving_bundle
        (w : World) (dir : string) (c : Checkpoint) (p : Process) :
  checkpoint p = Some c ->
  Estimator_export_savedmodel
    {| model_fn := cnn_model_fn; model_dir := dir |} w dir
    serving_input_receiver_fn p
  = (if can_write w dir
     then (Ok tt,
           {| checkpoint := Some c;
              exported :=
                Some {| inputs := export.receiver_tensors
                                    (serving_input_receiver_fn tt);
                        signatures := [DEFAULT_SERVING_SIGNATURE_DEF_KEY];
                        frozen := variables c |};
              console := console p ++ [Enter Export; Leave Export] |})
     else (Raise (IOError dir),
           {| checkpoint := Some c; exported := exported p;
              console := console p ++ [Enter Export] |}))
  /\ (forall b ph,
         In ph (map snd (export.receiver_tensors
                           (serving_input_receiver_fn tt))) ->
         fits (export.static_shape ph) [b; 784]%nat = true).
Proof.
  intros Hck. split.
  - destruct (can_write w dir) eqn:Hw.
    + rewrite (export_call_spec w dir c p Hck Hw). reflexivity.
    + rewrite (export_call_refused w dir c p Hck Hw).
      unfold log_to. now rewrite Hck.
  - intros b ph [<-|[]]. vm_compute. reflexivity.
Qed.

Lemma export_step_writes_the_serving_bundle_witness :
  Estimator_export_savedmodel
    {| model_fn := cnn_model_fn; model_dir := "m" |} sample_world "m"
    serving_input_receiver_fn
    {| checkpoint := Some (fresh_checkpoint sample_world);
       exported := None; console := [] |}
  = (Ok tt,
     {| checkpoint := Some (fresh_checkpoint sample_world);
        exported := Some (serving_bundle zero_variables);
        console := [Enter Export; Leave Export] |}).
Proof.
  exact (proj1 (export_step_writes_the_serving_bundle
                  sample_world "m" (fresh_checkpoint sample_world)
                  {| checkpoint := Some (fresh_checkpoint sample_world);
                     exported := None; console := [] |}
                  eq_refl)).
Defined.

(** ** What the stages leave alone *)


(** X14.  Only training writes the checkpoint and only the export step
    writes the export, for every model function, input and world and
    also when a step fails: evaluation and prediction leave both as
    they found them, the export step leaves the checkpoint alone, and
    training leaves the export alone. *)
Theorem stages_keep_what_is_not_theirs
        (est : Estimator) (w : World) (ip : input_pipeline)
        (steps : Z) (hooks : list tf.train.LoggingTensorHook)
        (dir : string) (receiver : unit -> export.ServingInputReceiver)
        (p : Process) :
  checkpoint (snd (Estimator_evaluate est w ip p)) = checkpoint p
  /\ exported (snd (Estimator_evaluate est w ip p)) = exported p
  /\ checkpoint
       (snd (Estimator_predict
               est w ip (fun r => emit (PrintPrediction (fst r) (snd r))) p))
     = checkpoint p
  /\ exported
       (snd (Estimator_predict
               est w ip (fun r => emit (PrintPrediction (fst r) (snd r))) p))
     = exported p
  /\ checkpoint (snd (Estimator_export_savedmodel est w dir receiver p))
     = checkpoint p
  /\ exported (snd (Estimator_train est w ip steps hooks p)) = exported p.
Proof.
  split; [apply (keeps_evaluate checkpoint), emit_keeps_checkpoint|].
  split; [apply (keeps_evaluate exported), emit_keeps_exported|].
  split.
  { apply (keeps_predict checkpoint); [apply emit_keeps_checkpoint|].
    intros r. apply emit_keeps_checkpoint. }
  split.
  { apply (keeps_predict exported); [apply emit_keeps_exported|].
    intros r. apply emit_keeps_exported. }
  split; [apply export_keeps_checkpoint | apply train_keeps_exported].
Qed.

(** ** A failed run exports nothing *)

Lemma exports_on_success_keeps {A : Type} (c : IO A) :
  keeps exported c -> exports_on_success c.
Proof. intros Hc p. left. apply Hc. Qed.

Lemma exports_on_success_bind {A B : Type} (c : IO A) (k : A -> IO B) :
  keeps exported c -> (forall a, exports_on_success (k a)) ->
  exports_on_success (bind c k).
Proof.
  intros Hc Hk p. unfold bind. specialize (Hc p).
  destruct (c p) as [[a|e|] p']; cbn [snd] in *;
    [|left; exact Hc|left; exact Hc].
  destruct (Hk a p') as [H|H]; [left; congruence | right; exact H].
Qed.

Lemma exports_on_success_export (est : Estimator) (w : World) (dir : string)
      (receiver : unit -> export.ServingInputReceiver) :
  exports_on_success (Estimator_export_savedmodel est w dir receiver).
Proof.
  unfold Estimator_export_savedmodel.
  apply exports_on_success_bind; [apply emit_keeps_exported|]. intros _.
  apply exports_on_success_bind; [apply keeps_get_checkpoint|].
  intros [c|]; [|apply exports_on_success_keeps, keeps_raise].
  destruct (model_fn est _ _ _ _ _) as [[spec g]|];
    [|apply exports_on_success_keeps, keeps_raise].
  destruct (export_outputs spec) as [|o outs];
    [apply exports_on_success_keeps, keeps_raise|].
  destruct (can_write w dir);
    [|apply exports_on_success_keeps, keeps_raise].
  intros p. right. reflexivity.
Qed.

Lemma main_exports_on_success (FLAGS : Flags) (w : World) :
  exports_on_success (main FLAGS w).
Proof.
  unfold main.
  apply exports_on_success_bind.
  { unfold read_data_sets.
    apply keeps_bind; [apply emit_keeps_exported|]. intros _.
    destruct (read_files w (data_dir FLAGS)) as [d|]; [|apply keeps_raise].
    destruct (consistent (train d) && consistent (validation d)
              && consistent (test d)); [|apply keeps_raise].
    apply keeps_bind; [apply emit_keeps_exported|]. intros _.
    apply keeps_ret. }
  intros mnist.
  apply exports_on_success_bind.
  { unfold LoggingTensorHook.
    destruct (logging_hook_iter FLAGS <=? 0)%Z;
      [apply keeps_raise | apply keeps_ret]. }
  intros hook.
  apply exports_on_success_bind; [apply train_keeps_exported|]. intros _.
  apply exports_on_success_bind;
    [apply keeps_evaluate, emit_keeps_exported|]. intros results.
  apply exports_on_success_bind; [apply emit_keeps_exported|]. intros _.
  apply exports_on_success_bind.
  { apply keeps_predict; [apply emit_keeps_exported|].
    intros r. apply emit_keeps_exported. }
  intros _. apply exports_on_success_export.
Qed.

(** X15.  A run of the script that does not return normally leaves no
    export behind: whatever the flags and the world, either nothing was
    exported or the run returned normally, having gone through all five
    stages. *)
Theorem a_failed_run_exports_nothing (FLAGS : Flags) (w : World) :
  exported (snd (run FLAGS w)) = None
  \/ (fst (run FLAGS w) = Ok tt
      /\ stage_events (console (snd (run FLAGS w))) = pipeline).
Proof.
  unfold run.
  destruct (main_exports_on_success FLAGS w (start FLAGS w)) as [H|H].
  - left. rewrite H. reflexivity.
  - right.
    destruct (main_goes_through FLAGS w (start FLAGS w))
      as [[_ Ht]|[Hok _]]; [|congruence].
    split; [|exact Ht].
    destruct (fst (main FLAGS w (start FLAGS w))) as [[]|e|];
      [reflexivity | discriminate | discriminate].
Qed.

(** ** What the evaluation reports *)

Lemma loss_after_sum vs x y (batches : list (list nat)) :
  forall la,
    loss_after vs x y la batches
    = tf.metrics.MeanUpdate
        (tf.metrics.total la + Rsum (map (eval_batch_loss vs x y) batches))
        (tf.metrics.count la + INR (length batches)).
Proof.
  unfold loss_after. induction batches as [|b batches IH]; intros [t c].
  - cbn [fold_left map length tf.metrics.total tf.metrics.count].
    change (Rsum []) with 0. change (INR 0) with 0. f_equal; ring.
  - cbn [fold_left]. rewrite IH.
    cbn [tf.metrics.accumulate tf.metrics.total tf.metrics.count map length].
    rewrite S_INR.
    change (Rsum (eval_batch_loss vs x y b
                  :: map (eval_batch_loss vs x y) batches))
      with (eval_batch_loss vs x y b
            + Rsum (map (eval_batch_loss vs x y) batches)).
    f_equal; ring.
Qed.

Lemma eval_batch_loss_nonneg vs x y (idx : list nat) :
  0 <= eval_batch_loss vs x y idx.
Proof.
  unfold eval_batch_loss.
  rewrite losses_softmax_cross_entropy
    by (unfold gather; now rewrite !length_map).
  apply spec_loss_nonneg.
Qed.

Lemma correct_in_bounds vs x y (idx : list nat) :
  0 <= correct_in vs x y idx <= INR (length idx).
Proof.
  unfold correct_in. induction idx as [|i idx IH].
  - simpl. lra.
  - cbn [map length]. rewrite S_INR.
    change (Rsum (?a :: ?l)) with (a + Rsum l).
    assert (H : 0 <= tf.metrics.is_correct
                       (nth i y 0%Z) (predicted_class vs (nth i x []))
                <= 1)
      by (unfold tf.metrics.is_correct;
          destruct (_ =? _)%Z; lra).
    lra.
Qed.

Lemma eval_batches_nonempty (n : nat) :
  (0 < n)%nat ->
  numpy_batches 128 n ((1 * n - 0 + (128 - 1)) / 128) 0 <> [].
Proof.
  intros Hn. pose proof (enough_reads n) as H.
  destruct ((1 * n - 0 + (128 - 1)) / 128)%nat as [|k]; [lia|].
  cbn [numpy_batches].
  destruct (n <=? 0)%nat eqn:E; [apply Nat.leb_le in E; lia | discriminate].
Qed.

Lemma evaluate_call_explicit (x : list (list R)) (y : list Z) (dir : string)
      (c : Checkpoint) (p : Process) (w : World) :
  Forall (fun r => length r = 784%nat) x ->
  length x = length y ->
  (0 < length x)%nat ->
  checkpoint p = Some c ->
  let batches :=
    numpy_batches 128 (length x) ((1 * length x - 0 + (128 - 1)) / 128) 0 in
  Estimator_evaluate {| model_fn := cnn_model_fn; model_dir := dir |}
                     w (numpy_input_fn x y 1 false) p
  = (Ok [("accuracy"%string,
          correct_in (variables c) x y (seq 0 (length x))
          / INR (length x));
         ("loss"%string,
          Rsum (map (eval_batch_loss (variables c) x y) batches)
          / INR (length batches));
         ("global_step"%string, INR (global_step c))],
     log_to p (Enter Evaluate :: map RunEval batches
               ++ [Leave Evaluate])).
Proof.
  intros Hx Hxy Hn Hck.
  pose proof (eval_batches_nonempty (length x) Hn) as Hne.
  set (k := ((1 * length x - 0 + (128 - 1)) / 128)%nat) in *.
  intros batches. fold batches in Hne.
  assert (Hcat : concat batches = seq 0 (length x)).
  { unfold batches.
    rewrite (numpy_batches_concat x y 128 Hxy ltac:(lia) k 0).
    - now rewrite Nat.sub_0_r.
    - apply enough_reads. }
  unfold Estimator_evaluate, numpy_input_fn.
  unfold bind at 1. rewrite emit_run.
  unfold bind at 1. unfold get_checkpoint.
  change (checkpoint (log_to p [Enter Evaluate])) with (checkpoint p).
  rewrite Hck.
  rewrite (numpy_builds x y 128 Hxy Hn).
  cbn [remaining model_fn]. fold k.
  unfold bind at 1.
  rewrite (eval_loop_spec w x y (variables c) 128 Hx Hxy Hn ltac:(lia) k).
  fold batches. unfold bind at 1. rewrite emit_run. unfold ret.
  rewrite !log_to_app. cbn [fst snd].
  assert (Hacc : acc_after (variables c) x y [] batches
                 = [("accuracy"%string,
                     tf.metrics.MeanUpdate
                       (0 + correct_in (variables c) x y (seq 0 (length x)))
                       (0 + INR (length x)))]).
  { unfold acc_after. destruct batches as [|b rest] eqn:Eb.
    - congruence.
    - rewrite Hcat, length_seq. reflexivity. }
  rewrite Hacc, loss_after_sum. cbn [map fst snd app].
  unfold tf.metrics.mean_value.
  cbn [tf.metrics.total tf.metrics.count zero_mean].
  rewrite !Rplus_0_l, !safe_div_INR;
    [reflexivity | | lia].
  intros E. destruct batches; [congruence | discriminate].
Qed.

(** X16.  On a non-empty test split of flat 28x28 images with one label
    per image, and with a trained model in place, the three numbers the
    evaluation returns are: an accuracy between 0 and 1; as loss, the
    plain mean of the losses of the batches that were read (every batch
    counts once, whatever its size), which is not negative; and the
    global step of the checkpoint that was evaluated. *)
Theorem evaluation_reports_accuracy_loss_and_step
        (x : list (list R)) (y : list Z) (dir : string)
        (c : Checkpoint) (p : Process) :
  valid_batch x = true ->
  length x = length y ->
  (0 < length x)%nat ->
  checkpoint p = Some c ->
  exists batches accuracy_ loss_,
    (forall w,
        Estimator_evaluate {| model_fn := cnn_model_fn; model_dir := dir |}
                           w (numpy_input_fn x y 1 false) p
        = (Ok [("accuracy"%string, accuracy_);
               ("loss"%string, loss_);
               ("global_step"%string, INR (global_step c))],
           log_to p (Enter Evaluate :: map RunEval batches
                     ++ [Leave Evaluate])))
    /\ 0 <= accuracy_ <= 1
    /\ batches <> []
    /\ loss_ = Rsum (map (eval_batch_loss (variables c) x y) batches)
               / INR (length batches)
    /\ 0 <= loss_.
Proof.
  intros Hv Hxy Hn Hck. apply valid_batch_Forall in Hv.
  set (batches :=
         numpy_batches 128 (length x)
                       ((1 * length x - 0 + (128 - 1)) / 128) 0).
  exists batches,
    (correct_in (variables c) x y (seq 0 (length x)) / INR (length x)),
    (Rsum (map (eval_batch_loss (variables c) x y) batches)
     / INR (length batches)).
  assert (Hne : batches <> [])
    by (apply eval_batches_nonempty; exact Hn).
  split.
  { intros w. exact (evaluate_call_explicit x y dir c p w Hv Hxy Hn Hck). }
  assert (Hpos : 0 < INR (length x)) by (apply lt_0_INR; exact Hn).
  assert (Hposb : 0 < INR (length batches)).
  { apply lt_0_INR. destruct batches; [congruence | simpl; lia]. }
  split.
  { pose proof (correct_in_bounds (variables c) x y (seq 0 (length x)))
      as [Hlo Hhi].
    rewrite length_seq in Hhi. split.
    - apply Rmult_le_pos; [exact Hlo|].
      left. now apply Rinv_0_lt_compat.
    - apply (Rmult_le_reg_r (INR (length x))); [exact Hpos|].
      unfold Rdiv. rewrite Rmult_assoc, Rinv_l by lra. lra. }
  split; [exact Hne|]. split; [reflexivity|].
  apply Rmult_le_pos; [|left; now apply Rinv_0_lt_compat].
  apply Rsum_nonneg, Forall_forall. intros v Hin.
  apply in_map_iff in Hin. destruct Hin as [b [<- _]].
  apply eval_batch_loss_nonneg.
Qed.

Lemma evaluation_reports_accuracy_loss_and_step_witness :
  valid_batch (images sample_split) = true
  /\ length (images sample_split) = length (labels sample_split)
  /\ (0 < length (images sample_split))%nat
  /\ exists batches accuracy_ loss_,
       Estimator_evaluate {| model_fn := cnn_model_fn; model_dir := "m" |}
                          sample_world
                          (numpy_input_fn (images sample_split)
                                          (labels sample_split) 1 false)
                          {| checkpoint := Some (fresh_checkpoint sample_world);
                             exported := None; console := [] |}
       = (Ok [("accuracy"%string, accuracy_);
              ("loss"%string, loss_);
              ("global_step"%string, 0)],
          {| checkpoint := Some (fresh_checkpoint sample_world);
             exported := None;
             console := Enter Evaluate :: map RunEval batches
                        ++ [Leave Evaluate] |})
       /\ 0 <= accuracy_ <= 1
       /\ 0 <= loss_.
Proof.
  assert (Hn : (0 < length (images sample_split))%nat)
    by (unfold sample_split; simpl; lia).
  split; [reflexivity|]. split; [reflexivity|]. split; [exact Hn|].
  destruct (evaluation_reports_accuracy_loss_and_step
              (images sample_split) (labels sample_split) "m"
              (fresh_checkpoint sample_world)
              {| checkpoint := Some (fresh_checkpoint sample_world);
                 exported := None; console := [] |}
              eq_refl eq_refl Hn eq_refl)
    as (batches & a & l & Hrun & Ha & _ & _ & Hl).
  exists batches, a, l. split; [exact (Hrun sample_world)|].
  split; [exact Ha | exact Hl].
Defined.

(** ** Flags that stop the run *)

(** X17.  The flags are checked only after the data set was loaded.
    When the data loads and [logging_hook_iter] is not positive, the
    run raises a [ValueError] when it builds the logging hook, before
    training is entered; when [logging_hook_iter] is positive and
    [num_steps] is not, it raises a [ValueError] on entering training.
    In both cases no training step has run, the model directory holds
    what it held at the start and nothing is exported. *)
Theorem invalid_flags_stop_the_run_after_loading
        (FLAGS : Flags) (w : World) (d : Datasets) :
  read_files w (data_dir FLAGS) = Some d ->
  consistent (train d) && consistent (validation d) && consistent (test d)
  = true ->
  (logging_hook_iter FLAGS <= 0 \/ num_steps FLAGS <= 0)%Z ->
  (exists msg, fst (run FLAGS w) = Raise (ValueError msg))
  /\ checkpoint (snd (run FLAGS w))
     = found_checkpoint w (model_dir_flag FLAGS)
  /\ exported (snd (run FLAGS w)) = None
  /\ console (snd (run FLAGS w))
     = Enter Load :: Leave Load
       :: (if (logging_hook_iter FLAGS <=? 0)%Z then [] else [Enter Train]).
Proof.
  intros Hread Hcons Hflags.
  assert (Hrun : run FLAGS w
                 = (Raise (ValueError
                             (if (logging_hook_iter FLAGS <=? 0)%Z
                              then "invalid every_n_iter"%string
                              else "Must specify steps > 0"%string)),
                    log_to (start FLAGS w)
                           (Enter Load :: Leave Load
                            :: (if (logging_hook_iter FLAGS <=? 0)%Z
                                then [] else [Enter Train])))).
  { unfold run, main. cbv zeta.
    unfold bind at 1.
    rewrite (read_data_sets_ok w (data_dir FLAGS) d (start FLAGS w)
                               Hread Hcons).
    unfold bind at 1. unfold LoggingTensorHook.
    destruct (logging_hook_iter FLAGS <=? 0)%Z eqn:E; [reflexivity|].
    apply Z.leb_gt in E.
    assert (Hsteps : (num_steps FLAGS <=? 0)%Z = true)
      by (apply Z.leb_le; lia).
    unfold ret. unfold Estimator_train.
    unfold bind at 1. unfold bind at 1. rewrite emit_run, Hsteps.
    unfold raise. now rewrite log_to_app. }
  rewrite Hrun. cbn [fst snd log_to start checkpoint exported console app].
  split; [eexists; reflexivity|]. split; [reflexivity|].
  split; reflexivity.
Qed.

Lemma invalid_flags_stop_the_run_after_loading_witness :
  read_files sample_world (data_dir zero_step_flags)
  = Some {| train := sample_split; validation := sample_split;
            test := sample_split |}
  /\ (logging_hook_iter zero_step_flags <= 0
      \/ num_steps zero_step_flags <= 0)%Z
  /\ (exists msg,
         fst (run zero_step_flags sample_world) = Raise (ValueError msg))
  /\ checkpoint (snd (run zero_step_flags sample_world)) = None
  /\ exported (snd (run zero_step_flags sample_world)) = None
  /\ console (snd (run zero_step_flags sample_world))
     = [Enter Load; Leave Load; Enter Train].
Proof.
  assert (Hf : (logging_hook_iter zero_step_flags <= 0
                \/ num_steps zero_step_flags <= 0)%Z)
    by (right; simpl; lia).
  split; [reflexivity|]. split; [exact Hf|].
  exact (invalid_flags_stop_the_run_after_loading
           zero_step_flags sample_world
           {| train := sample_split; validation := sample_split;
              test := sample_split |}
           eq_refl eq_refl Hf).
Defined.

(** ** A run in which every stage succeeds *)

(** X18.  When the files hold consistent splits of flat 28x28 images
    with non-empty train and test splits, both flags are positive and
    the disk takes the export, the script returns normally after going
    through load, train, evaluate, predict and export; the model
    directory then holds a checkpoint whose global step is the one
    found at the start (0 if there was none) plus [num_steps], and the
    exported bundle holds the variables of that checkpoint. *)
Theorem script_runs_to_completion
        (FLAGS : Flags) (w : World) (d : Datasets) :
  read_files w (data_dir FLAGS) = Some d ->
  consistent (train d) && consistent (validation d) && consistent (test d)
  = true ->
  valid_batch (images (train d)) = true ->
  (0 < num_examples (train d))%nat ->
  valid_batch (images (test d)) = true ->
  (0 < num_examples (test d))%nat ->
  valid_batch (fst (DataSet_next_batch w (test d) 20)) = true ->
  length (fst (DataSet_next_batch w (test d) 20))
  = length (snd (DataSet_next_batch w (test d) 20)) ->
  (0 < num_steps FLAGS)%Z ->
  (0 < logging_hook_iter FLAGS)%Z ->
  can_write w (model_dir_flag FLAGS) = true ->
  fst (run FLAGS w) = Ok tt
  /\ stage_events (console (snd (run FLAGS w))) = pipeline
  /\ exists c m,
      checkpoint (snd (run FLAGS w)) = Some c
      /\ exported (snd (run FLAGS w)) = Some m
      /\ frozen m = variables c
      /\ signatures m = [DEFAULT_SERVING_SIGNATURE_DEF_KEY]
      /\ inputs m = export.receiver_tensors (serving_input_receiver_fn tt)
      /\ global_step c
         = (match found_checkpoint w (model_dir_flag FLAGS) with
            | Some c0 => global_step c0
            | None => 0
            end + Z.to_nat (num_steps FLAGS))%nat.
Proof.
  intros Hread Hcons Htr Htrn Hte Hten Hpb Hpbl Hsteps Hperiod Hdisk.
  destruct (complete_run FLAGS w d Hread Hcons Htr Htrn Hte Hten Hpb Hpbl
                         Hsteps Hperiod Hdisk)
    as (Hok & Hstages & c & Hck & Hexp & Hgs).
  split; [exact Hok|]. split; [exact Hstages|].
  exists c, (serving_bundle (variables c)).
  split; [exact Hck|]. split; [exact Hexp|].
  split; [reflexivity|]. split; [reflexivity|].
  split; [reflexivity | exact Hgs].
Qed.

Lemma script_runs_to_completion_witness :
  (0 < num_steps short_run_flags)%Z
  /\ (0 < logging_hook_iter short_run_flags)%Z
  /\ fst (run short_run_flags sample_world) = Ok tt
  /\ stage_events (console (snd (run short_run_flags sample_world)))
     = pipeline
  /\ exists c,
       checkpoint (snd (run short_run_flags sample_world)) = Some c
       /\ global_step c = 2%nat.
Proof.
  assert (Hn : (0 < num_examples sample_split)%nat)
    by (unfold num_examples, sample_split; simpl; lia).
  assert (Hs : (0 < num_steps short_run_flags)%Z) by (simpl; lia).
  assert (Hp : (0 < logging_hook_iter short_run_flags)%Z) by (simpl; lia).
  split; [exact Hs|]. split; [exact Hp|].
  destruct (script_runs_to_completion
              short_run_flags sample_world
              {| train := sample_split; validation := sample_split;
                 test := sample_split |}
              eq_refl eq_refl eq_refl Hn eq_refl Hn eq_refl eq_refl
              Hs Hp eq_refl)
    as (H1 & H2 & c & m & H3 & _ & _ & _ & _ & H4).
  split; [exact H1|]. split; [exact H2|].
  exists c. split; [exact H3 | exact H4].
Defined.

(** ** An empty training split *)

(** X19.  When the data loads, both flags are positive and the train
    split holds no example, the run never gets past training: the
    shuffle queue is never filled, the first training step waits for a
    batch for ever, and the run neither returns nor raises.  The model
    directory holds the checkpoint that is written when the training
    session is created, which is the state training would have started
    from: the checkpoint found there or, in a fresh directory, the
    initial values at global step 0.  Nothing is exported. *)
Theorem empty_training_split_hangs
        (FLAGS : Flags) (w : World) (d : Datasets) :
  read_files w (data_dir FLAGS) = Some d ->
  consistent (train d) && consistent (validation d) && consistent (test d)
  = true ->
  num_examples (train d) = 0%nat ->
  (0 < num_steps FLAGS)%Z ->
  (0 < logging_hook_iter FLAGS)%Z ->
  fst (run FLAGS w) = Diverge
  /\ console (snd (run FLAGS w)) = [Enter Load; Leave Load; Enter Train]
  /\ checkpoint (snd (run FLAGS w))
     = Some (match found_checkpoint w (model_dir_flag FLAGS) with
             | Some c => c
             | None => {| global_step := 0; variables := initial_value w;
                          slots := tf.train.init_slots |}
             end)
  /\ exported (snd (run FLAGS w)) = None.
Proof.
  intros Hread Hcons Hempty Hsteps Hperiod.
  destruct (consistent_splits d Hcons) as [Hctr _].
  assert (Hrun : run FLAGS w
                 = (Diverge,
                    {| checkpoint :=
                         Some (match found_checkpoint
                                       w (model_dir_flag FLAGS) with
                               | Some c => c
                               | None => fresh_checkpoint w
                               end);
                       exported := None;
                       console := [Enter Load; Leave Load; Enter Train] |})).
  { unfold run, main. cbv zeta.
    unfold bind at 1.
    rewrite (read_data_sets_ok w (data_dir FLAGS) d (start FLAGS w)
                               Hread Hcons).
    unfold bind at 1. unfold LoggingTensorHook.
    assert (Hp : (logging_hook_iter FLAGS <=? 0)%Z = false)
      by (apply Z.leb_gt; exact Hperiod).
    assert (Hs : (num_steps FLAGS <=? 0)%Z = false)
      by (apply Z.leb_gt; exact Hsteps).
    rewrite Hp. unfold ret. unfold Estimator_train.
    unfold bind at 1. unfold bind at 1. rewrite emit_run, Hs.
    rewrite (generate_input_fn_builds (train d) Hctr).
    unfold bind at 1. unfold get_checkpoint.
    unfold bind at 1. unfold save_checkpoint at 1.
    destruct (Z.to_nat (num_steps FLAGS)) as [|n] eqn:En; [lia|].
    unfold bind at 1. cbn [train_loop reader model_fn].
    unfold next_batch.
    rewrite (generate_input_fn_builds (train d) Hctr).
    unfold generate_input_fn.
    change (num_examples (constants (train d)))
      with (num_examples (train d)).
    rewrite Hempty. cbn [Nat.eqb]. unfold diverge.
    reflexivity. }
  rewrite Hrun. cbn [fst snd checkpoint exported console].
  split; [reflexivity|]. split; [reflexivity|]. split; reflexivity.
Qed.

Lemma empty_training_split_hangs_witness :
  num_examples (train empty_train_files) = 0%nat
  /\ (0 < num_steps short_run_flags)%Z
  /\ (0 < logging_hook_iter short_run_flags)%Z
  /\ fst (run short_run_flags empty_train_world) = Diverge.
Proof.
  assert (Hs : (0 < num_steps short_run_flags)%Z) by (simpl; lia).
  assert (Hp : (0 < logging_hook_iter short_run_flags)%Z) by (simpl; lia).
  split; [reflexivity|]. split; [exact Hs|]. split; [exact Hp|].
  exact (proj1 (empty_training_split_hangs
                  short_run_flags empty_train_world empty_train_files
                  eq_refl eq_refl eq_refl Hs Hp)).
Defined.

(** * The drivers in the run of the script *)

Lemma render_stage (period : nat) (steps : list (list nat * list (list R))) :
  forall iter,
    Forall (fun e => stage_of e = Train) (render period iter steps).
Proof.
  induction steps as [|s steps IH]; intros iter; cbn [render];
    [constructor|].
  constructor; [reflexivity|]. apply Forall_app. split; [|apply IH].
  destruct (iter mod period =? 0)%nat; repeat constructor.
Qed.

Lemma run_iters_app (a b : list event) :
  run_iters (a ++ b) = run_iters a ++ run_iters b.
Proof. apply flat_map_app. Qed.

Lemma logged_iters_app (a b : list event) :
  logged_iters (a ++ b) = logged_iters a ++ logged_iters b.
Proof. apply flat_map_app. Qed.

Lemma eval_runs_app (a b : list event) :
  eval_runs (a ++ b) = eval_runs a ++ eval_runs b.
Proof. apply flat_map_app. Qed.

Lemma printed_results_app (a b : list event) :
  printed_results (a ++ b) = printed_results a ++ printed_results b.
Proof. apply flat_map_app. Qed.

Lemma no_training_events (es : list event) :
  Forall (fun e => stage_of e <> Train) es ->
  run_iters es = [] /\ logged_iters es = [].
Proof.
  induction 1 as [|e es He _ [IH1 IH2]]; [split; reflexivity|].
  unfold run_iters, logged_iters in *. cbn [flat_map].
  rewrite IH1, IH2.
  destruct e; try (split; reflexivity); cbn [stage_of] in He; congruence.
Qed.

Lemma no_evaluation_events (es : list event) :
  Forall (fun e => stage_of e <> Evaluate) es ->
  eval_runs es = [] /\ printed_results es = [].
Proof.
  induction 1 as [|e es He _ [IH1 IH2]]; [split; reflexivity|].
  unfold eval_runs, printed_results in *. cbn [flat_map].
  rewrite IH1, IH2.
  destruct e; try (split; reflexivity); cbn [stage_of] in He; congruence.
Qed.

Lemma eval_runs_map (batches : list (list nat)) :
  eval_runs (map RunEval batches) = batches
  /\ printed_results (map RunEval batches) = [].
Proof.
  induction batches as [|b batches [IH1 IH2]]; [split; reflexivity|].
  unfold eval_runs, printed_results in *. cbn [map flat_map app].
  rewrite IH1, IH2. split; reflexivity.
Qed.

Lemma stages_apart (ss : list stage) (s : stage) (es : list event) :
  ~ In s ss ->
  Forall (fun e => In (stage_of e) ss) es ->
  Forall (fun e => stage_of e <> s) es.
Proof.
  intros Hs H. eapply Forall_impl; [|exact H].
  intros e He Heq. apply Hs. now rewrite <- Heq.
Qed.

Lemma training_prefix_stages (period : nat)
      (steps : list (list nat * list (list R))) :
  Forall (fun e => In (stage_of e) [Load; Train])
         ([Enter Load; Leave Load]
          ++ Enter Train :: render period 0 steps ++ [Leave Train]).
Proof.
  apply Forall_app. split; [repeat constructor; simpl; tauto|].
  constructor; [simpl; tauto|].
  apply Forall_app. split; [|repeat constructor; simpl; tauto].
  eapply Forall_impl; [|apply render_stage].
  intros e He. rewrite He. simpl. tauto.
Qed.

(** C6.  In a run of the script on files with consistent splits, a
    non-empty train split of flat 28x28 images and positive flags, the
    training call returns after exactly [num_steps] runs of the train
    operation, numbered 0, 1, ..., and nothing after it runs the train
    operation again; the checkpoint the run leaves has its global step
    advanced by [num_steps].  Run [i] is on the [i]-th batch the
    shuffling reader serves: exactly 100 examples of the train split,
    drawn from a queue that is fed with the split in stored order, pass
    after pass, and holds at most 800 examples.  An example is drawn at
    most once for each time it was fed: all draws together with what
    waits in the queue are a rearrangement of what was fed, and no
    example was drawn more often than passes have begun.  Nothing keeps
    the examples of one batch, or of one pass, apart.  Each run is one
    update of all variables by the Adam rule with step size 1e-4 along
    the gradient of the cross-entropy of its batch, starting from the
    checkpoint found or else from the initial values.  The class
    probabilities of the batch of a run (100 rows of 10 entries, the
    softmax of the logits) are logged exactly at the runs whose number
    is a multiple of [logging_hook_iter]. *)
Theorem training_driver (FLAGS : Flags) (w : World) (d : Datasets) :
  read_files w (data_dir FLAGS) = Some d ->
  consistent (train d) && consistent (validation d) && consistent (test d)
  = true ->
  valid_batch (images (train d)) = true ->
  (0 < num_examples (train d))%nat ->
  (0 < num_steps FLAGS)%Z ->
  (0 < logging_hook_iter FLAGS)%Z ->
  exists c' steps q' rest,
    console (snd (run FLAGS w))
    = [Enter Load; Leave Load]
      ++ Enter Train
      :: render (Z.to_nat (logging_hook_iter FLAGS)) 0 steps
      ++ Leave Train :: rest
    /\ Forall (fun e => stage_of e <> Train) rest
    /\ checkpoint (snd (run FLAGS w)) = Some c'
    /\ length steps = Z.to_nat (num_steps FLAGS)
    /\ global_step c'
       = (match found_checkpoint w (model_dir_flag FLAGS) with
          | Some c0 => global_step c0
          | None => 0
          end + Z.to_nat (num_steps FLAGS))%nat
    /\ run_iters (console (snd (run FLAGS w)))
       = seq 0 (Z.to_nat (num_steps FLAGS))
    /\ logged_iters (console (snd (run FLAGS w)))
       = filter (fun i => (i mod Z.to_nat (logging_hook_iter FLAGS) =? 0)%nat)
                (seq 0 (Z.to_nat (num_steps FLAGS)))
    /\ map fst steps
       = shuffle_batches (num_examples (train d)) 800 400 100 (scheduler w)
                         (Z.to_nat (num_steps FLAGS)) 0 tf.train.empty_queue
    /\ Forall (fun s => length (fst s) = 100%nat
                        /\ Forall (fun i => (i < num_examples (train d))%nat)
                                  (fst s)
                        /\ shape2 100 10 (snd s)) steps
    /\ Permutation (concat (map fst steps) ++ tf.train.waiting q')
                   (pushed (num_examples (train d)) (tf.train.enqueued q'))
    /\ (length (tf.train.waiting q') <= 800)%nat
    /\ (forall i,
          count_occ Nat.eq_dec (concat (map fst steps)) i
          <= tf.train.enqueued q' / num_examples (train d) + 1)%nat
    /\ training_steps
         w (constants (train d)) 0 steps
         (match found_checkpoint w (model_dir_flag FLAGS) with
          | Some c0 => (variables c0, slots c0)
          | None => (initial_value w, tf.train.init_slots)
          end)
         (variables c', slots c').
Proof.
  intros Hread Hcons Hv Hne Hsteps Hperiod.
  destruct (run_after_training FLAGS w d Hread Hcons Hv Hne Hsteps Hperiod)
    as (c' & steps & q' & Hrun & Hlen & Hgs & Hok & Hperm & Hcap & Hb & Ht).
  match type of Hrun with _ = _ ?p => set (p2 := p) in * end.
  destruct (after_training_adds FLAGS w d p2) as (rest & Hcon & Hrest).
  pose proof (after_training_keeps FLAGS w d p2) as Hck.
  rewrite <- Hrun in Hcon, Hck.
  assert (Hnot : Forall (fun e => stage_of e <> Train) rest).
  { apply (stages_apart [Evaluate; Predict; Export]); [|exact Hrest].
    simpl. intros [H|[H|[H|[]]]]; discriminate. }
  assert (Hall : console (snd (run FLAGS w))
                 = [Enter Load; Leave Load]
                   ++ Enter Train
                   :: render (Z.to_nat (logging_hook_iter FLAGS)) 0 steps
                   ++ Leave Train :: rest).
  { rewrite Hcon. unfold p2. cbn [console].
    rewrite <- !app_assoc. cbn [app]. rewrite <- app_assoc. reflexivity. }
  destruct (no_training_events rest Hnot) as [Hr1 Hr2].
  exists c', steps, q', rest.
  split; [exact Hall|]. split; [exact Hnot|]. split; [exact Hck|].
  split; [exact Hlen|]. split; [exact Hgs|].
  split.
  { rewrite Hall. cbn [app].
    change (run_iters (Enter Load :: Leave Load :: Enter Train :: ?l))
      with (run_iters l).
    rewrite run_iters_app, run_iters_render, Hlen.
    change (run_iters (Leave Train :: rest)) with (run_iters rest).
    now rewrite Hr1, app_nil_r. }
  split.
  { rewrite Hall. cbn [app].
    change (logged_iters (Enter Load :: Leave Load :: Enter Train :: ?l))
      with (logged_iters l).
    rewrite logged_iters_app, logged_iters_render, Hlen.
    change (logged_iters (Leave Train :: rest)) with (logged_iters rest).
    now rewrite Hr2, app_nil_r. }
  split; [exact Hb|]. split; [exact Hok|].
  split; [exact Hperm|]. split; [exact Hcap|].
  split; [|exact Ht].
  intros i. exact (proj1 (draws_bounded_by_passes _ _ _ _ i Hne Hperm)).
Qed.

Lemma training_driver_witness :
  (0 < num_examples (train {| train := sample_split;
                              validation := sample_split;
                              test := sample_split |}))%nat
  /\ (0 < num_steps short_run_flags)%Z
  /\ (0 < logging_hook_iter short_run_flags)%Z
  /\ exists c',
       checkpoint (snd (run short_run_flags sample_world)) = Some c'
       /\ global_step c' = 2%nat
       /\ run_iters (console (snd (run short_run_flags sample_world)))
          = [0; 1]%nat.
Proof.
  assert (Hn : (0 < num_examples sample_split)%nat)
    by (unfold num_examples, sample_split; simpl; lia).
  assert (Hs : (0 < num_steps short_run_flags)%Z) by (simpl; lia).
  assert (Hp : (0 < logging_hook_iter short_run_flags)%Z) by (simpl; lia).
  split; [exact Hn|]. split; [exact Hs|]. split; [exact Hp|].
  destruct (training_driver
              short_run_flags sample_world
              {| train := sample_split; validation := sample_split;
                 test := sample_split |}
              eq_refl eq_refl eq_refl Hn Hs Hp)
    as (c' & steps & q' & rest & _ & _ & Hck & _ & Hgs & Hri & _).
  exists c'. split; [exact Hck|]. split; [exact Hgs | exact Hri].
Defined.

Lemma first_batch_of_repeating_world :
  hd [] (shuffle_batches 3 800 400 100 (scheduler repeating_world) 2 0
                         tf.train.empty_queue)
  = repeat 0%nat 100.
Proof. vm_compute. reflexivity. Qed.

(** The draws of a batch are not without repetition.  In the world
    [repeating_world] the first batch of a run on the sample split,
    which holds three examples, is the first example a hundred times. *)
Lemma one_example_can_fill_a_batch :
  num_examples sample_split = 3%nat
  /\ In (RunStep 0 (repeat 0%nat 100) adam_1e_4)
        (console (snd (run short_run_flags repeating_world)))
  /\ ~ NoDup (repeat 0%nat 100).
Proof.
  assert (Hn : (0 < num_examples sample_split)%nat)
    by (unfold num_examples, sample_split; simpl; lia).
  assert (Hs : (0 < num_steps short_run_flags)%Z) by (simpl; lia).
  assert (Hp : (0 < logging_hook_iter short_run_flags)%Z) by (simpl; lia).
  split; [reflexivity|]. split.
  - destruct (run_after_training
                short_run_flags repeating_world
                {| train := sample_split; validation := sample_split;
                   test := sample_split |}
                eq_refl eq_refl eq_refl Hn Hs Hp)
      as (c' & steps & q' & Hrun & Hlen & _ & _ & _ & _ & Hb & _).
    match type of Hrun with _ = _ ?p => set (p2 := p) in * end.
    destruct (after_training_adds
                short_run_flags repeating_world
                {| train := sample_split; validation := sample_split;
                   test := sample_split |} p2) as (rest & Hcon & _).
    rewrite <- Hrun in Hcon. rewrite Hcon.
    apply in_or_app. left. unfold p2. cbn [console].
    apply in_or_app. right. right.
    destruct steps as [|s steps]; [discriminate Hlen|].
    cbn [render]. left.
    pose proof (f_equal (hd []) Hb) as Hfirst. cbn [map hd] in Hfirst.
    rewrite Hfirst.
    apply (f_equal (fun b => RunStep 0 b adam_1e_4)).
    exact first_batch_of_repeating_world.
  - intros H. inversion H as [|x l Hin _]. subst.
    apply Hin. left. reflexivity.
Qed.

(** C7.  In a run of the script on files with consistent splits,
    non-empty train and test splits of flat 28x28 images and positive
    flags, the evaluation comes after loading and training, before
    prediction and export, and happens once.  It reads the test split
    exactly once, in its stored order, in batches of at most 128
    examples, whatever the random draws and the scheduling are.  The
    script then prints one result.  Its accuracy is one number: the
    correct predictions summed over the batches, divided by the examples
    summed over the batches, that is the share of the examples of the
    test split that the model the run leaves in the model directory
    classifies as their label says. *)
Theorem evaluation_driver (FLAGS : Flags) (w : World) (d : Datasets) :
  read_files w (data_dir FLAGS) = Some d ->
  consistent (train d) && consistent (validation d) && consistent (test d)
  = true ->
  valid_batch (images (train d)) = true ->
  (0 < num_examples (train d))%nat ->
  valid_batch (images (test d)) = true ->
  (0 < num_examples (test d))%nat ->
  (0 < num_steps FLAGS)%Z ->
  (0 < logging_hook_iter FLAGS)%Z ->
  exists c batches accuracy loss_value before rest,
    console (snd (run FLAGS w))
    = before
      ++ Enter Evaluate :: map RunEval batches
      ++ [Leave Evaluate;
          PrintResults [("accuracy"%string, accuracy);
                        ("loss"%string, loss_value);
                        ("global_step"%string, INR (global_step c))]]
      ++ rest
    /\ Forall (fun e => In (stage_of e) [Load; Train]) before
    /\ Forall (fun e => In (stage_of e) [Predict; Export]) rest
    /\ checkpoint (snd (run FLAGS w)) = Some c
    /\ eval_runs (console (snd (run FLAGS w))) = batches
    /\ concat batches = seq 0 (num_examples (test d))
    /\ Forall (fun b => (0 < length b <= 128)%nat) batches
    /\ printed_results (console (snd (run FLAGS w)))
       = [[("accuracy"%string, accuracy);
           ("loss"%string, loss_value);
           ("global_step"%string, INR (global_step c))]]
    /\ accuracy
       = Rsum (map (correct_in (variables c) (images (test d))
                               (as_int32 (labels (test d)))) batches)
         / Rsum (map (fun b => INR (length b)) batches)
    /\ accuracy
       = correct_in (variables c) (images (test d))
                    (as_int32 (labels (test d)))
                    (seq 0 (num_examples (test d)))
         / INR (num_examples (test d)).
Proof.
  intros Hread Hcons Hv Hne Hte Hten Hsteps Hperiod.
  destruct (consistent_splits d Hcons) as [_ Hcte].
  destruct (run_after_training FLAGS w d Hread Hcons Hv Hne Hsteps Hperiod)
    as (c & steps & q' & Hrun & _).
  match type of Hrun with _ = _ ?p => set (p2 := p) in * end.
  destruct (after_training_evaluates FLAGS w d c p2 Hte Hcte Hten eq_refl)
    as (batches & lv & Hcat & Hsz & Heval).
  match type of Heval with _ = _ ?p => set (p3 := p) in * end.
  destruct (after_evaluation_adds FLAGS w d p3) as (rest & Hcon & Hrest).
  pose proof (after_evaluation_keeps FLAGS w d p3) as Hck.
  rewrite <- Heval, <- Hrun in Hcon, Hck.
  set (x := images (test d)) in *.
  set (y := as_int32 (labels (test d))) in *.
  set (acc := correct_in (variables c) x y (seq 0 (num_examples (test d)))
              / INR (num_examples (test d))) in *.
  set (results := [("accuracy"%string, acc); ("loss"%string, lv);
                   ("global_step"%string, INR (global_step c))]) in *.
  set (before := [Enter Load; Leave Load]
                 ++ Enter Train
                 :: render (Z.to_nat (logging_hook_iter FLAGS)) 0 steps
                 ++ [Leave Train]) in *.
  assert (Hbefore : Forall (fun e => In (stage_of e) [Load; Train]) before)
    by apply training_prefix_stages.
  assert (Hall : console (snd (run FLAGS w))
                 = before
                   ++ Enter Evaluate :: map RunEval batches
                   ++ [Leave Evaluate; PrintResults results] ++ rest).
  { rewrite Hcon. unfold p3, p2, log_to. cbn [console].
    rewrite <- !app_assoc. cbn [app]. rewrite <- !app_assoc.
    reflexivity. }
  assert (Hb0 : eval_runs before = [] /\ printed_results before = []).
  { apply no_evaluation_events.
    apply (stages_apart [Load; Train]); [|exact Hbefore].
    simpl. intros [H|[H|[]]]; discriminate. }
  assert (Hr0 : eval_runs rest = [] /\ printed_results rest = []).
  { apply no_evaluation_events.
    apply (stages_apart [Predict; Export]); [|exact Hrest].
    simpl. intros [H|[H|[]]]; discriminate. }
  destruct Hb0 as [Hb1 Hb2], Hr0 as [Hr1 Hr2].
  destruct (eval_runs_map batches) as [Hm1 Hm2].
  exists c, batches, acc, lv, before, rest.
  split; [exact Hall|]. split; [exact Hbefore|]. split; [exact Hrest|].
  split; [exact Hck|].
  split.
  { rewrite Hall, eval_runs_app, Hb1. cbn [app].
    change (eval_runs (Enter Evaluate :: ?l)) with (eval_runs l).
    rewrite eval_runs_app, Hm1. cbn [app].
    change (eval_runs (Leave Evaluate :: PrintResults results :: rest))
      with (eval_runs rest).
    now rewrite Hr1, app_nil_r. }
  split; [exact Hcat|]. split; [exact Hsz|].
  split.
  { rewrite Hall, printed_results_app, Hb2. cbn [app].
    change (printed_results (Enter Evaluate :: ?l))
      with (printed_results l).
    rewrite printed_results_app, Hm2. cbn [app].
    change (printed_results (Leave Evaluate :: PrintResults results :: rest))
      with (results :: printed_results rest).
    now rewrite Hr2. }
  split; [|reflexivity].
  assert (H1 : correct_in (variables c) x y (concat batches)
               = Rsum (map (correct_in (variables c) x y) batches)).
  { clear. induction batches as [|b rest IH]; simpl; [reflexivity|].
    now rewrite correct_in_app, IH. }
  assert (H2 : INR (length (concat batches))
               = Rsum (map (fun b => INR (length b)) batches)).
  { clear. induction batches as [|b rest IH]; simpl; [reflexivity|].
    now rewrite length_app, plus_INR, IH. }
  rewrite <- H1, <- H2, Hcat, length_seq. reflexivity.
Qed.

Lemma evaluation_driver_witness :
  (0 < num_examples sample_split)%nat
  /\ (0 < num_steps short_run_flags)%Z
  /\ (0 < logging_hook_iter short_run_flags)%Z
  /\ exists c accuracy loss_value,
       checkpoint (snd (run short_run_flags sample_world)) = Some c
       /\ concat (eval_runs (console (snd (run short_run_flags sample_world))))
          = [0; 1; 2]%nat
       /\ printed_results (console (snd (run short_run_flags sample_world)))
          = [[("accuracy"%string, accuracy);
              ("loss"%string, loss_value);
              ("global_step"%string, INR (global_step c))]].
Proof.
  assert (Hn : (0 < num_examples sample_split)%nat)
    by (unfold num_examples, sample_split; simpl; lia).
  assert (Hs : (0 < num_steps short_run_flags)%Z) by (simpl; lia).
  assert (Hp : (0 < logging_hook_iter short_run_flags)%Z) by (simpl; lia).
  split; [exact Hn|]. split; [exact Hs|]. split; [exact Hp|].
  destruct (evaluation_driver
              short_run_flags sample_world
              {| train := sample_split; validation := sample_split;
                 test := sample_split |}
              eq_refl eq_refl eq_refl Hn eq_refl Hn Hs Hp)
    as (c & batches & acc & lv & before & rest & _ & _ & _ & Hck & Hruns
        & Hcat & _ & Hprint & _).
  exists c, acc, lv. split; [exact Hck|]. split; [|exact Hprint].
  rewrite Hruns. exact Hcat.
Defined.

(** ** Labels outside the classes *)

Lemma example_loss_is_cross_entropy (c : Z) (r : list R) :
  length r = 10%nat ->
  cross_entropy (tf.one_hot_row 10 c) (tf.nn.softmax_row r)
  = example_loss c r.
Proof.
  intros Hr. unfold example_loss.
  destruct ((0 <=? c) && (c <=? 9))%Z eqn:E.
  - apply andb_prop in E. destruct E as [E1 E2].
    apply Z.leb_le in E1, E2.
    apply cross_entropy_one_hot; [lia|]. now rewrite softmax_row_length.
  - rewrite one_hot_row_out_of_range; [apply cross_entropy_zeros|].
    apply andb_false_iff in E. destruct E as [E|E]; apply Z.leb_gt in E; lia.
Qed.

Lemma loss_by_example (vs : Variables) (noise : nat -> nat -> R)
      (rows : list (list R)) (labels_ : list Z) (mode : ModeKeys.t) :
  Forall (fun r => length r = 784%nat) rows ->
  length labels_ = length rows ->
  mode <> ModeKeys.PREDICT ->
  exists logits spec g,
    run_layers vs noise (spec_architecture mode) (Maps (as_images rows))
    = Some (Vectors logits)
    /\ shape2 (length rows) 10 logits
    /\ cnn_model_fn vs noise (feature_dict 784 rows) (Some labels_) mode
       = Some (spec, g)
    /\ loss spec
       = Some (Rsum (map (fun zl => example_loss (tf.cast_int32 (fst zl))
                                                 (snd zl))
                         (combine labels_ logits))
               / INR (length rows)).
Proof.
  intros Hv Hlen Hmode.
  destruct (cnn_model_fn_valid vs noise rows (Some labels_) mode Hv)
    as (logits & Hrun & Hshape & Heq).
  destruct Hshape as [Hn Hrows].
  destruct (outputs_of_loss logits labels_ mode) as
      (spec & g & Hout & Hloss & _); [congruence | exact Hmode |].
  exists logits, spec, g. split; [exact Hrun|].
  split; [split; assumption|]. split; [now rewrite Heq|].
  rewrite Hloss. f_equal. unfold spec_loss. rewrite Hn. f_equal. f_equal.
  rewrite combine_map_l, map_map.
  apply (map_ext_combine (fun _ => True) (fun r => length r = 10%nat)).
  - apply Forall_forall. intros; exact I.
  - exact Hrows.
  - intros z r _ Hr. cbn [fst snd].
    apply example_loss_is_cross_entropy. exact Hr.
Qed.

Lemma cast_int32_out_of_range (z : Z) :
  (-2147483648 <= z < 0 \/ 9 < z < 2147483648)%Z ->
  (tf.cast_int32 z < 0 \/ 9 < tf.cast_int32 z)%Z.
Proof. intros H. rewrite cast_int32_small by lia. lia. Qed.

(** C10.  In train and eval mode the model function returns a loss for
    every batch of flat 28x28 images that comes with one label per
    image, whatever the labels are: no label makes it fail.  The labels
    are cast to int32 first.  The loss is the mean over the batch of the
    losses of the examples, where an example whose cast label is one of
    0..9 contributes the negative log-probability of that class and
    every other example contributes 0: a cast label outside 0..9 is
    encoded at depth 10 as the all-zero vector.  Every label outside
    0..9 that is an int32 value is such a label. *)
Theorem out_of_range_label_is_tolerated
        (vs : Variables) (noise : nat -> nat -> R)
        (rows : list (list R)) (labels_ : list Z) (mode : ModeKeys.t) :
  valid_batch rows = true ->
  length labels_ = length rows ->
  mode <> ModeKeys.PREDICT ->
  (exists logits spec g,
      run_layers vs noise (spec_architecture mode) (Maps (as_images rows))
      = Some (Vectors logits)
      /\ cnn_model_fn vs noise (feature_dict 784 rows) (Some labels_) mode
         = Some (spec, g)
      /\ loss spec
         = Some (Rsum (map (fun zl => example_loss (tf.cast_int32 (fst zl))
                                                   (snd zl))
                           (combine labels_ logits))
                 / INR (length rows)))
  /\ (forall z,
         (tf.cast_int32 z < 0 \/ 9 < tf.cast_int32 z)%Z ->
         tf.one_hot [tf.cast_int32 z] 10 = [repeat 0 10]
         /\ forall logits_row, example_loss (tf.cast_int32 z) logits_row = 0)
  /\ (forall z,
         (-2147483648 <= z < 0 \/ 9 < z < 2147483648)%Z ->
         (tf.cast_int32 z < 0 \/ 9 < tf.cast_int32 z)%Z).
Proof.
  intros Hv Hlen Hmode. apply valid_batch_Forall in Hv.
  split.
  - destruct (loss_by_example vs noise rows labels_ mode Hv Hlen Hmode)
      as (logits & spec & g & H1 & _ & H2 & H3).
    exists logits, spec, g. split; [exact H1|]. split; assumption.
  - split; [|exact cast_int32_out_of_range].
    intros z Hz. split.
    + unfold tf.one_hot. cbn [map].
      now rewrite (one_hot_row_out_of_range _ Hz).
    + intros r. unfold example_loss.
      destruct ((0 <=? tf.cast_int32 z) && (tf.cast_int32 z <=? 9))%Z eqn:E;
        [|reflexivity].
      apply andb_prop in E. destruct E as [E1 E2].
      apply Z.leb_le in E1, E2. lia.
Qed.

Lemma out_of_range_label_is_tolerated_witness :
  valid_batch [blank_image] = true
  /\ length [42%Z] = length [blank_image]
  /\ ModeKeys.EVAL <> ModeKeys.PREDICT
  /\ (exists spec g l,
         cnn_model_fn zero_variables no_noise
                      (feature_dict 784 [blank_image]) (Some [42%Z])
                      ModeKeys.EVAL = Some (spec, g)
         /\ loss spec = Some l)
  /\ tf.one_hot [tf.cast_int32 (-1)] 10 = [repeat 0 10].
Proof.
  assert (Hm : ModeKeys.EVAL <> ModeKeys.PREDICT) by discriminate.
  split; [reflexivity|]. split; [reflexivity|]. split; [exact Hm|].
  destruct (out_of_range_label_is_tolerated
              zero_variables no_noise [blank_image] [42%Z] ModeKeys.EVAL
              eq_refl eq_refl Hm) as [(logits & spec & g & _ & H1 & H2) [H3 _]].
  split; [exists spec, g; eexists; split; [exact H1 | exact H2]|].
  apply (H3 (-1)%Z). vm_compute. left. reflexivity.
Defined.

Lemma dot_zero (row : list R) : dot row (fun _ => 0) = 0.
Proof.
  unfold dot. apply (Rsum_zeros (fun p => snd p * 0)).
  apply Forall_forall. intros p _. ring.
Qed.

Lemma zero_dense (x : list (list R)) :
  tf.layers.dense x 10 linear (kernel2 zero_variables dense_kernel)
                  (bias1 zero_variables dense_bias)
  = map (fun _ => repeat 0 10) x.
Proof.
  unfold tf.layers.dense. apply map_ext. intros row.
  unfold tf.layers.dense_row, kernel2, bias1, zero_variables, linear.
  rewrite dot_zero. cbn [seq map repeat].
  replace (0 + 0) with 0 by ring. reflexivity.
Qed.

Lemma softmax_of_zeros :
  nth 3 (tf.nn.softmax_row (repeat 0 10)) 0 = 1 / 10.
Proof.
  unfold tf.nn.softmax_row. cbn [repeat map nth Rsum fold_right].
  rewrite exp_0. field.
Qed.

(** A label outside 0..9 is not always encoded as the all-zero vector:
    the cast to int32 wraps 4294967299 to 3, the label is encoded as
    class 3, and on a blank image with all variables at zero the loss
    is [- ln (1 / 10)], which is not 0. *)
Lemma a_label_beyond_int32_names_a_class :
  (4294967299 < 0 \/ 9 < 4294967299)%Z
  /\ tf.cast_int32 4294967299 = 3%Z
  /\ tf.one_hot [tf.cast_int32 4294967299] 10
     = [[0; 0; 0; 1; 0; 0; 0; 0; 0; 0]]
  /\ tf.one_hot [tf.cast_int32 4294967299] 10 <> [repeat 0 10]
  /\ exists spec g,
       cnn_model_fn zero_variables no_noise (feature_dict 784 [blank_image])
                    (Some [4294967299%Z]) ModeKeys.TRAIN = Some (spec, g)
       /\ loss spec = Some (- ln (1 / 10))
       /\ 0 < - ln (1 / 10).
Proof.
  assert (Hc : tf.cast_int32 4294967299 = 3%Z) by (vm_compute; reflexivity).
  split; [right; lia|]. split; [exact Hc|].
  rewrite Hc. split; [reflexivity|]. split.
  { intros H. apply (f_equal (fun l => nth 3 (hd [] l) 0)) in H.
    cbn in H. lra. }
  destruct (loss_by_example zero_variables no_noise [blank_image]
                            [4294967299%Z] ModeKeys.TRAIN)
    as (logits & spec & g & Hrun & [Hn _] & Hmodel & Hloss);
    [repeat constructor | reflexivity | discriminate |].
  rewrite (run_spec_architecture zero_variables no_noise ModeKeys.TRAIN
                                 [blank_image]) in Hrun
    by (repeat constructor).
  rewrite zero_dense in Hrun. injection Hrun as <-.
  exists spec, g. split; [exact Hmodel|]. split.
  - rewrite Hloss. f_equal.
    cbn [map combine fst snd Rsum fold_right length INR].
    rewrite Hc. unfold example_loss.
    change ((0 <=? 3) && (3 <=? 9))%Z with true. cbv iota.
    unfold negative_log_likelihood.
    change (Z.to_nat 3) with 3%nat.
    change [0; 0; 0; 0; 0; 0; 0; 0; 0; 0] with (repeat 0 10).
    rewrite softmax_of_zeros. field.
  - assert (H : ln (1 / 10) < ln 1) by (apply ln_increasing; lra).
    rewrite ln_1 in H. lra.
Qed.
